(** * GradientPrediction: masked hidden layers, rank error and the retrain drivers

    A shallow embedding of the parts of the repository that carry the
    deterministic-removal ("ablation") logic:

    - [mixedInputModel.py]: [create_hidden_layer] and [feed_det_remove];
    - [trainingGround.py]: the training loop and its rank-error computation;
    - [zf_retrain.py] and [ce_retrain.py]: [retrain] and the per-model loop
      of the two batch drivers.

    Numbers.  Tensor entries are float32 in the source.  They are modelled
    as rationals ([Qc]) extended with the IEEE special values [PInf], [NInf]
    and [NaN].  The operations [fadd], [fmul] and [fdiv] follow the IEEE rules
    for the special values (x/0, 0*inf, inf-inf) and are exact on finite
    values; the module [F32] has the same operations with the rounding of the
    result as a parameter, for the statements in which rounding or overflow
    matters.  Zeros carry no sign (every zero divisor met here is a sum of
    non-negative entries, a positive zero). *)

From Stdlib Require Import QArith Qcanon ZArith Lqa.
From stdpp Require Import base decidable option list sorting strings pretty gmap.
From Equations Require Import Equations.

Local Open Scope Qc_scope.

(** ** Python exceptions and results *)

(** An exception is identified by the name of its class. *)
Inductive exn := Exn (name : string).

Definition ValueError : exn := Exn "ValueError".
Definition IndexError : exn := Exn "IndexError".
Definition FileExistsError : exn := Exn "FileExistsError".
Definition InvalidArgumentError : exn := Exn "InvalidArgumentError".

#[global] Instance exn_eq_dec : EqDecision exn.
Proof. solve_decision. Defined.

Inductive result (A : Type) :=
| Ok (a : A)
| Raise (e : exn).
Arguments Ok {A} a.
Arguments Raise {A} e.

#[global] Instance result_ret : MRet result := fun A a => Ok a.
#[global] Instance result_bind : MBind result := fun A B f r =>
  match r with Ok a => f a | Raise e => Raise e end.
#[global] Instance result_fmap : FMap result := fun A B f r =>
  match r with Ok a => Ok (f a) | Raise e => Raise e end.

(** [l[i]] on a Python list: [IndexError] out of range. *)
Definition getitem {A} (l : list A) (i : nat) : result A :=
  match l !! i with Some a => Ok a | None => Raise IndexError end.

(** ** Tensor entries *)

Definition Qc_of_Z (z : Z) : Qc := Q2Qc (inject_Z z).
Definition Qc_of_nat (n : nat) : Qc := Qc_of_Z (Z.of_nat n).

Inductive fval :=
| Fin (q : Qc)
| PInf
| NInf
| NaN.

#[global] Instance fval_eq_dec : EqDecision fval.
Proof. solve_decision. Defined.

Definition fneg (a : fval) : fval :=
  match a with Fin q => Fin (- q) | PInf => NInf | NInf => PInf | NaN => NaN end.

(** The infinity with the sign of [q]; [NaN] for [q = 0]. *)
Definition signed_inf (q : Qc) : fval :=
  if decide (q = 0) then NaN else if decide (0 < q) then PInf else NInf.

Definition fadd (a b : fval) : fval :=
  match a, b with
  | NaN, _ | _, NaN => NaN
  | Fin p, Fin q => Fin (p + q)
  | PInf, NInf | NInf, PInf => NaN
  | PInf, _ | _, PInf => PInf
  | NInf, _ | _, NInf => NInf
  end.

Definition fmul (a b : fval) : fval :=
  match a, b with
  | NaN, _ | _, NaN => NaN
  | Fin p, Fin q => Fin (p * q)
  | Fin p, PInf | PInf, Fin p => signed_inf p
  | Fin p, NInf | NInf, Fin p => fneg (signed_inf p)
  | PInf, PInf | NInf, NInf => PInf
  | PInf, NInf | NInf, PInf => NInf
  end.

Definition fdiv (a b : fval) : fval :=
  match a, b with
  | NaN, _ | _, NaN => NaN
  | Fin p, Fin q => if decide (q = 0) then signed_inf p else Fin (p / q)
  | Fin _, (PInf | NInf) => Fin 0
  | PInf, Fin q => if decide (q < 0) then NInf else PInf
  | NInf, Fin q => if decide (q < 0) then PInf else NInf
  | (PInf | NInf), (PInf | NInf) => NaN
  end.

(** [tf.nn.relu]: [max(x, 0)], computed as [x < 0 ? 0 : x], which lets [NaN]
    through. *)
Definition relu (a : fval) : fval :=
  match a with
  | Fin q => if decide (q < 0) then Fin 0 else Fin q
  | PInf => PInf
  | NInf => Fin 0
  | NaN => NaN
  end.

(** ** Tensor operations used by the hidden layer *)

Abbreviation vector := (list fval) (only parsing).
Abbreviation matrix := (list (list fval)) (only parsing).

Definition tf_reduce_sum (v : vector) : fval := foldr fadd (Fin 0) v.

Definition dot (x y : vector) : fval := tf_reduce_sum (zip_with fmul x y).

Definition column (j : nat) (w : matrix) : vector :=
  (fun row : vector => default (Fin 0) (row !! j)) <$> w.

(** [tf.matmul a w] for [w] of shape [[k, n]]. *)
Definition tf_matmul (n : nat) (a w : matrix) : matrix :=
  (fun row : vector => (fun j => dot row (column j w)) <$> seq 0 n) <$> a.

(** Elementwise operations of a [[batch, n]] tensor with a [[n]] tensor
    (broadcast over the rows) and with a scalar. *)
Definition add_rows (a : matrix) (b : vector) : matrix :=
  (fun row : vector => zip_with fadd row b) <$> a.
Definition mul_rows (a : matrix) (v : vector) : matrix :=
  (fun row : vector => zip_with fmul row v) <$> a.
Definition mul_scalar (a : matrix) (s : fval) : matrix :=
  (fun row : vector => (fun e => fmul e s) <$> row) <$> a.
Definition tf_nn_relu (a : matrix) : matrix :=
  (fun row : vector => relu <$> row) <$> a.

(** ** mixedInputModel.py *)

Module mIM.

(** Hyper parameters of the model. *)
Definition N_DENSE : list nat := [512; 512; 512]%nat.
Definition N_HIDDEN : nat := length N_DENSE.

(** The placeholders of the graph; [det_remove i] is the [i]-th entry of the
    list [det_remove], a placeholder of shape [[N_DENSE[i]]]. *)
Inductive placeholder :=
| x_in
| y_
| keep_prob
| det_remove (i : nat).

#[global] Instance placeholder_eq_dec : EqDecision placeholder.
Proof. solve_decision. Defined.

#[global] Instance placeholder_countable : Countable placeholder.
Proof.
  refine (inj_countable'
    (fun p => match p with
              | x_in => inl 0%nat | y_ => inl 1%nat | keep_prob => inl 2%nat
              | det_remove i => inr i end)
    (fun s => match s with
              | inl 0%nat => x_in | inl 1%nat => y_ | inl _ => keep_prob
              | inr i => det_remove i end) _).
  by intros [].
Defined.

(** A value fed to a placeholder: an array of rank 0, 1, 2 or 4 (the ranks
    of [keep_prob], [det_remove[i]], [y_] and [x_in]). *)
Inductive ndarray :=
| array0 (a : fval)
| array1 (v : list fval)
| array2 (m : list (list fval))
| array4 (x : list (list (list (list fval)))).

Definition as_vector (a : ndarray) : option vector :=
  match a with array1 v => Some v | _ => None end.

Definition np_ones (n : nat) : ndarray := array1 (replicate n (Fin 1)).

(** [create_hidden_layer(name_sfx, prev_out, n_units, index)]: the value of the
    layer units [h], given the values [w] and [b] of the layer's variables, the
    value [prev_out] of the previous layer and the value [v] fed to
    [det_remove[index]].

    <<
    scale = n_units / tf.reduce_sum(det_remove[index])
    h = tf.nn.relu((tf.matmul(prev_out, w) + b) * det_remove[index] * scale)
    >> *)
Definition create_hidden_layer (w : matrix) (b : vector) (prev_out : matrix)
    (n_units : nat) (v : vector) : matrix :=
  let scale := fdiv (Fin (Qc_of_nat n_units)) (tf_reduce_sum v) in
  tf_nn_relu (mul_scalar (mul_rows (add_rows (tf_matmul n_units prev_out w) b) v) scale).

(** Evaluating [h] in a session under a feed dictionary: the placeholder
    [det_remove[index]] has to be fed ([InvalidArgumentError] otherwise) with a
    value of its declared shape [[n_units]] ([ValueError] otherwise). Nothing
    else on this path raises. *)
Definition run_hidden_layer (feed_dict : gmap placeholder ndarray)
    (w : matrix) (b : vector) (prev_out : matrix) (n_units index : nat)
    : result matrix :=
  match feed_dict !! det_remove index with
  | None => Raise InvalidArgumentError
  | Some a =>
      match as_vector a with
      | Some v =>
          if decide (length v = n_units)
          then Ok (create_hidden_layer w b prev_out n_units v)
          else Raise ValueError
      | None => Raise ValueError
      end
  end.

(** [name_det_remove(index)]: ["remove_{0}".format(index)]. *)
Definition name_det_remove (index : nat) : string :=
  "remove_" +:+ pretty index.

(** The body of [for i in range(N_HIDDEN): feed_dict[det_remove[i]] = f(i)],
    for a function [f] that may raise. *)
Fixpoint feed_loop (f : nat -> result ndarray) (ixs : list nat)
    (feed_dict : gmap placeholder ndarray) : result (gmap placeholder ndarray) :=
  match ixs with
  | [] => Ok feed_dict
  | i :: ixs' =>
      match f i with
      | Ok a => feed_loop f ixs' (<[det_remove i := a]> feed_dict)
      | Raise e => Raise e
      end
  end.

(** [feed_det_remove(feed_dict, values=None)]. *)
Definition feed_det_remove (feed_dict : gmap placeholder ndarray)
    (values : option (list ndarray)) : result (gmap placeholder ndarray) :=
  match values with
  | Some vs =>
      if decide (length vs ≠ N_HIDDEN) then Raise ValueError
      else feed_loop (fun i => getitem vs i) (seq 0 N_HIDDEN) feed_dict
  | None =>
      feed_loop (fun i => np_ones <$> getitem N_DENSE i) (seq 0 N_HIDDEN) feed_dict
  end.

(** [create_feed_dict(x_vals, y_vals=None, keep=1.0, removal=None)]. *)
Definition create_feed_dict (x_vals : ndarray) (y_vals : option ndarray)
    (keep : fval) (removal : option (list ndarray))
    : result (gmap placeholder ndarray) :=
  let f_dict := <[keep_prob := array0 keep]> (<[x_in := x_vals]> ∅) in
  let f_dict := match y_vals with
                | Some y => <[y_ := y]> f_dict
                | None => f_dict
                end in
  feed_det_remove f_dict removal.

End mIM.

(** *** The layer on finite values, as the specification words it *)

Definition lift (l : list Qc) : list fval := Fin <$> l.
Definition lift2 (m : list (list Qc)) : list (list fval) := lift <$> m.

Definition sumQ (l : list Qc) : Qc := foldr Qcplus 0 l.

Definition reluQ (q : Qc) : Qc := if decide (q < 0) then 0 else q.

Definition columnQ (j : nat) (W : list (list Qc)) : list Qc :=
  (fun row : list Qc => default 0 (row !! j)) <$> W.

(** The pre-activation [x·W + b] of the [n] units for one input row [x]. *)
Definition pre_activation (n : nat) (x : list Qc) (W : list (list Qc))
    (b : list Qc) : list Qc :=
  zip_with Qcplus
    ((fun j => sumQ (zip_with Qcmult x (columnQ j W))) <$> seq 0 n) b.

(** The summed activation [relu(x·W + b)] of the [n] units, before the mask
    is applied. *)
Definition pre_mask_activation (n : nat) (x : list Qc) (W : list (list Qc))
    (b : list Qc) : Qc :=
  sumQ (reluQ <$> pre_activation n x W b).

(** A removal vector: every entry is 0 (remove) or 1 (keep). *)
Definition is_mask (v : list Qc) : Prop := Forall (fun m => m = 0 ∨ m = 1) v.

(** ** Float32 arithmetic with rounding

    The tensors of the source hold float32 values.  An operation on finite
    values returns the float32 nearest to the exact result, an infinity when
    the exact result is beyond the largest float32; on special values it
    follows the IEEE rules of [fadd], [fmul] and [fdiv].  The rounding is the
    parameter [rnd] of the operations below; with [rnd := Fin] they are the
    exact operations. *)

Module F32.

Section Rounded.

Variable rnd : Qc -> fval.

Definition add (a b : fval) : fval :=
  match a, b with
  | Fin p, Fin q => rnd (p + q)
  | _, _ => fadd a b
  end.

Definition mul (a b : fval) : fval :=
  match a, b with
  | Fin p, Fin q => rnd (p * q)
  | _, _ => fmul a b
  end.

Definition div (a b : fval) : fval :=
  match a, b with
  | Fin p, Fin q => if decide (q = 0) then signed_inf p else rnd (p / q)
  | _, _ => fdiv a b
  end.

(** The reductions are written as right folds; the order in which TensorFlow
    adds the terms is not fixed by the source. *)
Definition tf_reduce_sum (v : vector) : fval := foldr add (Fin 0) v.

Definition dot (x y : vector) : fval := tf_reduce_sum (zip_with mul x y).

Definition tf_matmul (n : nat) (a w : matrix) : matrix :=
  (fun row : vector => (fun j => dot row (column j w)) <$> seq 0 n) <$> a.

Definition add_rows (a : matrix) (b : vector) : matrix :=
  (fun row : vector => zip_with add row b) <$> a.
Definition mul_rows (a : matrix) (v : vector) : matrix :=
  (fun row : vector => zip_with mul row v) <$> a.
Definition mul_scalar (a : matrix) (s : fval) : matrix :=
  (fun row : vector => (fun e => mul e s) <$> row) <$> a.

(** [tf.matmul(prev_out, w) + b]. *)
Definition pre_activation (w : matrix) (b : vector) (prev_out : matrix)
    (n_units : nat) : matrix :=
  add_rows (tf_matmul n_units prev_out w) b.

(** [n_units / tf.reduce_sum(det_remove[index])]: the Python integer
    [n_units] is converted to a float32 constant. *)
Definition scale (n_units : nat) (v : vector) : fval :=
  div (rnd (Qc_of_nat n_units)) (tf_reduce_sum v).

(** [create_hidden_layer] in float32:

    <<
    scale = n_units / tf.reduce_sum(det_remove[index])
    h = tf.nn.relu((tf.matmul(prev_out, w) + b) * det_remove[index] * scale)
    >> *)
Definition create_hidden_layer (w : matrix) (b : vector) (prev_out : matrix)
    (n_units : nat) (v : vector) : matrix :=
  tf_nn_relu
    (mul_scalar (mul_rows (pre_activation w b prev_out n_units) v)
       (scale n_units v)).

End Rounded.

(** The relative error of rounding to nearest with 24 significant bits, and
    the smallest positive normal float32. *)
Definition eps : Qc := Q2Qc (1 # 2 ^ 24).
Definition min_normal : Qc := Q2Qc (1 # 2 ^ 126).

(** What the theorems use of the rounding of float32: integers up to 2^24 are
    float32 values; a float32 value rounds to itself; rounding is monotone;
    values up to 2^24 do not overflow; in the normal range the relative error
    is at most 2^-24. *)
Record rounding (rnd : Qc -> fval) : Prop := {
  rnd_int : forall k : Z, (Z.abs k <= 2 ^ 24)%Z -> rnd (Qc_of_Z k) = Fin (Qc_of_Z k);
  rnd_idem : forall q r, rnd q = Fin r -> rnd r = Fin r;
  rnd_mono : forall p q r r', p <= q -> rnd p = Fin r -> rnd q = Fin r' -> r <= r';
  rnd_range : forall q, 0 <= q -> q <= Qc_of_Z (2 ^ 24) -> exists r, rnd q = Fin r;
  rnd_error : forall q r, min_normal <= q -> rnd q = Fin r ->
                          q * (1 - eps) <= r ∧ r <= q * (1 + eps)
}.

(** The largest float32, (2^24 - 1) × 2^104. *)
Definition max_float : Qc := Qc_of_Z ((2 ^ 24 - 1) * 2 ^ 104).

(** A rounding that keeps every value up to [max_float] and overflows beyond
    it: float32 with its overflow and without its rounding error. *)
Definition overflow_only (q : Qc) : fval :=
  if decide (- max_float <= q ∧ q <= max_float) then Fin q else signed_inf q.

End F32.

(** ** trainingGround.py: rank errors of the training loop *)

Module tG.

Definition BATCHSIZE : nat := 50.

(** [np.unique(ar)]: the sorted distinct values of [ar]. *)
Fixpoint insert_unique (x : Qc) (u : list Qc) : list Qc :=
  match u with
  | [] => [x]
  | y :: u' =>
      if decide (x < y) then x :: y :: u'
      else if decide (x = y) then y :: u'
      else y :: insert_unique x u'
  end.

Definition np_unique (ar : list Qc) : list Qc := foldr insert_unique [] ar.

Fixpoint index_of (x : Qc) (u : list Qc) : nat :=
  match u with
  | [] => 0
  | y :: u' => if decide (x = y) then 0 else S (index_of x u')
  end.

(** [np.unique(ar, return_inverse=True)[1]]: for each entry of [ar] its
    position in [np.unique(ar)]. *)
Definition np_unique_inverse (ar : list Qc) : list nat :=
  (fun x => index_of x (np_unique ar)) <$> ar.

Definition sum_Z (l : list Z) : Z := foldr Z.add 0%Z l.

(** [np.sum(np.abs(rank_real - rank_pred))] for one sample. *)
Definition rank_diff (real pred : list Qc) : Z :=
  let rank_real := np_unique_inverse real in
  let rank_pred := np_unique_inverse pred in
  sum_Z (zip_with (fun a b => Z.abs (Z.of_nat a - Z.of_nat b)) rank_real rank_pred).

(** The loop [for elem in range(BATCHSIZE)] accumulating [sum_rank_diffs]. *)
Fixpoint sum_rank_diffs_from (elems : list nat) (ybatch pred : list (list Qc))
    (acc : Qc) : result Qc :=
  match elems with
  | [] => Ok acc
  | elem :: rest =>
      real ← getitem ybatch elem;
      p ← getitem pred elem;
      sum_rank_diffs_from rest ybatch pred (acc + Qc_of_Z (rank_diff real p))
  end.

Definition sum_rank_diffs (ybatch pred : list (list Qc)) : result Qc :=
  sum_rank_diffs_from (seq 0 BATCHSIZE) ybatch pred 0.

(** The value appended to [rank_errors]: [sum_rank_diffs / BATCHSIZE]. *)
Definition rank_error (ybatch pred : list (list Qc)) : result Qc :=
  s ← sum_rank_diffs ybatch pred;
  Ok (s / Qc_of_nat BATCHSIZE).

(** The ranking the specification describes: values ranked in ascending
    order, ties broken by stable ascending order of the original index. *)
Definition stable_ranks (ar : list Qc) : list nat :=
  imap (fun i x =>
          Nat.add (length (filter (fun y => y < x) ar))
                  (length (filter (fun y => y = x) (take i ar)))) ar.

(** The dense rank of a value: the number of distinct values of the row that
    are smaller, so that tied values share a rank. *)
Definition dense_rank (ar : list Qc) (x : Qc) : nat :=
  length (remove_dups (filter (fun y => y < x) ar)).

Definition stable_rank_diff (real pred : list Qc) : Z :=
  sum_Z (zip_with (fun a b => Z.abs (Z.of_nat a - Z.of_nat b))
           (stable_ranks real) (stable_ranks pred)).

End tG.

(** ** The retrain drivers: shared vocabulary *)

Definition BATCHSIZE : nat := 32.
Definition TESTSIZE : nat := 128.
Definition EVAL_TEST_EVERY : nat := 50.

(** The dataset objects of the drivers ([tD_1] and [tD_2] in ce_retrain.py). *)
Inductive dataset :=
| testData
| trainingData_1
| trainingData_2.

#[global] Instance dataset_eq_dec : EqDecision dataset.
Proof. solve_decision. Defined.

(** The removal lists come from [a.create_det_drop_list(i, clust_ids, all_ids,
    targets)] of the analysis module; the drivers only pass them on, so a list
    is kept as the call that made it. *)
Inductive droplist :=
| create_det_drop_list (i : nat) (targets : list nat).

#[global] Instance droplist_eq_dec : EqDecision droplist.
Proof. solve_decision. Defined.

(** The training function of a run: [m.train], or the function returned by
    [m.get_filtered_train(lambda n: tag in n)]. *)
Inductive train_fun :=
| m_train
| filtered_train (tag : string).

#[global] Instance train_fun_eq_dec : EqDecision train_fun.
Proof. solve_decision. Defined.

(** The value [re] returned by [a.rank_error] in the evaluation made at a
    global step; the value itself depends on the sampled batch and the model
    and is kept symbolic. *)
Inductive measured :=
| rank_error_at (global_step : nat).

#[global] Instance measured_eq_dec : EqDecision measured.
Proof. solve_decision. Defined.

(** What a driver does to the outside world and to its logs, in order. *)
Inductive event :=
| training_batch (d : dataset) (n : nat)
| predict (det_drop : droplist)
| rank_error
| print_rank_error (global_step : nat) (re : measured)
| append_test_errors (re : measured)
| append_test_steps (global_step : nat)
| get_filtered_train (tag : string)
| train (f : train_fun) (removal : droplist)
| save_state (chk_file : string) (global_step : nat)
| print_saved
| h5py_File (name mode : string)
| create_test_rank_errors (data : list measured)
| create_test_eval (data : list nat)
| h5py_close
| random_shuffle (train_ix : list nat)
| ModelData (model_path : string)
| path_exists (p : string) (b : bool)
| print_skipping (folder : string) (p : string)
| mkdir (p : string)
| new_model
| model_load (model_path : string)
| model_clear.

#[global] Instance event_eq_dec : EqDecision event.
Proof. solve_decision. Defined.

Definition is_train (e : event) : bool :=
  match e with train _ _ => true | _ => false end.

(** The number of training steps in a sequence of events. *)
Definition training_steps (es : list event) : nat := length (filter is_train es).

(** The training steps of one ablation condition: those made with the
    training function [f] under the removal list [dl]. *)
Definition is_train_of (f : train_fun) (dl : droplist) (e : event) : bool :=
  match e with
  | train f' dl' => bool_decide (f' = f) && bool_decide (dl' = dl)
  | _ => false
  end.

Definition training_steps_of (f : train_fun) (dl : droplist) (es : list event) : nat :=
  length (filter (is_train_of f dl) es).

(** *** The two loops of [retrain] *)

Record run_state := {
  global_step : nat;
  test_errors : list measured;
  test_steps : list nat;
  events : list event
}.

Definition initial_state : run_state :=
  {| global_step := 0; test_errors := []; test_steps := []; events := [] |}.

(** The local function [test()] of [retrain]. *)
Definition test (dl : droplist) (st : run_state) : run_state :=
  let g := global_step st in
  let re := rank_error_at g in
  {| global_step := g;
     test_errors := test_errors st ++ [re];
     test_steps := test_steps st ++ [g];
     events := events st ++
       [training_batch testData TESTSIZE; predict dl; rank_error;
        print_rank_error g re; append_test_errors re; append_test_steps g] |}.

(** The body of both [while] loops. *)
Definition loop_body (d : dataset) (f : train_fun) (dl : droplist)
    (st : run_state) : run_state :=
  let st := if decide (global_step st mod EVAL_TEST_EVERY = 0)%nat
            then test dl st else st in
  {| global_step := S (global_step st);
     test_errors := test_errors st;
     test_steps := test_steps st;
     events := events st ++ [training_batch d BATCHSIZE; train f dl] |}.

(** [while global_step < bound: <loop_body>]. *)
Equations? while_global_step_lt (bound : nat) (d : dataset) (f : train_fun)
    (dl : droplist) (st : run_state) : run_state
    by wf (bound - global_step st)%nat lt :=
  while_global_step_lt bound d f dl st with decide (global_step st < bound)%nat := {
    | left _ => while_global_step_lt bound d f dl (loop_body d f dl st);
    | right _ => st }.
Proof. case_match; simpl; lia. Qed.

(** The loops of [retrain] on the datasets [d1] and [d2] of sizes [size_1] and
    [size_2]. *)
Definition retrain_loops (size_1 size_2 : nat) (d1 d2 : dataset) (f : train_fun)
    (dl : droplist) : run_state :=
  let epoch_1_size := (size_1 / BATCHSIZE)%nat in
  let epoch_2_size := (size_2 / BATCHSIZE)%nat in
  let st := initial_state in
  let st := while_global_step_lt epoch_1_size d1 f dl st in
  while_global_step_lt (epoch_1_size + epoch_2_size) d2 f dl st.

(** *** The schedule of a run, as the specification words it

    At a global step that is a multiple of [EVAL_TEST_EVERY] an evaluation is
    made first: a batch of [TESTSIZE] samples of the test set, a prediction
    under the mask, the rank error, and the (step, error) pair appended to the
    log.  Then, at every step, one batch of [BATCHSIZE] samples is drawn from
    the dataset of the phase and one training step is applied. *)

Definition evaluation (dl : droplist) (g : nat) : list event :=
  [training_batch testData TESTSIZE; predict dl; rank_error;
   print_rank_error g (rank_error_at g);
   append_test_errors (rank_error_at g); append_test_steps g].

Definition training (d : dataset) (f : train_fun) (dl : droplist) : list event :=
  [training_batch d BATCHSIZE; train f dl].

Definition step_events (d : dataset) (f : train_fun) (dl : droplist) (g : nat)
    : list event :=
  (if decide (g mod EVAL_TEST_EVERY = 0)%nat then evaluation dl g else [])
  ++ training d f dl.

(** The evaluation steps among the [n] global steps from [start]. *)
Definition eval_steps (start n : nat) : list nat :=
  filter (fun g => g mod EVAL_TEST_EVERY = 0)%nat (seq start n).

(** The events of [n] consecutive global steps from [start] on dataset [d]. *)
Definition phase_events (d : dataset) (f : train_fun) (dl : droplist)
    (start n : nat) : list event :=
  flat_map (step_events d f dl) (seq start n).

(** The global steps at which the log of a trace records an evaluation. *)
Definition logged_steps (es : list event) : list nat :=
  omap (fun e => match e with append_test_steps g => Some g | _ => None end) es.

(** The datasets the training batches of a trace are drawn from, in order. *)
Definition training_batches (es : list event) : list dataset :=
  omap (fun e => match e with
                 | training_batch d n =>
                     if decide (n = BATCHSIZE) then Some d else None
                 | _ => None
                 end) es.

(** *** The world of a driver: the paths that exist and what has happened *)

Record world := {
  files : gset string;
  trace : list event
}.

(** A driver computation: it returns or raises, and leaves a world. *)
Definition M (A : Type) : Type := world -> result A * world.

#[global] Instance M_ret : MRet M := fun A a w => (Ok a, w).
#[global] Instance M_bind : MBind M := fun A B f m w =>
  match m w with
  | (Ok a, w') => f a w'
  | (Raise e, w') => (Raise e, w')
  end.

Definition raise {A} (e : exn) : M A := fun w => (Raise e, w).

Definition emit (es : list event) : M unit := fun w =>
  (Ok tt, {| files := files w; trace := trace w ++ es |}).

(** [os.path.exists(p)]. *)
Definition os_path_exists (p : string) : M bool := fun w =>
  let b := bool_decide (p ∈ files w) in
  (Ok b, {| files := files w; trace := trace w ++ [path_exists p b] |}).

(** Creating the path [p], which must not exist yet. *)
Definition create_new (p : string) (e : event) : M unit := fun w =>
  if decide (p ∈ files w) then (Raise FileExistsError, w)
  else (Ok tt, {| files := {[p]} ∪ files w; trace := trace w ++ [e] |}).

(** [os.mkdir(p)]; the parent directory is a listed model directory. *)
Definition os_mkdir (p : string) : M unit := create_new p (mkdir p).

(** [h5py.File(name, "x")]: create the file, fail if it exists. *)
Definition h5py_File_x (name : string) : M unit := create_new name (h5py_File name "x").

(** The end of [retrain]: the checkpoint and the error file. *)
Definition save_results (save_path : string) (st : run_state) : M unit :=
  let chk_file := save_path +:+ "/retrain.ckpt" in
  emit [save_state chk_file (global_step st); print_saved];;
  h5py_File_x (save_path +:+ "/losses.hdf5");;
  emit [create_test_rank_errors (test_errors st);
        create_test_eval (test_steps st);
        h5py_close].

(** [path[:-1]]. *)
Fixpoint drop_last (s : string) : string :=
  match s with
  | EmptyString => EmptyString
  | String c EmptyString => EmptyString
  | String c s' => String c (drop_last s')
  end.

(** [for i, p in enumerate(paths): body(i, p)], counting from [i]. *)
Fixpoint for_enumerate (body : nat -> string -> M unit) (i : nat)
    (paths : list string) : M unit :=
  match paths with
  | [] => mret tt
  | p :: paths' => body i p;; for_enumerate body (S i) paths'
  end.

(** ** zf_retrain.py *)

Module Zf.

Definition fish_like : list nat := [1; 2; 3; 4; 5]%nat.
Definition fish_unlike : list nat :=
  filter (fun elem => elem ∉ fish_like) (seq 0 8).

Definition base_path : string := "./model_data/Adam_1e-4/sepInput_mixTrain/".

Definition mpath (path : string) : string := base_path +:+ drop_last path.

Section Driver.

(** [data_size] of the loaded datasets. *)
Variable data_size : dataset -> nat.

(** [retrain(m, save_path, droplist)]; the model [m] is the receiver of the
    [predict], [train] and [save_state] events. *)
Definition retrain (save_path : string) (dl : droplist) : M unit :=
  let st := retrain_loops (data_size trainingData_1) (data_size trainingData_2)
              trainingData_1 trainingData_2 m_train dl in
  emit (events st);;
  save_results save_path st.

(** The body of the loop over [paths_512] in [__main__]; [continue] ends the
    body. *)
Definition model_iteration (i : nat) (p : string) : M unit :=
  let model_path := mpath p in
  emit [ModelData model_path];;
  let fl_folder := model_path +:+ "/fl_retrain" in
  exists_ ← os_path_exists fl_folder;
  if (exists_ : bool) then emit [print_skipping "fl_retrain" p]
  else
    os_mkdir fl_folder;;
    let dlist := create_det_drop_list i fish_like in
    emit [new_model; model_load model_path];;
    retrain fl_folder dlist;;
    let fl_folder := model_path +:+ "/nfl_retrain" in
    exists_ ← os_path_exists fl_folder;
    if (exists_ : bool) then emit [print_skipping "nfl_retrain" p]
    else
      os_mkdir fl_folder;;
      let dlist := create_det_drop_list i fish_unlike in
      emit [model_clear; model_load model_path];;
      retrain fl_folder dlist.

(** The loop over the model directories [paths_512], the entries of
    [os.listdir(base_path)] that contain ["_3m512_"], each with a ['/']
    appended.  (The loading of the datasets, of the activity and of the
    cluster ids before the loop is not part of it.) *)
Definition main (paths_512 : list string) : M unit :=
  for_enumerate model_iteration 0 paths_512.

End Driver.

End Zf.

(** ** ce_retrain.py *)

Module Ce.

Definition ce_like : list nat := [1; 7]%nat.
Definition ce_unlike : list nat :=
  filter (fun elem => elem ∉ ce_like) (seq 0 8).

Definition base_path : string := "./model_data/CE_Adam_1e-4/".

Definition mpath (path : string) : string := base_path +:+ drop_last path.

(** [train_list = [tD_1, tD_2]]. *)
Definition train_list : list dataset := [trainingData_1; trainingData_2].

Section Driver.

Variable data_size : dataset -> nat.

(** [retrain(m, save_path, droplist, td_ix, filter_fun)], for the filter
    [lambda n: tag in n]. *)
Definition retrain (save_path : string) (dl : droplist) (td_ix : list nat)
    (tag : string) : M unit :=
  emit [get_filtered_train tag];;
  let train_func := filtered_train tag in
  match getitem td_ix 0 ≫= getitem train_list,
        getitem td_ix 1 ≫= getitem train_list with
  | Ok d1, Ok d2 =>
      let st := retrain_loops (data_size d1) (data_size d2) d1 d2 train_func dl in
      emit (events st);;
      save_results save_path st
  | Raise e, _ | Ok _, Raise e => raise e
  end.

(** The order of [train_ix] after a shuffle of [[0, 1]]. *)
Definition shuffled (swap : bool) : list nat :=
  if swap then [1; 0]%nat else [0; 1]%nat.

(** The body of the loop over [paths_512] in [__main__]; [swap] tells whether
    [np.random.shuffle(train_ix)] leaves [train_ix] as [[1, 0]]. *)
Definition model_iteration (swap : bool) (i : nat) (p : string) : M unit :=
  let train_ix := shuffled swap in
  emit [random_shuffle train_ix];;
  let model_path := mpath p in
  emit [ModelData model_path];;
  let cel_folder := model_path +:+ "/cel_tbranch_retrain" in
  let dlist := create_det_drop_list i ce_like in
  exists_ ← os_path_exists cel_folder;
  model ← (if (exists_ : bool)
           then emit [print_skipping "cel_tbranch_retrain" p];; mret false
           else
             os_mkdir cel_folder;;
             emit [new_model; model_load model_path];;
             retrain cel_folder dlist train_ix "_t_";;
             mret true);
  let cel_folder := model_path +:+ "/cel_nontbranch_retrain" in
  exists_ ← os_path_exists cel_folder;
  if (exists_ : bool) then emit [print_skipping "cel_nontbranch_retrain" p]
  else
    os_mkdir cel_folder;;
    (if (model : bool) then emit [model_clear] else mret tt);;
    emit [new_model; model_load model_path];;
    retrain cel_folder dlist train_ix "_m_";;
    emit [model_clear].

(** The loop over [paths_512]; [swaps i] is the outcome of the shuffle of the
    [i]-th iteration. *)
Definition main (swaps : nat -> bool) (paths_512 : list string) : M unit :=
  for_enumerate (fun i p => model_iteration (swaps i) i p) 0 paths_512.

End Driver.

End Ce.

(** The events with which [retrain] ends: the checkpoint at the final global
    step and, when the error file is new, the two logs written to it. *)
Definition finalize_events (save_path : string) (st : run_state) (fresh : bool)
    : list event :=
  [save_state (save_path +:+ "/retrain.ckpt") (global_step st); print_saved]
  ++ (if fresh
      then [h5py_File (save_path +:+ "/losses.hdf5") "x";
            create_test_rank_errors (test_errors st);
            create_test_eval (test_steps st);
            h5py_close]
      else []).

(** The events of the two phases of a run with [e1] and [e2] steps: one
    schedule over the shared global step counter, on dataset [d1] below step
    [e1] and on dataset [d2] from there on. *)
Definition run_events (e1 e2 : nat) (d1 d2 : dataset) (f : train_fun)
    (dl : droplist) : list event :=
  flat_map (fun g => step_events (if decide (g < e1)%nat then d1 else d2) f dl g)
           (seq 0 (e1 + e2)).

(** The events a computation adds to the trace of a world. *)
Definition new_events {A} (m : M A) (w : world) : list event :=
  drop (length (trace w)) (trace (m w).2).

(** A computation never removes a path. *)
Definition grows {A} (m : M A) : Prop :=
  forall w, files w ⊆ files (m w).2.

(** [enumerate(l)], counting from [i]. *)
Fixpoint enumerate_from {A} (i : nat) (l : list A) : list (nat * A) :=
  match l with
  | [] => []
  | a :: l' => (i, a) :: enumerate_from (S i) l'
  end.

(** The events with which the drivers pass over a model whose output folders
    exist. *)
Definition Zf_skip_events (p : string) : list event :=
  [ModelData (Zf.mpath p);
   path_exists (Zf.mpath p +:+ "/fl_retrain") true;
   print_skipping "fl_retrain" p].

Definition Ce_skip_events (swap : bool) (p : string) : list event :=
  [random_shuffle (Ce.shuffled swap); ModelData (Ce.mpath p);
   path_exists (Ce.mpath p +:+ "/cel_tbranch_retrain") true;
   print_skipping "cel_tbranch_retrain" p;
   path_exists (Ce.mpath p +:+ "/cel_nontbranch_retrain") true;
   print_skipping "cel_nontbranch_retrain" p].

(** Concrete inputs: datasets of given sizes and a world without files. *)
Definition sizes (size_1 size_2 : nat) (d : dataset) : nat :=
  match d with
  | trainingData_1 => size_1
  | trainingData_2 => size_2
  | testData => TESTSIZE
  end.

Definition empty_world : world := {| files := ∅; trace := [] |}.

(** * Properties *)

(** ** The loops of [retrain] *)

Section Loops.

Context (d : dataset) (f : train_fun) (dl : droplist).

Lemma loop_body_global_step st :
  global_step (loop_body d f dl st) = S (global_step st).
Proof. unfold loop_body. by case_decide. Qed.

Lemma while_unfold bound st :
  while_global_step_lt bound d f dl st =
  if decide (global_step st < bound)%nat
  then while_global_step_lt bound d f dl (loop_body d f dl st)
  else st.
Proof.
  rewrite while_global_step_lt_equation_1 at 1.
  destruct (decide (global_step st < bound)%nat); reflexivity.
Qed.

Lemma eval_steps_S start n :
  eval_steps start (S n) =
  (if decide (start mod EVAL_TEST_EVERY = 0)%nat then [start] else [])
  ++ eval_steps (S start) n.
Proof.
  unfold eval_steps. cbn [seq]. rewrite filter_cons.
  by destruct (decide (start mod EVAL_TEST_EVERY = 0)%nat).
Qed.

Lemma loop_body_spec st :
  let g := global_step st in
  let due := if decide (g mod EVAL_TEST_EVERY = 0)%nat then [g] else [] in
  loop_body d f dl st =
  {| global_step := S g;
     test_errors := test_errors st ++ (rank_error_at <$> due);
     test_steps := test_steps st ++ due;
     events := events st ++ step_events d f dl g |}.
Proof.
  destruct st as [g errs steps es]. cbn [global_step].
  unfold loop_body, step_events, test, evaluation, training. cbn [global_step].
  destruct (decide (g mod EVAL_TEST_EVERY = 0)%nat); cbn -[Nat.modulo];
    rewrite ?app_nil_r, <- ?app_assoc; reflexivity.
Qed.

(** The loop runs the steps from the current global step up to the bound (none
    if the bound is already reached) and stops. *)
Lemma while_spec n : forall bound st,
  (bound - global_step st = n)%nat ->
  while_global_step_lt bound d f dl st =
  {| global_step := global_step st + n;
     test_errors := test_errors st ++ (rank_error_at <$> eval_steps (global_step st) n);
     test_steps := test_steps st ++ eval_steps (global_step st) n;
     events := events st ++ phase_events d f dl (global_step st) n |}.
Proof.
  induction n as [|n IH]; intros bound st Hn; rewrite while_unfold.
  - rewrite decide_False by lia. destruct st; cbn.
    by rewrite Nat.add_0_r, !app_nil_r.
  - rewrite decide_True by lia.
    rewrite (IH bound (loop_body d f dl st)) by (rewrite loop_body_global_step; lia).
    rewrite loop_body_spec. cbn [global_step test_errors test_steps events].
    rewrite eval_steps_S. unfold phase_events. cbn [seq flat_map].
    rewrite fmap_app, <- !app_assoc. f_equal. lia.
Qed.

End Loops.

Lemma eval_steps_app start n m :
  eval_steps start (n + m) = eval_steps start n ++ eval_steps (start + n) m.
Proof. unfold eval_steps. by rewrite seq_app, filter_app. Qed.

(** What the two loops of a run leave behind. *)
Lemma retrain_loops_spec size_1 size_2 d1 d2 f dl :
  let e1 := (size_1 / BATCHSIZE)%nat in
  let e2 := (size_2 / BATCHSIZE)%nat in
  retrain_loops size_1 size_2 d1 d2 f dl =
  {| global_step := e1 + e2;
     test_errors := rank_error_at <$> eval_steps 0 (e1 + e2);
     test_steps := eval_steps 0 (e1 + e2);
     events := phase_events d1 f dl 0 e1 ++ phase_events d2 f dl e1 e2 |}.
Proof.
  intros e1 e2. unfold retrain_loops. fold e1 e2.
  rewrite (while_spec d1 f dl e1 e1 initial_state) by (cbn; lia).
  rewrite (while_spec d2 f dl e2) by (cbn; lia).
  cbn [global_step test_errors test_steps events initial_state app].
  rewrite Nat.add_0_l, eval_steps_app, fmap_app. reflexivity.
Qed.

Lemma flat_map_ext_seq {A} (g h : nat -> list A) start n :
  (forall i, (start <= i < start + n)%nat -> g i = h i) ->
  flat_map g (seq start n) = flat_map h (seq start n).
Proof.
  revert start. induction n as [|n IH]; intros start Hgh; [done|].
  cbn [seq flat_map]. rewrite Hgh by lia. f_equal. apply IH. intros; apply Hgh; lia.
Qed.

Lemma run_events_phases e1 e2 d1 d2 f dl :
  run_events e1 e2 d1 d2 f dl =
  phase_events d1 f dl 0 e1 ++ phase_events d2 f dl e1 e2.
Proof.
  unfold run_events, phase_events. rewrite seq_app, flat_map_app. f_equal.
  - apply flat_map_ext_seq. intros g Hg. by rewrite decide_True by lia.
  - apply flat_map_ext_seq. intros g Hg. by rewrite decide_False by lia.
Qed.

(** Counting over a schedule. *)

Lemma training_steps_app es1 es2 :
  training_steps (es1 ++ es2) = (training_steps es1 + training_steps es2)%nat.
Proof. unfold training_steps. by rewrite filter_app, length_app. Qed.

Lemma logged_steps_app es1 es2 :
  logged_steps (es1 ++ es2) = logged_steps es1 ++ logged_steps es2.
Proof. apply omap_app. Qed.

Lemma training_batches_app es1 es2 :
  training_batches (es1 ++ es2) = training_batches es1 ++ training_batches es2.
Proof. apply omap_app. Qed.

Lemma training_steps_phase d f dl start n :
  training_steps (phase_events d f dl start n) = n.
Proof.
  unfold phase_events. revert start.
  induction n as [|n IH]; intros start; [done|].
  cbn [seq flat_map]. rewrite training_steps_app, IH.
  unfold step_events. by destruct (decide (start mod EVAL_TEST_EVERY = 0)%nat).
Qed.

Lemma logged_steps_phase d f dl start n :
  logged_steps (phase_events d f dl start n) = eval_steps start n.
Proof.
  unfold phase_events. revert start.
  induction n as [|n IH]; intros start; [done|].
  cbn [seq flat_map]. rewrite logged_steps_app, IH, eval_steps_S.
  unfold step_events. by destruct (decide (start mod EVAL_TEST_EVERY = 0)%nat).
Qed.

Lemma training_batches_phase d f dl start n :
  training_batches (phase_events d f dl start n) = replicate n d.
Proof.
  unfold phase_events. revert start.
  induction n as [|n IH]; intros start; [done|].
  cbn [seq flat_map replicate]. rewrite training_batches_app, IH.
  unfold step_events. by destruct (decide (start mod EVAL_TEST_EVERY = 0)%nat).
Qed.

Lemma training_steps_finalize sp st fresh :
  training_steps (finalize_events sp st fresh) = 0%nat.
Proof. by destruct fresh. Qed.

Lemma logged_steps_finalize sp st fresh :
  logged_steps (finalize_events sp st fresh) = [].
Proof. by destruct fresh. Qed.

Lemma training_batches_finalize sp st fresh :
  training_batches (finalize_events sp st fresh) = [].
Proof. by destruct fresh. Qed.

(** ** [retrain] in a world *)

Lemma new_events_intro {A} (m : M A) w es :
  trace (m w).2 = trace w ++ es -> new_events m w = es.
Proof. unfold new_events. intros ->. by rewrite drop_app_length. Qed.

Lemma save_results_spec sp st w :
  let fresh := bool_decide (sp +:+ "/losses.hdf5" ∉ files w) in
  save_results sp st w =
  (if fresh then Ok tt else Raise FileExistsError,
   {| files := if fresh then {[sp +:+ "/losses.hdf5"]} ∪ files w else files w;
      trace := trace w ++ finalize_events sp st fresh |}).
Proof.
  unfold save_results, finalize_events, h5py_File_x, create_new, emit.
  unfold mbind, M_bind. cbn [files trace].
  destruct (decide (sp +:+ "/losses.hdf5" ∈ files w)) as [Hin|Hin]; cbn zeta.
  - rewrite bool_decide_eq_false_2 by (intros H; by apply H). by rewrite app_nil_r.
  - rewrite bool_decide_eq_true_2 by done. cbn [files trace].
    by rewrite <- !app_assoc.
Qed.

Lemma Zf_retrain_spec data_size sp dl w :
  let st := retrain_loops (data_size trainingData_1) (data_size trainingData_2)
              trainingData_1 trainingData_2 m_train dl in
  let fresh := bool_decide (sp +:+ "/losses.hdf5" ∉ files w) in
  Zf.retrain data_size sp dl w =
  (if fresh then Ok tt else Raise FileExistsError,
   {| files := if fresh then {[sp +:+ "/losses.hdf5"]} ∪ files w else files w;
      trace := trace w ++ events st ++ finalize_events sp st fresh |}).
Proof.
  intros st fresh. unfold Zf.retrain. fold st.
  unfold mbind, M_bind, emit at 1. rewrite save_results_spec. cbn [files trace].
  fold fresh. by rewrite <- app_assoc.
Qed.

Lemma Ce_retrain_spec data_size sp dl (swap : bool) tag w :
  let d1 := if swap then trainingData_2 else trainingData_1 in
  let d2 := if swap then trainingData_1 else trainingData_2 in
  let st := retrain_loops (data_size d1) (data_size d2) d1 d2 (filtered_train tag) dl in
  let fresh := bool_decide (sp +:+ "/losses.hdf5" ∉ files w) in
  Ce.retrain data_size sp dl (Ce.shuffled swap) tag w =
  (if fresh then Ok tt else Raise FileExistsError,
   {| files := if fresh then {[sp +:+ "/losses.hdf5"]} ∪ files w else files w;
      trace := trace w ++ [get_filtered_train tag] ++ events st
               ++ finalize_events sp st fresh |}).
Proof.
  intros d1 d2 st fresh. unfold Ce.retrain.
  assert (getitem (Ce.shuffled swap) 0 ≫= getitem Ce.train_list = Ok d1) as ->
    by (by destruct swap).
  assert (getitem (Ce.shuffled swap) 1 ≫= getitem Ce.train_list = Ok d2) as ->
    by (by destruct swap).
  fold st. unfold mbind, M_bind, emit at 1 2. cbn [files trace].
  rewrite save_results_spec. cbn [files trace]. fold fresh.
  by rewrite <- !app_assoc.
Qed.

Lemma Zf_retrain_new_events data_size sp dl w :
  let e1 := (data_size trainingData_1 / BATCHSIZE)%nat in
  let e2 := (data_size trainingData_2 / BATCHSIZE)%nat in
  let st := retrain_loops (data_size trainingData_1) (data_size trainingData_2)
              trainingData_1 trainingData_2 m_train dl in
  new_events (Zf.retrain data_size sp dl) w =
  phase_events trainingData_1 m_train dl 0 e1
  ++ phase_events trainingData_2 m_train dl e1 e2
  ++ finalize_events sp st (bool_decide (sp +:+ "/losses.hdf5" ∉ files w)).
Proof.
  intros e1 e2 st. apply new_events_intro. rewrite Zf_retrain_spec.
  cbn [snd trace]. fold st. f_equal. rewrite app_assoc. f_equal.
  unfold st. by rewrite retrain_loops_spec.
Qed.

Lemma Ce_retrain_new_events data_size sp dl (swap : bool) tag w :
  let d1 := if swap then trainingData_2 else trainingData_1 in
  let d2 := if swap then trainingData_1 else trainingData_2 in
  let e1 := (data_size d1 / BATCHSIZE)%nat in
  let e2 := (data_size d2 / BATCHSIZE)%nat in
  let st := retrain_loops (data_size d1) (data_size d2) d1 d2 (filtered_train tag) dl in
  new_events (Ce.retrain data_size sp dl (Ce.shuffled swap) tag) w =
  [get_filtered_train tag]
  ++ phase_events d1 (filtered_train tag) dl 0 e1
  ++ phase_events d2 (filtered_train tag) dl e1 e2
  ++ finalize_events sp st (bool_decide (sp +:+ "/losses.hdf5" ∉ files w)).
Proof.
  intros d1 d2 e1 e2 st. apply new_events_intro. rewrite Ce_retrain_spec.
  cbn [snd trace]. fold d1 d2 st. do 2 f_equal. rewrite app_assoc. f_equal.
  unfold st. by rewrite retrain_loops_spec.
Qed.

Lemma Zf_retrain_training_steps data_size sp dl w :
  training_steps (new_events (Zf.retrain data_size sp dl) w) =
  (data_size trainingData_1 / BATCHSIZE + data_size trainingData_2 / BATCHSIZE)%nat.
Proof.
  rewrite Zf_retrain_new_events, !training_steps_app, !training_steps_phase,
    training_steps_finalize. lia.
Qed.

Lemma Ce_retrain_training_steps data_size sp dl (swap : bool) tag w :
  training_steps (new_events (Ce.retrain data_size sp dl (Ce.shuffled swap) tag) w) =
  (data_size trainingData_1 / BATCHSIZE + data_size trainingData_2 / BATCHSIZE)%nat.
Proof.
  rewrite Ce_retrain_new_events, !training_steps_app, !training_steps_phase,
    training_steps_finalize.
  change (training_steps [get_filtered_train tag]) with 0%nat.
  destruct swap; lia.
Qed.

Lemma Zf_retrain_logged_steps data_size sp dl w :
  logged_steps (new_events (Zf.retrain data_size sp dl) w) =
  eval_steps 0 (data_size trainingData_1 / BATCHSIZE
                + data_size trainingData_2 / BATCHSIZE).
Proof.
  rewrite Zf_retrain_new_events, !logged_steps_app, !logged_steps_phase,
    logged_steps_finalize, app_nil_r. by rewrite eval_steps_app.
Qed.

Lemma Ce_retrain_logged_steps data_size sp dl (swap : bool) tag w :
  let d1 := if swap then trainingData_2 else trainingData_1 in
  let d2 := if swap then trainingData_1 else trainingData_2 in
  logged_steps (new_events (Ce.retrain data_size sp dl (Ce.shuffled swap) tag) w) =
  eval_steps 0 (data_size d1 / BATCHSIZE + data_size d2 / BATCHSIZE).
Proof.
  intros d1 d2.
  rewrite Ce_retrain_new_events, !logged_steps_app, !logged_steps_phase,
    logged_steps_finalize, app_nil_r. fold d1 d2. by rewrite eval_steps_app.
Qed.

(** C3: for all dataset sizes s1 and s2, a retrain run (of either driver, from
    any world, for either order of the C. elegans datasets) performs exactly
    floor(s1/32) + floor(s2/32) training steps; for s1 = 320 and s2 = 160
    these are 10 + 5 = 15 training steps. *)
Theorem C3_training_step_count (data_size : dataset -> nat) (save_path : string)
    (dl : droplist) (swap : bool) (tag : string) (w : world) :
  let total := (data_size trainingData_1 / 32 + data_size trainingData_2 / 32)%nat in
  training_steps (new_events (Zf.retrain data_size save_path dl) w) = total
  ∧ training_steps
      (new_events (Ce.retrain data_size save_path dl (Ce.shuffled swap) tag) w) = total
  ∧ (data_size trainingData_1 = 320%nat -> data_size trainingData_2 = 160%nat ->
     total = (10 + 5)%nat ∧ total = 15%nat).
Proof.
  intros total. split; [apply Zf_retrain_training_steps|].
  split; [apply Ce_retrain_training_steps|].
  intros H1 H2. subst total. rewrite H1, H2. by vm_compute.
Qed.

Lemma C3_training_step_count_witness :
  training_steps
    (new_events (Zf.retrain (sizes 320 160) "out" (create_det_drop_list 0 Zf.fish_like))
       empty_world) = 15%nat
  ∧ training_steps
      (new_events (Ce.retrain (sizes 320 160) "out" (create_det_drop_list 0 Ce.ce_like)
                     [1; 0]%nat "_t_") empty_world) = 15%nat.
Proof.
  pose proof (C3_training_step_count (sizes 320 160) "out"
                (create_det_drop_list 0 Zf.fish_like) true "_t_" empty_world) as [HZ _].
  pose proof (C3_training_step_count (sizes 320 160) "out"
                (create_det_drop_list 0 Ce.ce_like) true "_t_" empty_world) as (_ & HC & _).
  split; [exact HZ | exact HC].
Defined.

Lemma step_events_due d f dl g :
  (g mod 50 = 0)%nat ->
  step_events d f dl g =
  [training_batch testData 128; predict dl; rank_error;
   print_rank_error g (rank_error_at g);
   append_test_errors (rank_error_at g); append_test_steps g;
   training_batch d 32; train f dl].
Proof. intros Hg. unfold step_events. by rewrite decide_True. Qed.

Lemma step_events_not_due d f dl g :
  (g mod 50 ≠ 0)%nat ->
  step_events d f dl g = [training_batch d 32; train f dl].
Proof. intros Hg. unfold step_events. by rewrite decide_False. Qed.

(** C4: the events of a retrain run are, global step by global step from 0 to
    the total step count, the events of that step; at a step that is a multiple
    of 50 these are first the evaluation (a 128-sample batch of the test set,
    the prediction under the removal mask, the rank error, the (step, error)
    pair appended to the log) and then one 32-sample training batch and one
    training step; at any other step only the training batch and the training
    step.  The steps logged as evaluated are exactly the multiples of 50 below
    the total, and they are the log of steps written to the error file. *)
Theorem C4_evaluation_then_training (data_size : dataset -> nat)
    (save_path : string) (dl : droplist) (swap : bool) (tag : string) (w : world) :
  let fresh := bool_decide (save_path +:+ "/losses.hdf5" ∉ files w) in
  (forall d f g, (g mod 50 = 0)%nat ->
     step_events d f dl g =
     [training_batch testData 128; predict dl; rank_error;
      print_rank_error g (rank_error_at g);
      append_test_errors (rank_error_at g); append_test_steps g;
      training_batch d 32; train f dl])
  ∧ (forall d f g, (g mod 50 ≠ 0)%nat ->
       step_events d f dl g = [training_batch d 32; train f dl])
  ∧ (let e1 := (data_size trainingData_1 / 32)%nat in
     let e2 := (data_size trainingData_2 / 32)%nat in
     let run := Zf.retrain data_size save_path dl in
     new_events run w =
       flat_map (fun g => step_events
                            (if decide (g < e1)%nat then trainingData_1 else trainingData_2)
                            m_train dl g) (seq 0 (e1 + e2))
       ++ finalize_events save_path
            (retrain_loops (data_size trainingData_1) (data_size trainingData_2)
               trainingData_1 trainingData_2 m_train dl) fresh
     ∧ logged_steps (new_events run w) =
         filter (fun g => g mod 50 = 0)%nat (seq 0 (e1 + e2))
     ∧ create_test_eval (filter (fun g => g mod 50 = 0)%nat (seq 0 (e1 + e2)))
         ∈ finalize_events save_path
             (retrain_loops (data_size trainingData_1) (data_size trainingData_2)
                trainingData_1 trainingData_2 m_train dl) true)
  ∧ (let d1 := if swap then trainingData_2 else trainingData_1 in
     let d2 := if swap then trainingData_1 else trainingData_2 in
     let e1 := (data_size d1 / 32)%nat in
     let e2 := (data_size d2 / 32)%nat in
     let run := Ce.retrain data_size save_path dl (Ce.shuffled swap) tag in
     new_events run w =
       [get_filtered_train tag]
       ++ flat_map (fun g => step_events (if decide (g < e1)%nat then d1 else d2)
                               (filtered_train tag) dl g) (seq 0 (e1 + e2))
       ++ finalize_events save_path
            (retrain_loops (data_size d1) (data_size d2) d1 d2 (filtered_train tag) dl)
            fresh
     ∧ logged_steps (new_events run w) =
         filter (fun g => g mod 50 = 0)%nat (seq 0 (e1 + e2))
     ∧ create_test_eval (filter (fun g => g mod 50 = 0)%nat (seq 0 (e1 + e2)))
         ∈ finalize_events save_path
             (retrain_loops (data_size d1) (data_size d2) d1 d2 (filtered_train tag) dl)
             true).
Proof.
  intros fresh. split; [intros; by apply step_events_due|].
  split; [intros; by apply step_events_not_due|]. split.
  - intros e1 e2 run. split; [|split].
    + unfold run. rewrite Zf_retrain_new_events, app_assoc. f_equal.
      symmetry. apply run_events_phases.
    + apply Zf_retrain_logged_steps.
    + rewrite retrain_loops_spec. unfold finalize_events. cbn [test_steps].
      rewrite !elem_of_app, !elem_of_cons. tauto.
  - intros d1 d2 e1 e2 run. split; [|split].
    + unfold run. rewrite Ce_retrain_new_events. f_equal.
      rewrite app_assoc. f_equal. symmetry. apply run_events_phases.
    + apply Ce_retrain_logged_steps.
    + rewrite retrain_loops_spec. unfold finalize_events. cbn [test_steps].
      rewrite !elem_of_app, !elem_of_cons. tauto.
Qed.

(** C5 (as stated): in the run of 15 training steps no evaluation is logged at
    the global steps 0 and 50.  The run on datasets of 320 and 160 samples
    does log an evaluation at global step 0. *)
Lemma C5_evaluation_at_step_0 :
  ¬ (forall g, g ∈ [0; 50]%nat ->
       g ∉ logged_steps
             (new_events (Zf.retrain (sizes 320 160) "out"
                            (create_det_drop_list 0 Zf.fish_like)) empty_world)).
Proof.
  intros H. refine (H 0%nat _ _); [apply list_elem_of_here|].
  rewrite Zf_retrain_logged_steps.
  change (eval_steps 0 (sizes 320 160 trainingData_1 / BATCHSIZE
                        + sizes 320 160 trainingData_2 / BATCHSIZE))
    with [0%nat].
  apply list_elem_of_here.
Qed.

(** C5 (amended): in a retrain run with 10 steps in phase 1 and 5 in phase 2
    there are 15 training steps and exactly one evaluation, the one at global
    step 0; none is made at global step 50 nor at or past the final global
    step 15. *)
Theorem C5_only_evaluation_is_at_step_0 (data_size : dataset -> nat)
    (save_path : string) (dl : droplist) (swap : bool) (tag : string) (w : world) :
  (data_size trainingData_1 / 32 = 10)%nat ->
  (data_size trainingData_2 / 32 = 5)%nat ->
  let zf := new_events (Zf.retrain data_size save_path dl) w in
  let ce := new_events (Ce.retrain data_size save_path dl (Ce.shuffled swap) tag) w in
  (training_steps zf = 15%nat ∧ logged_steps zf = [0%nat]
   ∧ (50%nat ∉ logged_steps zf) ∧ forall g, (15 <= g)%nat -> g ∉ logged_steps zf)
  ∧ (training_steps ce = 15%nat ∧ logged_steps ce = [0%nat]
     ∧ (50%nat ∉ logged_steps ce) ∧ forall g, (15 <= g)%nat -> g ∉ logged_steps ce).
Proof.
  intros H1 H2 zf ce.
  assert (logged_steps zf = [0%nat]) as Hzf.
  { unfold zf. rewrite Zf_retrain_logged_steps. unfold BATCHSIZE.
    rewrite H1, H2. reflexivity. }
  assert (logged_steps ce = [0%nat]) as Hce.
  { unfold ce. rewrite Ce_retrain_logged_steps. unfold BATCHSIZE.
    destruct swap; rewrite H1, H2; reflexivity. }
  split.
  - split; [unfold zf; rewrite Zf_retrain_training_steps; unfold BATCHSIZE; lia|].
    rewrite Hzf. split; [done|]. split; [by intros ?%list_elem_of_singleton|].
    intros g Hg Hin. apply list_elem_of_singleton in Hin. lia.
  - split; [unfold ce; rewrite Ce_retrain_training_steps; unfold BATCHSIZE; lia|].
    rewrite Hce. split; [done|]. split; [by intros ?%list_elem_of_singleton|].
    intros g Hg Hin. apply list_elem_of_singleton in Hin. lia.
Qed.

Lemma C5_only_evaluation_is_at_step_0_witness :
  logged_steps
    (new_events (Zf.retrain (sizes 320 160) "out" (create_det_drop_list 0 Zf.fish_like))
       empty_world) = [0%nat].
Proof.
  exact (proj1 (proj2 (proj1
    (C5_only_evaluation_is_at_step_0 (sizes 320 160) "out"
       (create_det_drop_list 0 Zf.fish_like) false "_t_" empty_world
       eq_refl eq_refl)))).
Defined.

Lemma retrain_loops_global_step size_1 size_2 d1 d2 f dl :
  global_step (retrain_loops size_1 size_2 d1 d2 f dl) =
  (size_1 / BATCHSIZE + size_2 / BATCHSIZE)%nat.
Proof. by rewrite retrain_loops_spec. Qed.

Lemma save_state_in_finalize sp st fresh :
  save_state (sp +:+ "/retrain.ckpt") (global_step st) ∈ finalize_events sp st fresh.
Proof. unfold finalize_events. apply elem_of_app. left. apply list_elem_of_here. Qed.

(** C6 (as stated): all phase-1 training batches are drawn from dataset 1 and
    all phase-2 training batches from dataset 2.  In the C. elegans driver the
    order of the two datasets is the shuffled [train_ix]; for the order
    [[1, 0]] and datasets of 32 and 64 samples the two batches of phase 1 are
    drawn from dataset 2 and the batch of phase 2 from dataset 1. *)
Lemma C6_shuffled_phase_order :
  let batches :=
    training_batches
      (new_events (Ce.retrain (sizes 32 64) "out" (create_det_drop_list 0 Ce.ce_like)
                     [1; 0]%nat "_t_") empty_world) in
  batches = [trainingData_2; trainingData_2; trainingData_1]
  ∧ ¬ (exists n1 n2,
         batches = replicate n1 trainingData_1 ++ replicate n2 trainingData_2).
Proof.
  assert (training_batches
      (new_events (Ce.retrain (sizes 32 64) "out" (create_det_drop_list 0 Ce.ce_like)
                     [1; 0]%nat "_t_") empty_world)
    = [trainingData_2; trainingData_2; trainingData_1]) as E by by vm_compute.
  cbv zeta. rewrite E. split; [done|].
  intros (n1 & n2 & H). destruct n1 as [|n1]; [|discriminate].
  destruct n2 as [|[|[|n2]]]; discriminate.
Qed.

(** C6 (amended): in a zebrafish retrain run the training batches of phase 1
    are drawn from dataset 1 and those of phase 2 from dataset 2; in a
    C. elegans retrain run phase 1 draws from [train_list[td_ix[0]]] and phase
    2 from [train_list[td_ix[1]]], for the shuffled order [td_ix] of [[0, 1]]
    of that model.  In both, phase 1 covers the global steps from 0 for
    epoch_1_size steps, phase 2 continues the same counter from epoch_1_size
    for epoch_2_size further steps, and the checkpoint is saved at global step
    epoch_1_size + epoch_2_size. *)
Theorem C6_phases_and_final_checkpoint (data_size : dataset -> nat)
    (save_path : string) (dl : droplist) (swap : bool) (tag : string) (w : world) :
  let fresh := bool_decide (save_path +:+ "/losses.hdf5" ∉ files w) in
  (let e1 := (data_size trainingData_1 / 32)%nat in
   let e2 := (data_size trainingData_2 / 32)%nat in
   let st := retrain_loops (data_size trainingData_1) (data_size trainingData_2)
               trainingData_1 trainingData_2 m_train dl in
   let new := new_events (Zf.retrain data_size save_path dl) w in
   new = flat_map (step_events trainingData_1 m_train dl) (seq 0 e1)
         ++ flat_map (step_events trainingData_2 m_train dl) (seq e1 e2)
         ++ finalize_events save_path st fresh
   ∧ training_batches new = replicate e1 trainingData_1 ++ replicate e2 trainingData_2
   ∧ global_step st = (e1 + e2)%nat
   ∧ save_state (save_path +:+ "/retrain.ckpt") (e1 + e2) ∈ new)
  ∧ (let d1 := if swap then trainingData_2 else trainingData_1 in
     let d2 := if swap then trainingData_1 else trainingData_2 in
     let e1 := (data_size d1 / 32)%nat in
     let e2 := (data_size d2 / 32)%nat in
     let st := retrain_loops (data_size d1) (data_size d2) d1 d2 (filtered_train tag) dl in
     let new := new_events (Ce.retrain data_size save_path dl (Ce.shuffled swap) tag) w in
     getitem (Ce.shuffled swap) 0 ≫= getitem Ce.train_list = Ok d1
     ∧ getitem (Ce.shuffled swap) 1 ≫= getitem Ce.train_list = Ok d2
     ∧ new = [get_filtered_train tag]
             ++ flat_map (step_events d1 (filtered_train tag) dl) (seq 0 e1)
             ++ flat_map (step_events d2 (filtered_train tag) dl) (seq e1 e2)
             ++ finalize_events save_path st fresh
     ∧ training_batches new = replicate e1 d1 ++ replicate e2 d2
     ∧ global_step st = (e1 + e2)%nat
     ∧ save_state (save_path +:+ "/retrain.ckpt") (e1 + e2) ∈ new).
Proof.
  intros fresh. split.
  - intros e1 e2 st new.
    assert (new = phase_events trainingData_1 m_train dl 0 e1
                  ++ phase_events trainingData_2 m_train dl e1 e2
                  ++ finalize_events save_path st fresh) as Hnew
      by apply Zf_retrain_new_events.
    assert (global_step st = (e1 + e2)%nat) as Hg
      by apply retrain_loops_global_step.
    split; [exact Hnew|]. split; [|split; [exact Hg|]].
    + rewrite Hnew, !training_batches_app, !training_batches_phase,
        training_batches_finalize. by rewrite app_nil_r.
    + rewrite Hnew, <- Hg. rewrite !elem_of_app. right; right.
      apply save_state_in_finalize.
  - intros d1 d2 e1 e2 st new.
    assert (new = [get_filtered_train tag]
                  ++ phase_events d1 (filtered_train tag) dl 0 e1
                  ++ phase_events d2 (filtered_train tag) dl e1 e2
                  ++ finalize_events save_path st fresh) as Hnew
      by apply Ce_retrain_new_events.
    assert (global_step st = (e1 + e2)%nat) as Hg
      by apply retrain_loops_global_step.
    split; [by destruct swap|]. split; [by destruct swap|].
    split; [exact Hnew|]. split; [|split; [exact Hg|]].
    + rewrite Hnew, !training_batches_app, !training_batches_phase,
        training_batches_finalize. by rewrite app_nil_r.
    + rewrite Hnew, <- Hg. rewrite !elem_of_app. right; right; right.
      apply save_state_in_finalize.
Qed.

(** ** The per-model loop of the drivers *)

Lemma bind_run {A B} (m : M A) (k : A -> M B) w :
  (m ≫= k) w =
  match m w with
  | (Ok a, w') => k a w'
  | (Raise e, w') => (Raise e, w')
  end.
Proof. reflexivity. Qed.

Lemma ret_run {A} (a : A) w : (mret a : M A) w = (Ok a, w).
Proof. reflexivity. Qed.

Lemma emit_run es w :
  emit es w = (Ok tt, {| files := files w; trace := trace w ++ es |}).
Proof. reflexivity. Qed.

Lemma exists_run p w :
  os_path_exists p w =
  (Ok (bool_decide (p ∈ files w)),
   {| files := files w;
      trace := trace w ++ [path_exists p (bool_decide (p ∈ files w))] |}).
Proof. reflexivity. Qed.

Lemma mkdir_run p w :
  p ∉ files w ->
  os_mkdir p w =
  (Ok tt, {| files := {[p]} ∪ files w; trace := trace w ++ [mkdir p] |}).
Proof. intros. unfold os_mkdir, create_new. by rewrite decide_False. Qed.

(** One step of symbolic execution of a driver computation. *)
Ltac run_step :=
  rewrite bind_run;
  first [ rewrite emit_run
        | rewrite exists_run
        | rewrite mkdir_run by (cbn [files]; set_solver) ];
  cbn beta iota; cbn [files trace].

(** Paths only accumulate. *)

Create HintDb grows.

Lemma grows_ret {A} (a : A) : grows (mret a).
Proof. by intros w. Qed.

Lemma grows_raise {A} e : grows (@raise A e).
Proof. by intros w. Qed.

Lemma grows_emit es : grows (emit es).
Proof. by intros w. Qed.

Lemma grows_exists p : grows (os_path_exists p).
Proof. by intros w. Qed.

Lemma grows_create_new p e : grows (create_new p e).
Proof.
  intros w. unfold create_new. destruct (decide (p ∈ files w)); cbn; set_solver.
Qed.

Lemma grows_bind {A B} (m : M A) (k : A -> M B) :
  grows m -> (forall a, grows (k a)) -> grows (m ≫= k).
Proof.
  intros Hm Hk w. rewrite bind_run. specialize (Hm w).
  destruct (m w) as [[a|e] w']; cbn in *; [|done].
  specialize (Hk a w'). set_solver.
Qed.

Lemma grows_if {A} (b : bool) (m1 m2 : M A) :
  grows m1 -> grows m2 -> grows (if b then m1 else m2).
Proof. by destruct b. Qed.

#[local] Hint Resolve grows_ret grows_raise grows_emit grows_exists
  grows_create_new grows_bind grows_if : grows.

Lemma grows_save_results sp st : grows (save_results sp st).
Proof. unfold save_results, h5py_File_x. auto 10 with grows. Qed.

#[local] Hint Resolve grows_save_results : grows.

Lemma grows_Zf_retrain ds sp dl : grows (Zf.retrain ds sp dl).
Proof. unfold Zf.retrain. auto 10 with grows. Qed.

Lemma grows_Ce_retrain ds sp dl td_ix tag : grows (Ce.retrain ds sp dl td_ix tag).
Proof.
  unfold Ce.retrain. apply grows_bind; [auto with grows|]. intros _.
  destruct (getitem td_ix 0 ≫= getitem Ce.train_list);
    destruct (getitem td_ix 1 ≫= getitem Ce.train_list); auto 10 with grows.
Qed.

#[local] Hint Resolve grows_Zf_retrain grows_Ce_retrain : grows.

Lemma grows_Zf_iteration ds i p : grows (Zf.model_iteration ds i p).
Proof. unfold Zf.model_iteration, os_mkdir. auto 20 with grows. Qed.

Lemma grows_Ce_iteration ds swap i p : grows (Ce.model_iteration ds swap i p).
Proof. unfold Ce.model_iteration, os_mkdir. auto 20 with grows. Qed.

Lemma grows_elem {A} (m : M A) p w :
  grows m -> p ∈ files w -> p ∈ files (m w).2.
Proof. intros Hm Hp. specialize (Hm w). set_solver. Qed.

(** Strings: appending distinguishes suffixes. *)

Lemma string_app_inj (s a b : string) : s +:+ a = s +:+ b -> a = b.
Proof. apply String.app_inj. Qed.

Lemma string_app_length (s t : string) :
  String.length (s +:+ t) = (String.length s + String.length t)%nat.
Proof. induction s as [|c s IH]; simpl; [done|]. by rewrite IH. Qed.

Lemma string_app_neq (s t : string) : t ≠ "" -> s +:+ t ≠ s.
Proof.
  intros Ht H. apply (f_equal String.length) in H.
  rewrite string_app_length in H. destruct t; [done|]. cbn in H. lia.
Qed.

(** Counting the training steps of one condition. *)

Lemma training_steps_of_app f dl es1 es2 :
  training_steps_of f dl (es1 ++ es2) =
  (training_steps_of f dl es1 + training_steps_of f dl es2)%nat.
Proof. unfold training_steps_of. by rewrite filter_app, length_app. Qed.

Lemma training_steps_of_phase_other f dl d f' dl' start n :
  (f', dl') ≠ (f, dl) ->
  training_steps_of f dl (phase_events d f' dl' start n) = 0%nat.
Proof.
  intros Hne. unfold phase_events. revert start.
  induction n as [|n IH]; intros start; [done|].
  cbn [seq flat_map]. rewrite training_steps_of_app, IH.
  assert (bool_decide (f' = f) && bool_decide (dl' = dl) = false) as Hb.
  { apply andb_false_iff. destruct (decide (f' = f)) as [->|];
      [right|left]; apply bool_decide_eq_false_2; congruence. }
  unfold step_events, training_steps_of.
  destruct (decide (start mod EVAL_TEST_EVERY = 0)%nat);
    cbn -[Nat.modulo]; rewrite Hb; reflexivity.
Qed.

Lemma training_steps_of_finalize f dl sp st fresh :
  training_steps_of f dl (finalize_events sp st fresh) = 0%nat.
Proof. by destruct fresh. Qed.

Lemma training_steps_of_loops_other f dl size_1 size_2 d1 d2 f' dl' :
  (f', dl') ≠ (f, dl) ->
  training_steps_of f dl (events (retrain_loops size_1 size_2 d1 d2 f' dl')) = 0%nat.
Proof.
  intros Hne. rewrite retrain_loops_spec. cbn [events].
  by rewrite training_steps_of_app, !training_steps_of_phase_other.
Qed.

(** *** zf_retrain.py *)

Section ZfIteration.

Context (data_size : dataset -> nat) (i : nat) (p : string).

Let mp := Zf.mpath p.
Let fl := mp +:+ "/fl_retrain".
Let nfl := mp +:+ "/nfl_retrain".
Let like := create_det_drop_list i Zf.fish_like.
Let unlike := create_det_drop_list i Zf.fish_unlike.
Let run (dl : droplist) : run_state :=
  retrain_loops (data_size trainingData_1) (data_size trainingData_2)
    trainingData_1 trainingData_2 m_train dl.

Lemma Zf_iteration_fl_exists w :
  fl ∈ files w ->
  Zf.model_iteration data_size i p w =
  (Ok tt,
   {| files := files w;
      trace := trace w ++ [ModelData mp; path_exists fl true;
                           print_skipping "fl_retrain" p] |}).
Proof.
  intros Hfl. unfold Zf.model_iteration. fold mp fl.
  do 2 run_step. rewrite bool_decide_eq_true_2 by done.
  rewrite emit_run. cbn [files trace]. by rewrite <- !app_assoc.
Qed.

Lemma Zf_iteration_nfl_exists w :
  fl ∉ files w -> nfl ∈ files w ->
  let fresh := bool_decide (fl +:+ "/losses.hdf5" ∉ files w) in
  Zf.model_iteration data_size i p w =
  (if fresh then Ok tt else Raise FileExistsError,
   {| files := if fresh then {[fl +:+ "/losses.hdf5"]} ∪ ({[fl]} ∪ files w)
               else {[fl]} ∪ files w;
      trace := trace w
               ++ [ModelData mp; path_exists fl false; mkdir fl;
                   new_model; model_load mp]
               ++ events (run like) ++ finalize_events fl (run like) fresh
               ++ (if fresh then [path_exists nfl true;
                                  print_skipping "nfl_retrain" p]
                   else []) |}).
Proof.
  intros Hfl Hnfl fresh. unfold Zf.model_iteration. fold mp fl nfl like unlike.
  do 2 run_step. rewrite bool_decide_eq_false_2 by done. do 2 run_step.
  rewrite bind_run, Zf_retrain_spec. cbn [files trace]. fold (run like).
  assert (bool_decide (fl +:+ "/losses.hdf5" ∉ {[fl]} ∪ files w) = fresh) as ->.
  { apply bool_decide_ext. rewrite not_elem_of_union, not_elem_of_singleton.
    split; [by intros [_ ?]|]. intros ?. split; [by apply string_app_neq|done]. }
  destruct fresh.
  - run_step. rewrite bool_decide_eq_true_2 by set_solver.
    rewrite emit_run. cbn [files trace]. by rewrite <- !app_assoc.
  - by rewrite <- !app_assoc, !app_nil_r.
Qed.

Lemma Zf_iteration_Ok_fl w :
  (Zf.model_iteration data_size i p w).1 = Ok tt ->
  fl ∈ files (Zf.model_iteration data_size i p w).2.
Proof.
  intros _. destruct (decide (fl ∈ files w)) as [Hfl|Hfl].
  - by rewrite Zf_iteration_fl_exists.
  - unfold Zf.model_iteration. fold mp fl.
    do 2 run_step. rewrite bool_decide_eq_false_2 by done. run_step.
    apply grows_elem; [|cbn [files]; set_solver].
    unfold os_mkdir. auto 20 with grows.
Qed.

End ZfIteration.


(** *** ce_retrain.py *)

Section CeIteration.

Context (data_size : dataset -> nat) (swap : bool) (i : nat) (p : string).

Let mp := Ce.mpath p.
Let tb := mp +:+ "/cel_tbranch_retrain".
Let ntb := mp +:+ "/cel_nontbranch_retrain".
Let cel := create_det_drop_list i Ce.ce_like.
Let d1 := if swap then trainingData_2 else trainingData_1.
Let d2 := if swap then trainingData_1 else trainingData_2.
Let run (tag : string) : run_state :=
  retrain_loops (data_size d1) (data_size d2) d1 d2 (filtered_train tag) cel.

(** The second half of the loop body, from the check of the shared-branch
    folder on; [model] tells whether the first half made a model. *)
Let nontbranch_part (model : bool) : M unit :=
  exists_ ← os_path_exists ntb;
  if (exists_ : bool) then emit [print_skipping "cel_nontbranch_retrain" p]
  else
    os_mkdir ntb;;
    (if model then emit [model_clear] else mret tt);;
    emit [new_model; model_load mp];;
    Ce.retrain data_size ntb cel (Ce.shuffled swap) "_m_";;
    emit [model_clear].

Lemma losses_fresh_after_mkdir (folder : string) (fs : gset string) :
  bool_decide (folder +:+ "/losses.hdf5" ∉ {[folder]} ∪ fs) =
  bool_decide (folder +:+ "/losses.hdf5" ∉ fs).
Proof.
  apply bool_decide_ext. rewrite not_elem_of_union, not_elem_of_singleton.
  split; [by intros [_ ?]|]. intros ?. split; [by apply string_app_neq|done].
Qed.

Lemma Ce_iteration_both_exist w :
  tb ∈ files w -> ntb ∈ files w ->
  Ce.model_iteration data_size swap i p w =
  (Ok tt,
   {| files := files w;
      trace := trace w
               ++ [random_shuffle (Ce.shuffled swap); ModelData mp;
                   path_exists tb true; print_skipping "cel_tbranch_retrain" p;
                   path_exists ntb true;
                   print_skipping "cel_nontbranch_retrain" p] |}).
Proof.
  intros Htb Hntb. unfold Ce.model_iteration. fold mp tb ntb cel.
  do 3 run_step. rewrite bool_decide_eq_true_2 by done.
  rewrite bind_run. run_step. rewrite ret_run. cbn beta iota. run_step.
  rewrite bool_decide_eq_true_2 by done.
  rewrite emit_run. cbn [files trace]. by rewrite <- !app_assoc.
Qed.

Lemma Ce_iteration_tbranch_exists w :
  tb ∈ files w -> ntb ∉ files w ->
  let fresh := bool_decide (ntb +:+ "/losses.hdf5" ∉ files w) in
  Ce.model_iteration data_size swap i p w =
  (if fresh then Ok tt else Raise FileExistsError,
   {| files := if fresh then {[ntb +:+ "/losses.hdf5"]} ∪ ({[ntb]} ∪ files w)
               else {[ntb]} ∪ files w;
      trace := trace w
               ++ [random_shuffle (Ce.shuffled swap); ModelData mp;
                   path_exists tb true; print_skipping "cel_tbranch_retrain" p;
                   path_exists ntb false; mkdir ntb;
                   new_model; model_load mp; get_filtered_train "_m_"]
               ++ events (run "_m_") ++ finalize_events ntb (run "_m_") fresh
               ++ (if fresh then [model_clear] else []) |}).
Proof.
  intros Htb Hntb fresh. unfold Ce.model_iteration. fold mp tb ntb cel.
  do 3 run_step. rewrite bool_decide_eq_true_2 by done.
  rewrite bind_run. run_step. rewrite ret_run. cbn beta iota. run_step.
  rewrite bool_decide_eq_false_2 by done. run_step.
  rewrite bind_run, ret_run. cbn beta iota. run_step.
  rewrite bind_run, Ce_retrain_spec. cbn [files trace]. fold d1 d2 (run "_m_").
  rewrite losses_fresh_after_mkdir. fold fresh. destruct fresh.
  - rewrite emit_run. cbn [files trace]. by rewrite <- !app_assoc.
  - by rewrite <- !app_assoc, !app_nil_r.
Qed.

Lemma Ce_iteration_nontbranch_exists w :
  tb ∉ files w -> ntb ∈ files w ->
  let fresh := bool_decide (tb +:+ "/losses.hdf5" ∉ files w) in
  Ce.model_iteration data_size swap i p w =
  (if fresh then Ok tt else Raise FileExistsError,
   {| files := if fresh then {[tb +:+ "/losses.hdf5"]} ∪ ({[tb]} ∪ files w)
               else {[tb]} ∪ files w;
      trace := trace w
               ++ [random_shuffle (Ce.shuffled swap); ModelData mp;
                   path_exists tb false; mkdir tb;
                   new_model; model_load mp; get_filtered_train "_t_"]
               ++ events (run "_t_") ++ finalize_events tb (run "_t_") fresh
               ++ (if fresh then [path_exists ntb true;
                                  print_skipping "cel_nontbranch_retrain" p]
                   else []) |}).
Proof.
  intros Htb Hntb fresh. unfold Ce.model_iteration. fold mp tb ntb cel.
  do 3 run_step. rewrite bool_decide_eq_false_2 by done.
  rewrite bind_run. do 2 run_step.
  rewrite bind_run, Ce_retrain_spec. cbn [files trace]. fold d1 d2 (run "_t_").
  rewrite losses_fresh_after_mkdir. fold fresh. destruct fresh.
  - cbn beta iota. rewrite ret_run. cbn beta iota.
    run_step. rewrite bool_decide_eq_true_2 by set_solver.
    rewrite emit_run. cbn [files trace]. by rewrite <- !app_assoc.
  - by rewrite <- !app_assoc, !app_nil_r.
Qed.

Lemma grows_nontbranch_part model : grows (nontbranch_part model).
Proof. unfold nontbranch_part, os_mkdir. auto 20 with grows. Qed.

Lemma nontbranch_part_Ok model w :
  (nontbranch_part model w).1 = Ok tt -> ntb ∈ files (nontbranch_part model w).2.
Proof.
  intros _. unfold nontbranch_part. run_step. case_bool_decide as Hntb.
  - by rewrite emit_run.
  - run_step. apply grows_elem; [|cbn [files]; set_solver].
    auto 20 with grows.
Qed.

Lemma Ce_iteration_Ok_folders w :
  (Ce.model_iteration data_size swap i p w).1 = Ok tt ->
  tb ∈ files (Ce.model_iteration data_size swap i p w).2
  ∧ ntb ∈ files (Ce.model_iteration data_size swap i p w).2.
Proof.
  unfold Ce.model_iteration. fold mp tb ntb cel. fold (nontbranch_part).
  do 3 run_step. rewrite bind_run. case_bool_decide as Htb.
  - run_step. rewrite ret_run. cbn beta iota. intros HOk. split.
    + apply grows_elem; [apply grows_nontbranch_part|done].
    + by apply nontbranch_part_Ok.
  - do 2 run_step. rewrite bind_run, Ce_retrain_spec. cbn [files trace].
    case_bool_decide; [|done]. cbn beta iota. rewrite ret_run. cbn beta iota.
    intros HOk. split.
    + apply grows_elem; [apply grows_nontbranch_part|cbn [files]; set_solver].
    + by apply nontbranch_part_Ok.
Qed.

End CeIteration.


(** *** The loop over the model directories *)

Lemma for_enumerate_cons body i p paths w :
  for_enumerate body i (p :: paths) w =
  match body i p w with
  | (Ok _, w') => for_enumerate body (S i) paths w'
  | (Raise e, w') => (Raise e, w')
  end.
Proof. reflexivity. Qed.

Lemma grows_for_enumerate body paths :
  (forall i p, grows (body i p)) -> forall i, grows (for_enumerate body i paths).
Proof.
  intros Hbody. induction paths as [|p paths IH]; intros i; cbn [for_enumerate];
    auto with grows.
Qed.

(** A pass over model directories in a world whose paths satisfy [P], when
    under [P] every body only adds the events [skip i p]. *)
Lemma for_enumerate_skips body (skip : nat -> string -> list event)
    (P : gset string -> Prop) paths :
  (forall i w p, p ∈ paths -> P (files w) ->
     body i p w = (Ok tt, {| files := files w; trace := trace w ++ skip i p |})) ->
  forall i w, P (files w) ->
  for_enumerate body i paths w =
  (Ok tt,
   {| files := files w;
      trace := trace w
               ++ flat_map (fun ip => skip ip.1 ip.2) (enumerate_from i paths) |}).
Proof.
  induction paths as [|p paths IH]; intros Hbody i w HP.
  - cbn. destruct w. by rewrite app_nil_r.
  - rewrite for_enumerate_cons, Hbody by (done || apply list_elem_of_here).
    rewrite IH; [|intros; apply Hbody; by try apply list_elem_of_further|done].
    cbn [files trace flat_map enumerate_from fst snd]. by rewrite <- app_assoc.
Qed.

(** After a pass that returned, the folder that every returning body leaves
    behind is there for each model. *)
Lemma for_enumerate_Ok_folder body (folder : string -> string) paths :
  (forall i p, grows (body i p)) ->
  (forall i p w, (body i p w).1 = Ok tt -> folder p ∈ files (body i p w).2) ->
  forall i w w1,
  for_enumerate body i paths w = (Ok tt, w1) ->
  forall p, p ∈ paths -> folder p ∈ files w1.
Proof.
  intros Hgrows Hbody. induction paths as [|p paths IH]; intros i w w1 Hrun q Hq.
  - by apply elem_of_nil in Hq.
  - rewrite for_enumerate_cons in Hrun.
    pose proof (Hbody i p w) as Hp.
    destruct (body i p w) as [[[]|e] w'] eqn:E; [|done].
    apply elem_of_cons in Hq as [->|Hq].
    + pose proof (grows_for_enumerate body paths Hgrows (S i) w') as Hsub.
      rewrite Hrun in Hsub. cbn in Hsub, Hp. specialize (Hp eq_refl). set_solver.
    + by apply (IH (S i) w' w1).
Qed.

Lemma training_steps_flat_map {A} (skip : A -> list event) (l : list A) :
  (forall a, training_steps (skip a) = 0%nat) ->
  training_steps (flat_map skip l) = 0%nat.
Proof.
  intros Hskip. induction l as [|a l IH]; [done|].
  cbn [flat_map]. by rewrite training_steps_app, Hskip, IH.
Qed.

Lemma Zf_main_all_exist data_size paths w :
  (forall p, p ∈ paths -> Zf.mpath p +:+ "/fl_retrain" ∈ files w) ->
  Zf.main data_size paths w =
  (Ok tt,
   {| files := files w;
      trace := trace w
               ++ flat_map (fun ip => Zf_skip_events ip.2) (enumerate_from 0 paths) |}).
Proof.
  intros Hall. unfold Zf.main.
  apply (for_enumerate_skips _ (fun _ p => Zf_skip_events p)
           (fun fs => forall p, p ∈ paths -> Zf.mpath p +:+ "/fl_retrain" ∈ fs));
    [|done].
  intros i w' p Hp Hfs. apply Zf_iteration_fl_exists. by apply Hfs.
Qed.

Lemma Zf_main_Ok_folders data_size paths w w1 :
  Zf.main data_size paths w = (Ok tt, w1) ->
  forall p, p ∈ paths -> Zf.mpath p +:+ "/fl_retrain" ∈ files w1.
Proof.
  unfold Zf.main.
  apply (for_enumerate_Ok_folder _ (fun p => Zf.mpath p +:+ "/fl_retrain")).
  - apply grows_Zf_iteration.
  - apply Zf_iteration_Ok_fl.
Qed.

Lemma Ce_main_all_exist data_size swaps paths w :
  (forall p, p ∈ paths ->
     Ce.mpath p +:+ "/cel_tbranch_retrain" ∈ files w
     ∧ Ce.mpath p +:+ "/cel_nontbranch_retrain" ∈ files w) ->
  Ce.main data_size swaps paths w =
  (Ok tt,
   {| files := files w;
      trace := trace w
               ++ flat_map (fun ip => Ce_skip_events (swaps ip.1) ip.2)
                    (enumerate_from 0 paths) |}).
Proof.
  intros Hall. unfold Ce.main.
  apply (for_enumerate_skips _ (fun i p => Ce_skip_events (swaps i) p)
           (fun fs => forall p, p ∈ paths ->
              Ce.mpath p +:+ "/cel_tbranch_retrain" ∈ fs
              ∧ Ce.mpath p +:+ "/cel_nontbranch_retrain" ∈ fs));
    [|done].
  intros i w' p Hp Hfs. destruct (Hfs p Hp). by apply Ce_iteration_both_exist.
Qed.

Lemma Ce_main_Ok_folders data_size swaps paths w w1 :
  Ce.main data_size swaps paths w = (Ok tt, w1) ->
  forall p, p ∈ paths ->
    Ce.mpath p +:+ "/cel_tbranch_retrain" ∈ files w1
    ∧ Ce.mpath p +:+ "/cel_nontbranch_retrain" ∈ files w1.
Proof.
  intros Hrun p Hp. unfold Ce.main in Hrun. split.
  - revert Hrun p Hp.
    apply (for_enumerate_Ok_folder _ (fun p => Ce.mpath p +:+ "/cel_tbranch_retrain")).
    + intros; apply grows_Ce_iteration.
    + intros i q w' H. by apply Ce_iteration_Ok_folders.
  - revert Hrun p Hp.
    apply (for_enumerate_Ok_folder _ (fun p => Ce.mpath p +:+ "/cel_nontbranch_retrain")).
    + intros; apply grows_Ce_iteration.
    + intros i q w' H. by apply Ce_iteration_Ok_folders.
Qed.


(** *** Conditions whose folder exists *)

Lemma training_steps_of_phase_same d f dl start n :
  training_steps_of f dl (phase_events d f dl start n) = n.
Proof.
  unfold phase_events. revert start.
  induction n as [|n IH]; intros start; [done|].
  cbn [seq flat_map]. rewrite training_steps_of_app, IH.
  unfold step_events, training_steps_of.
  destruct (decide (start mod EVAL_TEST_EVERY = 0)%nat);
    cbn -[Nat.modulo]; by rewrite !bool_decide_eq_true_2.
Qed.

Lemma training_steps_of_loops_same size_1 size_2 d1 d2 f dl :
  training_steps_of f dl (events (retrain_loops size_1 size_2 d1 d2 f dl)) =
  (size_1 / BATCHSIZE + size_2 / BATCHSIZE)%nat.
Proof.
  rewrite retrain_loops_spec. cbn [events].
  by rewrite training_steps_of_app, !training_steps_of_phase_same.
Qed.

Lemma fish_like_unlike i :
  create_det_drop_list i Zf.fish_like ≠ create_det_drop_list i Zf.fish_unlike.
Proof. by intros [=]. Qed.

Section Conditions.

Context (data_size : dataset -> nat) (swap : bool) (i : nat) (p : string).

Let zf := Zf.model_iteration data_size i p.
Let ce := Ce.model_iteration data_size swap i p.
Let fl := Zf.mpath p +:+ "/fl_retrain".
Let nfl := Zf.mpath p +:+ "/nfl_retrain".
Let tb := Ce.mpath p +:+ "/cel_tbranch_retrain".
Let ntb := Ce.mpath p +:+ "/cel_nontbranch_retrain".
Let unlike := create_det_drop_list i Zf.fish_unlike.
Let cel := create_det_drop_list i Ce.ce_like.

Lemma Zf_fl_exists_new_events w :
  fl ∈ files w -> new_events zf w = Zf_skip_events p.
Proof.
  intros Hfl. apply new_events_intro. unfold zf.
  by rewrite Zf_iteration_fl_exists.
Qed.

Lemma Zf_unlike_not_trained w :
  nfl ∈ files w -> training_steps_of m_train unlike (new_events zf w) = 0%nat.
Proof.
  intros Hnfl. destruct (decide (fl ∈ files w)) as [Hfl|Hfl].
  - by rewrite Zf_fl_exists_new_events.
  - unfold zf. erewrite new_events_intro
      by (rewrite Zf_iteration_nfl_exists by done; reflexivity).
    rewrite !training_steps_of_app, training_steps_of_finalize.
    rewrite training_steps_of_loops_other
      by (intros [= H]; by apply (fish_like_unlike i); f_equal).
    by case_bool_decide.
Qed.

Lemma Zf_nfl_exists_Ok w :
  nfl ∈ files w -> (fl ∉ files w -> fl +:+ "/losses.hdf5" ∉ files w) ->
  (zf w).1 = Ok tt.
Proof.
  intros Hnfl Hwf. unfold zf. destruct (decide (fl ∈ files w)) as [Hfl|Hfl].
  - by rewrite Zf_iteration_fl_exists.
  - rewrite Zf_iteration_nfl_exists by done. cbn [fst].
    by rewrite bool_decide_eq_true_2 by auto.
Qed.

Lemma Ce_tbranch_not_trained w :
  tb ∈ files w ->
  training_steps_of (filtered_train "_t_") cel (new_events ce w) = 0%nat.
Proof.
  intros Htb. unfold ce. destruct (decide (ntb ∈ files w)) as [Hntb|Hntb].
  - erewrite new_events_intro
      by (rewrite Ce_iteration_both_exist by done; reflexivity). done.
  - erewrite new_events_intro
      by (rewrite Ce_iteration_tbranch_exists by done; reflexivity).
    rewrite !training_steps_of_app, training_steps_of_finalize.
    rewrite training_steps_of_loops_other by (intros [= H]).
    by case_bool_decide.
Qed.

Lemma Ce_tbranch_exists_Ok w :
  tb ∈ files w -> (ntb ∉ files w -> ntb +:+ "/losses.hdf5" ∉ files w) ->
  (ce w).1 = Ok tt.
Proof.
  intros Htb Hwf. unfold ce. destruct (decide (ntb ∈ files w)) as [Hntb|Hntb].
  - by rewrite Ce_iteration_both_exist.
  - rewrite Ce_iteration_tbranch_exists by done. cbn [fst].
    by rewrite bool_decide_eq_true_2 by auto.
Qed.

Lemma Ce_nontbranch_not_trained w :
  ntb ∈ files w ->
  training_steps_of (filtered_train "_m_") cel (new_events ce w) = 0%nat.
Proof.
  intros Hntb. unfold ce. destruct (decide (tb ∈ files w)) as [Htb|Htb].
  - erewrite new_events_intro
      by (rewrite Ce_iteration_both_exist by done; reflexivity). done.
  - erewrite new_events_intro
      by (rewrite Ce_iteration_nontbranch_exists by done; reflexivity).
    rewrite !training_steps_of_app, training_steps_of_finalize.
    rewrite training_steps_of_loops_other by (intros [= H]).
    by case_bool_decide.
Qed.

Lemma Ce_nontbranch_exists_Ok w :
  ntb ∈ files w -> (tb ∉ files w -> tb +:+ "/losses.hdf5" ∉ files w) ->
  (ce w).1 = Ok tt.
Proof.
  intros Hntb Hwf. unfold ce. destruct (decide (tb ∈ files w)) as [Htb|Htb].
  - by rewrite Ce_iteration_both_exist.
  - rewrite Ce_iteration_nontbranch_exists by done. cbn [fst].
    by rewrite bool_decide_eq_true_2 by auto.
Qed.

End Conditions.


Lemma training_steps_Zf_skips paths :
  training_steps (flat_map (fun ip : nat * string => Zf_skip_events ip.2)
                    (enumerate_from 0 paths)) = 0%nat.
Proof. by apply training_steps_flat_map. Qed.

Lemma training_steps_Ce_skips swaps paths :
  training_steps (flat_map (fun ip : nat * string => Ce_skip_events (swaps ip.1) ip.2)
                    (enumerate_from 0 paths)) = 0%nat.
Proof. by apply training_steps_flat_map. Qed.

(** C7: a condition whose output folder exists is skipped: the driver makes
    no training step of that condition and the skip raises nothing (the body
    returns, given that a folder that is absent holds no error file), so the
    loop goes on with the next model; and a second run of a whole driver after
    a first run that returned makes no training step, creates nothing and
    returns. *)
Theorem C7_existing_output_folder_is_skipped (data_size : dataset -> nat)
    (swap : bool) (i : nat) (p : string) (w : world)
    (paths : list string) (swaps swaps' : nat -> bool) (w1 : world) :
  let zf := Zf.model_iteration data_size i p in
  let ce := Ce.model_iteration data_size swap i p in
  let fl := Zf.mpath p +:+ "/fl_retrain" in
  let nfl := Zf.mpath p +:+ "/nfl_retrain" in
  let tb := Ce.mpath p +:+ "/cel_tbranch_retrain" in
  let ntb := Ce.mpath p +:+ "/cel_nontbranch_retrain" in
  let unlike := create_det_drop_list i Zf.fish_unlike in
  let cel := create_det_drop_list i Ce.ce_like in
  (* zebrafish, fish-like ablation *)
  (fl ∈ files w ->
     zf w = (Ok tt, {| files := files w; trace := trace w ++ Zf_skip_events p |})
     ∧ training_steps (new_events zf w) = 0%nat)
  (* zebrafish, fish-unlike ablation *)
  ∧ (nfl ∈ files w ->
     training_steps_of m_train unlike (new_events zf w) = 0%nat
     ∧ ((fl ∉ files w -> fl +:+ "/losses.hdf5" ∉ files w) -> (zf w).1 = Ok tt))
  (* C. elegans, temperature branch *)
  ∧ (tb ∈ files w ->
     training_steps_of (filtered_train "_t_") cel (new_events ce w) = 0%nat
     ∧ ((ntb ∉ files w -> ntb +:+ "/losses.hdf5" ∉ files w) -> (ce w).1 = Ok tt))
  (* C. elegans, shared branch *)
  ∧ (ntb ∈ files w ->
     training_steps_of (filtered_train "_m_") cel (new_events ce w) = 0%nat
     ∧ ((tb ∉ files w -> tb +:+ "/losses.hdf5" ∉ files w) -> (ce w).1 = Ok tt))
  (* the loop goes on with the next model *)
  ∧ (forall rest w',
       zf w = (Ok tt, w') ->
       for_enumerate (Zf.model_iteration data_size) i (p :: rest) w =
       for_enumerate (Zf.model_iteration data_size) (S i) rest w')
  ∧ (forall rest w',
       Ce.model_iteration data_size (swaps i) i p w = (Ok tt, w') ->
       for_enumerate (fun i p => Ce.model_iteration data_size (swaps i) i p)
         i (p :: rest) w =
       for_enumerate (fun i p => Ce.model_iteration data_size (swaps i) i p)
         (S i) rest w')
  (* a second run of the whole driver *)
  ∧ (Zf.main data_size paths w = (Ok tt, w1) ->
     Zf.main data_size paths w1 =
       (Ok tt,
        {| files := files w1;
           trace := trace w1
                    ++ flat_map (fun ip => Zf_skip_events ip.2)
                         (enumerate_from 0 paths) |})
     ∧ training_steps (new_events (Zf.main data_size paths) w1) = 0%nat)
  ∧ (Ce.main data_size swaps paths w = (Ok tt, w1) ->
     Ce.main data_size swaps' paths w1 =
       (Ok tt,
        {| files := files w1;
           trace := trace w1
                    ++ flat_map (fun ip => Ce_skip_events (swaps' ip.1) ip.2)
                         (enumerate_from 0 paths) |})
     ∧ training_steps (new_events (Ce.main data_size swaps' paths) w1) = 0%nat).
Proof.
  intros zf ce fl nfl tb ntb unlike cel. repeat apply conj.
  - intros Hfl. split; [by apply Zf_iteration_fl_exists|].
    unfold zf. by rewrite Zf_fl_exists_new_events.
  - intros Hnfl. split; [by apply Zf_unlike_not_trained|by apply Zf_nfl_exists_Ok].
  - intros Htb. split; [by apply Ce_tbranch_not_trained|by apply Ce_tbranch_exists_Ok].
  - intros Hntb.
    split; [by apply Ce_nontbranch_not_trained|by apply Ce_nontbranch_exists_Ok].
  - intros rest w' Hzf. rewrite for_enumerate_cons. fold zf. by rewrite Hzf.
  - intros rest w' Hce. rewrite for_enumerate_cons. by rewrite Hce.
  - intros Hrun.
    assert (Zf.main data_size paths w1 =
      (Ok tt,
       {| files := files w1;
          trace := trace w1
                   ++ flat_map (fun ip => Zf_skip_events ip.2)
                        (enumerate_from 0 paths) |})) as Hsecond.
    { apply Zf_main_all_exist. by apply (Zf_main_Ok_folders data_size paths w). }
    split; [done|].
    erewrite new_events_intro by (rewrite Hsecond; reflexivity).
    apply training_steps_Zf_skips.
  - intros Hrun.
    assert (Ce.main data_size swaps' paths w1 =
      (Ok tt,
       {| files := files w1;
          trace := trace w1
                   ++ flat_map (fun ip => Ce_skip_events (swaps' ip.1) ip.2)
                        (enumerate_from 0 paths) |})) as Hsecond.
    { apply Ce_main_all_exist. by apply (Ce_main_Ok_folders data_size swaps paths w). }
    split; [done|].
    erewrite new_events_intro by (rewrite Hsecond; reflexivity).
    apply training_steps_Ce_skips.
Qed.

Lemma C7_existing_output_folder_is_skipped_witness :
  let paths := ["a_3m512_0/"; "b_3m512_1/"] in
  let zf_first := Zf.main (sizes 64 32) paths empty_world in
  let ce_first := Ce.main (sizes 64 32) Nat.even paths empty_world in
  (zf_first.1 = Ok tt
   ∧ training_steps zf_first.2.(trace) = 12%nat
   ∧ (Zf.main (sizes 64 32) paths zf_first.2).1 = Ok tt
   ∧ training_steps (new_events (Zf.main (sizes 64 32) paths) zf_first.2) = 0%nat)
  ∧ (ce_first.1 = Ok tt
     ∧ training_steps ce_first.2.(trace) = 12%nat
     ∧ (Ce.main (sizes 64 32) Nat.odd paths ce_first.2).1 = Ok tt
     ∧ training_steps
         (new_events (Ce.main (sizes 64 32) Nat.odd paths) ce_first.2) = 0%nat).
Proof.
  intros paths zf_first ce_first.
  assert (Zf.main (sizes 64 32) paths empty_world = (Ok tt, zf_first.2)) as Hzf_first
    by (vm_compute; reflexivity).
  assert (Ce.main (sizes 64 32) Nat.even paths empty_world = (Ok tt, ce_first.2))
    as Hce_first by (vm_compute; reflexivity).
  pose proof (C7_existing_output_folder_is_skipped (sizes 64 32) false 0 "a_3m512_0/"
                empty_world paths Nat.even Nat.odd zf_first.2)
    as (_ & _ & _ & _ & _ & _ & Hzf & _).
  pose proof (C7_existing_output_folder_is_skipped (sizes 64 32) false 0 "a_3m512_0/"
                empty_world paths Nat.even Nat.odd ce_first.2)
    as (_ & _ & _ & _ & _ & _ & _ & Hce).
  destruct (Hzf Hzf_first) as [Hzf_second Hzf_steps].
  destruct (Hce Hce_first) as [Hce_second Hce_steps].
  split.
  - split; [by vm_compute|]. split; [by vm_compute|].
    split; [by rewrite Hzf_second|exact Hzf_steps].
  - split; [by vm_compute|]. split; [by vm_compute|].
    split; [by rewrite Hce_second|exact Hce_steps].
Defined.

(** C8: in the zebrafish driver an existing fl_retrain folder ends the
    iteration of that model: nothing is trained, the nfl_retrain folder is not
    checked and, when it is absent, it stays absent.  In the C. elegans driver
    an existing cel_tbranch_retrain folder skips only the temperature-branch
    run: the cel_nontbranch_retrain folder is still checked and, when it is
    absent (and holds no error file), the shared-branch run is made. *)
Theorem C8_first_folder_exists (data_size : dataset -> nat) (swap : bool)
    (i : nat) (p : string) (w : world) :
  let zf := Zf.model_iteration data_size i p in
  let ce := Ce.model_iteration data_size swap i p in
  let fl := Zf.mpath p +:+ "/fl_retrain" in
  let nfl := Zf.mpath p +:+ "/nfl_retrain" in
  let tb := Ce.mpath p +:+ "/cel_tbranch_retrain" in
  let ntb := Ce.mpath p +:+ "/cel_nontbranch_retrain" in
  let cel := create_det_drop_list i Ce.ce_like in
  (fl ∈ files w ->
     zf w = (Ok tt,
             {| files := files w;
                trace := trace w ++ [ModelData (Zf.mpath p); path_exists fl true;
                                     print_skipping "fl_retrain" p] |})
     ∧ (forall b, path_exists nfl b ∉ new_events zf w)
     ∧ training_steps (new_events zf w) = 0%nat
     ∧ (nfl ∉ files w -> nfl ∉ files (zf w).2))
  ∧ (tb ∈ files w ->
     path_exists ntb (bool_decide (ntb ∈ files w)) ∈ new_events ce w
     ∧ training_steps_of (filtered_train "_t_") cel (new_events ce w) = 0%nat
     ∧ (ntb ∈ files w -> training_steps (new_events ce w) = 0%nat)
     ∧ (ntb ∉ files w -> ntb +:+ "/losses.hdf5" ∉ files w ->
        (ce w).1 = Ok tt
        ∧ ntb ∈ files (ce w).2
        ∧ training_steps_of (filtered_train "_m_") cel (new_events ce w) =
          (data_size trainingData_1 / 32 + data_size trainingData_2 / 32)%nat)).
Proof.
  intros zf ce fl nfl tb ntb cel. split.
  - intros Hfl.
    assert (new_events zf w = Zf_skip_events p) as Hnew
      by by apply Zf_fl_exists_new_events.
    split; [by apply Zf_iteration_fl_exists|]. rewrite Hnew.
    split; [|split; [done|]].
    + intros b Hin. unfold Zf_skip_events in Hin.
      apply elem_of_cons in Hin as [[=]|Hin].
      apply elem_of_cons in Hin as [[= Hpath _]|Hin].
      * by apply string_app_inj in Hpath.
      * apply elem_of_cons in Hin as [[=]|Hin]. by apply elem_of_nil in Hin.
    + unfold zf. by rewrite Zf_iteration_fl_exists.
  - intros Htb. split; [|split; [by apply Ce_tbranch_not_trained|split]].
    + unfold ce. destruct (decide (ntb ∈ files w)) as [Hntb|Hntb].
      * erewrite new_events_intro
          by (rewrite Ce_iteration_both_exist by done; reflexivity).
        rewrite bool_decide_eq_true_2 by done. set_solver.
      * erewrite new_events_intro
          by (rewrite Ce_iteration_tbranch_exists by done; reflexivity).
        rewrite bool_decide_eq_false_2 by done. set_solver.
    + intros Hntb. unfold ce.
      erewrite new_events_intro
        by (rewrite Ce_iteration_both_exist by done; reflexivity). done.
    + intros Hntb Hlosses. unfold ce.
      erewrite new_events_intro
        by (rewrite Ce_iteration_tbranch_exists by done; reflexivity).
      rewrite Ce_iteration_tbranch_exists by done. cbn [fst snd files].
      rewrite bool_decide_eq_true_2 by done.
      split; [done|]. split; [set_solver|].
      rewrite !training_steps_of_app, training_steps_of_finalize,
        training_steps_of_loops_same.
      change (training_steps_of (filtered_train "_m_") cel [model_clear]) with 0%nat.
      match goal with
      | |- context [training_steps_of ?f ?dl (?e :: ?es)] =>
          change (training_steps_of f dl (e :: es)) with 0%nat
      end.
      unfold BATCHSIZE. destruct swap; lia.
Qed.

Lemma C8_first_folder_exists_witness :
  let p := "a_3m512_0/" in
  let w_zf := {| files := {[Zf.mpath p +:+ "/fl_retrain"]}; trace := [] |} in
  let w_ce := {| files := {[Ce.mpath p +:+ "/cel_tbranch_retrain"]}; trace := [] |} in
  let zf := Zf.model_iteration (sizes 64 32) 0 p in
  let ce := Ce.model_iteration (sizes 64 32) true 0 p in
  ((Zf.mpath p +:+ "/nfl_retrain" ∉ files w_zf)
   ∧ training_steps (new_events zf w_zf) = 0%nat
   ∧ (Zf.mpath p +:+ "/nfl_retrain" ∉ files (zf w_zf).2))
  ∧ ((Ce.mpath p +:+ "/cel_nontbranch_retrain" ∉ files w_ce)
     ∧ (ce w_ce).1 = Ok tt
     ∧ Ce.mpath p +:+ "/cel_nontbranch_retrain" ∈ files (ce w_ce).2
     ∧ training_steps_of (filtered_train "_m_") (create_det_drop_list 0 Ce.ce_like)
         (new_events ce w_ce) = 3%nat).
Proof.
  intros p w_zf w_ce zf ce.
  assert (Zf.mpath p +:+ "/fl_retrain" ∈ files w_zf) as Hfl
    by (cbn [files w_zf]; set_solver).
  assert (Zf.mpath p +:+ "/nfl_retrain" ∉ files w_zf) as Hnfl
    by (cbn [files w_zf]; apply not_elem_of_singleton; by intros ?%string_app_inj).
  assert (Ce.mpath p +:+ "/cel_tbranch_retrain" ∈ files w_ce) as Htb
    by (cbn [files w_ce]; set_solver).
  assert (Ce.mpath p +:+ "/cel_nontbranch_retrain" ∉ files w_ce) as Hntb
    by (cbn [files w_ce]; apply not_elem_of_singleton; by intros ?%string_app_inj).
  assert ((Ce.mpath p +:+ "/cel_nontbranch_retrain") +:+ "/losses.hdf5" ∉ files w_ce)
    as Hlosses
    by (cbn [files w_ce]; apply not_elem_of_singleton; intros H; by vm_compute in H).
  destruct (C8_first_folder_exists (sizes 64 32) true 0 p w_zf) as [Hzf _].
  destruct (C8_first_folder_exists (sizes 64 32) true 0 p w_ce) as [_ Hce].
  destruct (Hzf Hfl) as (_ & _ & Hsteps & Hstays).
  destruct (Hce Htb) as (_ & _ & _ & Hruns).
  destruct (Hruns Hntb Hlosses) as (HOk & Hin & Hm).
  split.
  - split; [exact Hnfl|]. split; [exact Hsteps|exact (Hstays Hnfl)].
  - split; [exact Hntb|]. split; [exact HOk|]. split; [exact Hin|exact Hm].
Defined.

(** ** [feed_det_remove] *)

Lemma feed_det_remove_three feed_dict (v0 v1 v2 : mIM.ndarray) :
  mIM.feed_det_remove feed_dict (Some [v0; v1; v2]) =
  Ok (<[mIM.det_remove 2 := v2]>
        (<[mIM.det_remove 1 := v1]> (<[mIM.det_remove 0 := v0]> feed_dict))).
Proof. reflexivity. Qed.

Lemma feed_det_remove_wrong_length feed_dict (values : list mIM.ndarray) :
  length values ≠ 3%nat ->
  mIM.feed_det_remove feed_dict (Some values) = Raise ValueError.
Proof.
  intros Hlen. unfold mIM.feed_det_remove.
  by rewrite decide_True by exact Hlen.
Qed.

(** C10: with [values] given, [feed_det_remove] raises (a [ValueError]) iff
    [len(values)] differs from the number of hidden layers, 3; with three
    values, whatever they are (of any rank, length and entries), it returns
    the feed dictionary in which [det_remove[i]] is bound to [values[i]] as
    given and every other key is as before. *)
Theorem C10_feed_det_remove (feed_dict : gmap mIM.placeholder mIM.ndarray)
    (values : list mIM.ndarray) (v0 v1 v2 : mIM.ndarray) :
  mIM.N_HIDDEN = 3%nat
  ∧ (mIM.feed_det_remove feed_dict (Some values) = Raise ValueError
     <-> length values ≠ 3%nat)
  ∧ ((exists e, mIM.feed_det_remove feed_dict (Some values) = Raise e)
     <-> length values ≠ 3%nat)
  ∧ (let fed := <[mIM.det_remove 2 := v2]>
                  (<[mIM.det_remove 1 := v1]>
                     (<[mIM.det_remove 0 := v0]> feed_dict)) in
     mIM.feed_det_remove feed_dict (Some [v0; v1; v2]) = Ok fed
     ∧ fed !! mIM.det_remove 0 = Some v0
     ∧ fed !! mIM.det_remove 1 = Some v1
     ∧ fed !! mIM.det_remove 2 = Some v2
     ∧ fed !! mIM.x_in = feed_dict !! mIM.x_in
     ∧ fed !! mIM.y_ = feed_dict !! mIM.y_
     ∧ fed !! mIM.keep_prob = feed_dict !! mIM.keep_prob
     ∧ forall i, (3 <= i)%nat -> fed !! mIM.det_remove i = feed_dict !! mIM.det_remove i).
Proof.
  split; [reflexivity|].
  assert (length values = 3%nat ->
          exists fed, mIM.feed_det_remove feed_dict (Some values) = Ok fed) as Hok.
  { intros Hlen. destruct values as [|a [|b [|c [|]]]]; try discriminate.
    eexists. apply feed_det_remove_three. }
  split; [|split].
  - split; [|apply feed_det_remove_wrong_length].
    intros Hraise Hlen. destruct (Hok Hlen) as [fed Hfed]. congruence.
  - split; [|intros; eexists; by apply feed_det_remove_wrong_length].
    intros [e Hraise] Hlen. destruct (Hok Hlen) as [fed Hfed]. congruence.
  - intros fed. split; [apply feed_det_remove_three|]. unfold fed.
    repeat split; try by simplify_map_eq.
    intros i Hi. by rewrite !lookup_insert_ne by (intros [=]; lia).
Qed.

(** Three values that are no removal vectors of the layers (wrong lengths,
    a wrong rank, entries other than 0 and 1) are fed as they are. *)
Lemma C10_feed_det_remove_witness :
  let bad := [mIM.array1 [Fin (Q2Qc 7)]; mIM.array0 (Fin (Q2Qc (-1))); mIM.array1 []] in
  exists fed,
    mIM.feed_det_remove ∅ (Some bad) = Ok fed
    ∧ fed !! mIM.det_remove 0 = bad !! 0%nat
    ∧ fed !! mIM.det_remove 1 = bad !! 1%nat
    ∧ fed !! mIM.det_remove 2 = bad !! 2%nat.
Proof.
  intros bad.
  destruct (C10_feed_det_remove ∅ bad (mIM.array1 [Fin (Q2Qc 7)])
              (mIM.array0 (Fin (Q2Qc (-1)))) (mIM.array1 []))
    as (_ & _ & _ & Hfed & H0 & H1 & H2 & _).
  eexists. split; [exact Hfed|]. split; [exact H0|]. split; [exact H1|exact H2].
Defined.


(** ** The masked hidden layer *)

(** Finite values stay finite under the operations of the layer. *)

Lemma lift_zip_with (g : fval -> fval -> fval) (h : Qc -> Qc -> Qc) a b :
  (forall p q, g (Fin p) (Fin q) = Fin (h p q)) ->
  zip_with g (lift a) (lift b) = lift (zip_with h a b).
Proof.
  intros Hgh. unfold lift. revert b.
  induction a as [|p a IH]; intros [|q b]; cbn; [done..|].
  by rewrite Hgh, IH.
Qed.

Lemma reduce_sum_lift l : tf_reduce_sum (lift l) = Fin (sumQ l).
Proof.
  unfold tf_reduce_sum, lift. induction l as [|q l IH]; cbn; [done|].
  by rewrite IH.
Qed.

Lemma dot_lift x y : dot (lift x) (lift y) = Fin (sumQ (zip_with Qcmult x y)).
Proof.
  unfold dot. by rewrite (lift_zip_with fmul Qcmult), reduce_sum_lift.
Qed.

Lemma column_lift j W : column j (lift2 W) = lift (columnQ j W).
Proof.
  unfold column, columnQ, lift2, lift. rewrite <- !list_fmap_compose.
  apply list_fmap_ext. intros _ row _. cbn.
  rewrite list_lookup_fmap. by destruct (row !! j).
Qed.

Lemma relu_Fin q : relu (Fin q) = Fin (reluQ q).
Proof. unfold relu, reluQ. by destruct (decide (q < 0)). Qed.

Lemma fdiv_Fin p q : q ≠ 0 -> fdiv (Fin p) (Fin q) = Fin (p / q).
Proof. intros Hq. unfold fdiv. by rewrite decide_False. Qed.

(** The masked pre-activation [(prev_out·w + b) ⊙ v] on finite inputs. *)
Lemma masked_pre_activation_lift n X W b v :
  mul_rows (add_rows (tf_matmul n (lift2 X) (lift2 W)) (lift b)) (lift v) =
  (fun x => lift (zip_with Qcmult (pre_activation n x W b) v)) <$> X.
Proof.
  unfold mul_rows, add_rows, tf_matmul, lift2.
  rewrite <- !list_fmap_compose. apply list_fmap_ext. intros _ x _. cbn.
  unfold pre_activation.
  assert ((fun j => dot (lift x) (column j (lift <$> W))) <$> seq 0 n
          = lift ((fun j => sumQ (zip_with Qcmult x (columnQ j W))) <$> seq 0 n))
    as ->.
  { unfold lift at 3. rewrite <- list_fmap_compose. apply list_fmap_ext.
    intros _ j _. cbn. fold (lift2 W). by rewrite column_lift, dot_lift. }
  by rewrite (lift_zip_with fadd Qcplus), (lift_zip_with fmul Qcmult).
Qed.

(** Arithmetic of the rescaled mask. *)

Lemma Qc_of_nat_nonneg n : 0 <= Qc_of_nat n.
Proof.
  unfold Qc_of_nat, Qc_of_Z, Qcle.
  change (0%Q <= Qred (inject_Z (Z.of_nat n)))%Q. rewrite Qred_correct.
  unfold Qle. cbn. lia.
Qed.

Lemma Qc_of_nat_pos n : (0 < n)%nat -> 0 < Qc_of_nat n.
Proof.
  intros Hn. unfold Qc_of_nat, Qc_of_Z, Qclt.
  change (0%Q < Qred (inject_Z (Z.of_nat n)))%Q. rewrite Qred_correct.
  unfold Qlt. cbn. lia.
Qed.

Lemma Qcdiv_nonneg a s : 0 <= a -> 0 < s -> 0 <= a / s.
Proof.
  intros Ha Hs. apply (Qcmult_lt_0_le_reg_r _ _ s Hs).
  rewrite Qcmult_0_l, (Qcmult_comm (a / s)), Qcmult_div_r; [done|].
  intros ->. by apply (Qclt_not_eq 0 0).
Qed.

Lemma sumQ_mask_nonneg v : is_mask v -> 0 <= sumQ v.
Proof.
  induction 1 as [|m v Hm Hv IH]; cbn [sumQ foldr]; [done|].
  rewrite <- (Qcplus_0_l 0). apply Qcplus_le_compat; [|done].
  by destruct Hm as [->| ->].
Qed.

Lemma sumQ_mask_zero v : is_mask v -> sumQ v = 0 -> v = replicate (length v) 0.
Proof.
  induction 1 as [|m v Hm Hv IH]; cbn [sumQ foldr length replicate]; [done|].
  intros Hsum. fold (sumQ v) in Hsum.
  pose proof (sumQ_mask_nonneg v Hv) as Hnn.
  destruct Hm as [->| ->].
  - rewrite Qcplus_0_l in Hsum. by rewrite <- IH.
  - exfalso. apply (Qclt_not_le 0 (1 + sumQ v)); [|by rewrite Hsum].
    apply (Qclt_le_trans _ (1 + 0)); [done|]. by apply Qcplus_le_compat.
Qed.

Lemma pre_activation_length n x W b :
  length b = n -> length (pre_activation n x W b) = n.
Proof.
  intros Hb. unfold pre_activation.
  rewrite length_zip_with, length_fmap, length_seq. lia.
Qed.

(** *** The masked layer in float32 *)

Lemma Qclt_irrefl (x : Qc) : ¬ x < x.
Proof. intros H. by apply (Qclt_not_eq x x). Qed.

Lemma Qc_of_Z_plus a b : Qc_of_Z (a + b) = Qc_of_Z a + Qc_of_Z b.
Proof.
  unfold Qc_of_Z. apply Qc_is_canon. unfold Qcplus, Q2Qc. cbn [this].
  rewrite !Qred_correct, inject_Z_plus. reflexivity.
Qed.

Lemma Qc_of_nat_S n : Qc_of_nat (S n) = 1 + Qc_of_nat n.
Proof.
  unfold Qc_of_nat. rewrite Nat2Z.inj_succ, <- Z.add_1_l, Qc_of_Z_plus.
  f_equal.
Qed.

Lemma Qc_of_Z_le a b : (a <= b)%Z <-> Qc_of_Z a <= Qc_of_Z b.
Proof.
  unfold Qc_of_Z, Qcle. cbn [this Q2Qc]. rewrite !Qred_correct.
  unfold Qle. cbn. lia.
Qed.

(** Goals of ordered-field arithmetic on [Qc], read on the underlying
    fractions. *)
Ltac Qc_nra :=
  unfold Qcle, Qclt in *; cbn [this Qcplus Qcminus Qcopp Qcmult Q2Qc] in *;
  rewrite ?Qred_correct in *; nra.

Lemma eps_bounds : 0 <= F32.eps ∧ F32.eps <= 1.
Proof. split; by vm_compute. Qed.

Lemma min_normal_bounds : 0 < F32.min_normal ∧ F32.min_normal <= 1.
Proof. split; by vm_compute. Qed.

(** The sum of a 0/1 mask is the number of its ones, and float32 computes it
    exactly as long as that number is a float32. *)
Lemma sumQ_mask_count v :
  is_mask v -> exists k : nat, (k <= length v)%nat ∧ sumQ v = Qc_of_nat k.
Proof.
  induction 1 as [|m v Hm Hv (k & Hk & IH)]; [by exists 0%nat|].
  cbn [sumQ foldr length]. fold (sumQ v). rewrite IH. destruct Hm as [->| ->].
  - exists k. split; [lia|]. by rewrite Qcplus_0_l.
  - exists (S k). split; [lia|]. by rewrite Qc_of_nat_S.
Qed.

Lemma F32_reduce_sum_mask rnd v :
  F32.rounding rnd -> is_mask v -> (Z.of_nat (length v) <= 2 ^ 24)%Z ->
  F32.tf_reduce_sum rnd (lift v) = Fin (sumQ v).
Proof.
  intros Hr Hv. induction Hv as [|m v Hm Hv IH]; [done|].
  cbn [length]. intros Hlen. unfold F32.tf_reduce_sum, lift in *.
  cbn [fmap list_fmap foldr sumQ]. rewrite IH by lia. cbn [F32.add].
  fold (sumQ v). destruct (sumQ_mask_count (m :: v)) as (k & Hk & Hsum);
    [by constructor|].
  cbn [sumQ foldr] in Hsum. fold (sumQ v) in Hsum. rewrite Hsum.
  unfold Qc_of_nat. apply (F32.rnd_int rnd Hr). cbn [length] in Hk. lia.
Qed.

Lemma Qcdiv_mult_cancel a s : s ≠ 0 -> a / s * s = a.
Proof. intros Hs. by field. Qed.

(** The rescale factor of a mask that keeps at least one unit. *)
Lemma F32_scale rnd n v :
  F32.rounding rnd -> is_mask v -> length v = n -> (Z.of_nat n <= 2 ^ 24)%Z ->
  0 < sumQ v ->
  exists c : Qc,
    F32.scale rnd n (lift v) = Fin c
    ∧ rnd (Qc_of_nat n / sumQ v) = Fin c
    ∧ 1 <= c
    ∧ Qc_of_nat n / sumQ v * (1 - F32.eps) <= c
    ∧ c <= Qc_of_nat n / sumQ v * (1 + F32.eps).
Proof.
  intros Hr Hv Hlen Hn Hsum.
  assert (sumQ v ≠ 0) as Hne
    by (intros H; rewrite H in Hsum; by apply (Qclt_not_eq 0 0)).
  destruct (sumQ_mask_count v Hv) as (k & Hk & Hs).
  assert (sumQ v <= Qc_of_nat n) as Hsn.
  { rewrite Hs. unfold Qc_of_nat. apply (proj1 (Qc_of_Z_le _ _)). lia. }
  assert (1 <= sumQ v) as Hs1.
  { rewrite Hs in Hsum |- *. destruct k as [|k]; [by apply Qclt_irrefl in Hsum|].
    change 1 with (Qc_of_Z 1). unfold Qc_of_nat. apply (proj1 (Qc_of_Z_le _ _)). lia. }
  assert (Qc_of_nat n <= Qc_of_Z (2 ^ 24)) as Hn'
    by (unfold Qc_of_nat; by apply (proj1 (Qc_of_Z_le _ _))).
  pose proof (Qcdiv_mult_cancel (Qc_of_nat n) (sumQ v) Hne) as Hq.
  pose proof min_normal_bounds as [_ Hmin].
  unfold F32.scale. rewrite F32_reduce_sum_mask by (done || lia).
  unfold Qc_of_nat at 1. rewrite (F32.rnd_int rnd Hr) by lia. fold (Qc_of_nat n).
  cbn [F32.div]. rewrite decide_False by done.
  revert Hq. generalize (Qc_of_nat n / sumQ v). intros q Hq.
  assert (1 <= q) as Hq1.
  { apply Qcnot_lt_le. intros Hlt. apply (Qclt_not_le (q * sumQ v) (Qc_of_nat n));
      [|by rewrite Hq].
    apply (Qclt_le_trans _ (1 * sumQ v)); [by apply Qcmult_lt_compat_r|].
    by rewrite Qcmult_1_l. }
  assert (q <= Qc_of_Z (2 ^ 24)) as Hq2.
  { apply (Qcle_trans _ (Qc_of_nat n)); [|done]. rewrite <- Hq.
    rewrite <- (Qcmult_1_r q) at 1. rewrite !(Qcmult_comm q).
    apply Qcmult_le_compat_r; [done|]. by apply (Qcle_trans _ 1). }
  destruct (F32.rnd_range rnd Hr q) as [c Hc]; [by apply (Qcle_trans _ 1)|done|].
  exists c. split; [done|]. split; [done|]. split.
  - apply (F32.rnd_mono rnd Hr 1 q 1 c); [done| |done].
    by apply (F32.rnd_int rnd Hr 1).
  - apply (F32.rnd_error rnd Hr); [|done]. by apply (Qcle_trans _ 1).
Qed.

(** The layer, row by row. *)
Lemma F32_layer_rows rnd w b prev_out n (v : list Qc) c :
  F32.scale rnd n (lift v) = Fin c ->
  F32.create_hidden_layer rnd w b prev_out n (lift v) =
  (fun z => zip_with (fun e m => relu (F32.mul rnd (F32.mul rnd e (Fin m)) (Fin c))) z v)
    <$> F32.pre_activation rnd w b prev_out n.
Proof.
  intros Hc. unfold F32.create_hidden_layer, tf_nn_relu, F32.mul_scalar, F32.mul_rows.
  rewrite Hc, <- !list_fmap_compose. apply list_fmap_ext. intros _ z _. cbn.
  unfold lift. rewrite zip_with_fmap_r, <- list_fmap_compose.
  generalize v. induction z as [|e z IH]; intros [|m v']; cbn; [done..|].
  by rewrite IH.
Qed.

(** Every finite entry of the pre-activation is the result of a rounded
    addition, a float32. *)
Lemma F32_pre_activation_float rnd w b prev_out n i z j p :
  F32.rounding rnd ->
  F32.pre_activation rnd w b prev_out n !! i = Some z -> z !! j = Some (Fin p) ->
  rnd p = Fin p.
Proof.
  intros Hr. unfold F32.pre_activation, F32.add_rows. rewrite list_lookup_fmap.
  destruct (_ !! i) as [row|]; [|done]. cbn. intros [= <-].
  rewrite lookup_zip_with. destruct (row !! j) as [a|]; [|done]. cbn.
  destruct (b !! j) as [a'|]; [|done]. cbn. intros [= Hp].
  destruct a as [q| | |], a' as [q'| | |]; try discriminate.
  cbn [F32.add] in Hp. by apply (F32.rnd_idem rnd Hr (q + q')).
Qed.

Lemma F32_kept_unit rnd p c :
  rnd p = Fin p ->
  F32.mul rnd (F32.mul rnd (Fin p) (Fin 1)) (Fin c) = rnd (p * c).
Proof. intros Hp. cbn [F32.mul]. by rewrite Qcmult_1_r, Hp. Qed.

Lemma F32_removed_unit rnd e c :
  F32.rounding rnd ->
  relu (F32.mul rnd (F32.mul rnd e (Fin 0)) (Fin c)) =
  match e with Fin _ => Fin 0 | _ => NaN end.
Proof.
  intros Hr. pose proof (F32.rnd_int rnd Hr 0) as H0.
  change (Qc_of_Z 0) with 0 in H0.
  destruct e as [p| | |]; cbn [F32.mul fmul fneg]; [|by vm_compute..].
  rewrite Qcmult_0_r, H0 by (by vm_compute). cbn [F32.mul].
  rewrite Qcmult_0_l, H0 by (by vm_compute). done.
Qed.

Lemma sumQ_scaled_mask v y : sumQ ((fun m => m * y) <$> v) = sumQ v * y.
Proof.
  unfold sumQ. induction v as [|m v IH]; cbn [fmap list_fmap foldr]; [ring|].
  fold (@fmap list _ Qc Qc) in *. rewrite IH. ring.
Qed.

(** With the rounding that keeps every value, the float32 layer is the exact
    one. *)
Lemma F32_exact_layer w b prev_out n v :
  F32.create_hidden_layer Fin w b prev_out n v =
  mIM.create_hidden_layer w b prev_out n v.
Proof.
  assert (forall a c, F32.add Fin a c = fadd a c) as Hadd by (by intros [] []).
  assert (forall a c, F32.mul Fin a c = fmul a c) as Hmul by (by intros [] []).
  assert (forall a c, F32.div Fin a c = fdiv a c) as Hdiv by (by intros [] []).
  assert (forall x, F32.tf_reduce_sum Fin x = tf_reduce_sum x) as Hsum.
  { intros x. unfold F32.tf_reduce_sum, tf_reduce_sum.
    induction x as [|a x IH]; cbn [foldr]; [done|]. by rewrite IH, Hadd. }
  assert (forall x y, zip_with (F32.mul Fin) x y = zip_with fmul x y) as Hzip.
  { intros x. induction x as [|a x IH]; intros [|c y]; cbn [zip_with]; [done..|].
    by rewrite IH, Hmul. }
  assert (forall x y, zip_with (F32.add Fin) x y = zip_with fadd x y) as Hzip'.
  { intros x. induction x as [|a x IH]; intros [|c y]; cbn [zip_with]; [done..|].
    by rewrite IH, Hadd. }
  assert (forall row : list fval,
            (fun j => F32.dot Fin row (column j w)) <$> seq 0 n
            = (fun j => dot row (column j w)) <$> seq 0 n) as Hdot.
  { intros row. apply list_fmap_ext. intros _ j _.
    unfold F32.dot, dot. by rewrite Hsum, Hzip. }
  unfold F32.create_hidden_layer, mIM.create_hidden_layer, F32.scale.
  rewrite Hdiv, Hsum.
  generalize (fdiv (Fin (Qc_of_nat n)) (tf_reduce_sum v)). intros s. f_equal.
  unfold F32.mul_scalar, mul_scalar, F32.mul_rows, mul_rows, F32.pre_activation,
    F32.add_rows, add_rows, F32.tf_matmul, tf_matmul.
  rewrite <- !list_fmap_compose. apply list_fmap_ext. intros _ row _.
  unfold compose. rewrite Hzip, Hzip', Hdot.
  apply list_fmap_ext. intros _ e _. apply Hmul.
Qed.

(** The output of a row whose retained units all have the pre-activation
    [α]. *)
Lemma F32_equal_activation_row rnd (z : list fval) (v : list Qc) α c y :
  F32.rounding rnd -> is_mask v -> length z = length v ->
  (forall j, v !! j = Some 1 -> z !! j = Some (Fin α)) ->
  (forall j, v !! j = Some 0 -> exists p, z !! j = Some (Fin p)) ->
  rnd α = Fin α -> 0 <= y -> rnd (α * c) = Fin y ->
  zip_with (fun e m => relu (F32.mul rnd (F32.mul rnd e (Fin m)) (Fin c))) z v =
  lift ((fun m => m * y) <$> v).
Proof.
  intros Hr Hv. revert z.
  induction Hv as [|m v Hm Hv IH]; intros [|e z] Hlen Hkept Hrem Hα Hy Hαc;
    try discriminate; [done|].
  cbn [zip_with lift fmap list_fmap]. f_equal.
  - destruct Hm as [->| ->].
    + destruct (Hrem 0%nat eq_refl) as [p [= ->]].
      rewrite F32_removed_unit by done. by rewrite Qcmult_0_l.
    + specialize (Hkept 0%nat eq_refl). injection Hkept as ->.
      rewrite F32_kept_unit, Hαc, Qcmult_1_l by done.
      unfold relu. by rewrite decide_False by (by apply Qcle_not_lt).
  - apply IH; [by injection Hlen| | |done..].
    + intros j. apply (Hkept (S j)).
    + intros j. apply (Hrem (S j)).
Qed.

(** C1 (amended): for a hidden layer of n <= 2^24 units and a 0/1 removal
    vector v of length n with sum(v) > 0, the layer computes in float32
    ReLU(((x·W + b) ⊙ v) × c) row by row, where the rescale factor c is the
    float32 nearest to n/sum(v): c is at least 1 and within relative error
    2^-24 of n/sum(v).  A retained unit of finite pre-activation p outputs
    ReLU(round(p × c)).  When all retained units of a row have the same
    pre-activation α (at least the smallest normal float32), the removed ones
    are finite and y = round(α × c) is finite, the output is y on the retained
    units and 0 on the removed ones, y lies between (n/sum(v)) × α × (1 - 2^-24)²
    and (n/sum(v)) × α × (1 + 2^-24)², and the sum sum(v) × y of the output,
    taken exactly, lies between n × α × (1 - 2^-24)² and n × α × (1 + 2^-24)²;
    it is n × α when the two roundings are exact. *)
Theorem C1_masked_layer_rescaled (rnd : Qc -> fval) (n : nat) (w : list (list fval))
    (b : list fval) (prev_out : list (list fval)) (v : list Qc) :
  F32.rounding rnd -> is_mask v -> length v = n -> (Z.of_nat n <= 2 ^ 24)%Z ->
  0 < sumQ v ->
  let ratio := Qc_of_nat n / sumQ v in
  let pre := F32.pre_activation rnd w b prev_out n in
  let h := F32.create_hidden_layer rnd w b prev_out n (lift v) in
  exists c : Qc,
    (F32.scale rnd n (lift v) = Fin c ∧ rnd ratio = Fin c ∧ 1 <= c
     ∧ ratio * (1 - F32.eps) <= c ∧ c <= ratio * (1 + F32.eps))
    ∧ h = (fun z => zip_with (fun e m =>
                      relu (F32.mul rnd (F32.mul rnd e (Fin m)) (Fin c))) z v) <$> pre
    ∧ forall i z, pre !! i = Some z ->
        exists hi, h !! i = Some hi
        ∧ (forall j p, v !! j = Some 1 -> z !! j = Some (Fin p) ->
             hi !! j = Some (relu (rnd (p * c))))
        ∧ (forall α y,
             length z = n ->
             (forall j, v !! j = Some 1 -> z !! j = Some (Fin α)) ->
             (forall j, v !! j = Some 0 -> exists p, z !! j = Some (Fin p)) ->
             F32.min_normal <= α -> rnd (α * c) = Fin y ->
             hi = lift ((fun m => m * y) <$> v)
             ∧ α * ratio * (1 - F32.eps) * (1 - F32.eps) <= y
             ∧ y <= α * ratio * (1 + F32.eps) * (1 + F32.eps)
             ∧ sumQ ((fun m => m * y) <$> v) = sumQ v * y
             ∧ Qc_of_nat n * α * (1 - F32.eps) * (1 - F32.eps) <= sumQ v * y
             ∧ sumQ v * y <= Qc_of_nat n * α * (1 + F32.eps) * (1 + F32.eps)
             ∧ (c = ratio -> y = α * c -> sumQ v * y = Qc_of_nat n * α)).
Proof.
  intros Hr Hv Hlen Hn Hsum ratio pre h.
  destruct (F32_scale rnd n v Hr Hv Hlen Hn Hsum) as (c & Hscale & Hc & Hc1 & Hlo & Hhi).
  fold ratio in Hc, Hlo, Hhi.
  assert (sumQ v ≠ 0) as Hne
    by (intros H; rewrite H in Hsum; by apply (Qclt_not_eq 0 0)).
  pose proof (Qcdiv_mult_cancel (Qc_of_nat n) (sumQ v) Hne) as Hratio.
  fold ratio in Hratio.
  pose proof (F32_layer_rows rnd w b prev_out n v c Hscale) as Hrows.
  fold pre h in Hrows.
  exists c. split; [done|]. split; [done|].
  intros i z Hz. rewrite Hrows, list_lookup_fmap, Hz. cbn.
  eexists. split; [done|]. split.
  - intros j p Hj Hp. rewrite lookup_zip_with, Hp, Hj. cbn [mbind option_bind].
    rewrite F32_kept_unit; [done|].
    by apply (F32_pre_activation_float rnd w b prev_out n i z j).
  - intros α y Hzlen Hkept Hrem Hα Hy.
    pose proof min_normal_bounds as [Hmin0 Hmin1].
    pose proof eps_bounds as [Heps0 Heps1].
    assert (0 < α) as Hαpos by (by apply (Qclt_le_trans _ F32.min_normal)).
    assert (α <= α * c) as Hαc.
    { rewrite <- (Qcmult_1_r α) at 1. rewrite !(Qcmult_comm α).
      apply Qcmult_le_compat_r; [done|]. by apply Qclt_le_weak. }
    destruct (F32.rnd_error rnd Hr (α * c) y) as [Hylo Hyhi];
      [by apply (Qcle_trans _ α)|done|].
    assert (0 <= y) as Hy0.
    { apply (F32.rnd_mono rnd Hr 0 (α * c) 0 y); [|by apply (F32.rnd_int rnd Hr 0)|done].
      apply (Qcle_trans _ α); [by apply Qclt_le_weak|done]. }
    assert (α * ratio * (1 - F32.eps) * (1 - F32.eps) <= y
            ∧ y <= α * ratio * (1 + F32.eps) * (1 + F32.eps)) as [Hy1 Hy2].
    { revert Hlo Hhi. generalize ratio.
      clear -Hαpos Hylo Hyhi Heps0 Heps1.
      revert Hylo Hyhi Heps0 Heps1. generalize F32.eps.
      intros e Hylo Hyhi He0 He1 q Hlo Hhi.
      assert (0 <= α * (1 - e)) as Hlo' by Qc_nra.
      assert (0 <= α * (1 + e)) as Hhi' by Qc_nra.
      split.
      - apply (Qcle_trans _ (α * c * (1 - e))); [|done].
        replace (α * q * (1 - e) * (1 - e)) with (q * (1 - e) * (α * (1 - e))) by ring.
        replace (α * c * (1 - e)) with (c * (α * (1 - e))) by ring.
        by apply Qcmult_le_compat_r.
      - apply (Qcle_trans _ (α * c * (1 + e))); [done|].
        replace (α * q * (1 + e) * (1 + e)) with (q * (1 + e) * (α * (1 + e))) by ring.
        replace (α * c * (1 + e)) with (c * (α * (1 + e))) by ring.
        by apply Qcmult_le_compat_r. }
    split; [|split; [done|split; [done|split; [by apply sumQ_scaled_mask|]]]].
    + apply (F32_equal_activation_row rnd z v α c y); try done; [congruence|].
      assert (exists j, v !! j = Some 1) as [j Hj].
      { clear -Hv Hsum. induction Hv as [|m v [->| ->] Hv IH].
        - by apply Qclt_irrefl in Hsum.
        - destruct IH as [j Hj]; [|by exists (S j)].
          cbn [sumQ foldr] in Hsum. by rewrite Qcplus_0_l in Hsum.
        - by exists 0%nat. }
      by apply (F32_pre_activation_float rnd w b prev_out n i z j), Hkept.
    + rewrite <- Hratio.
      assert (0 <= sumQ v) as Hs0 by (by apply Qclt_le_weak).
      split; [|split].
      * replace (ratio * sumQ v * α * (1 - F32.eps) * (1 - F32.eps))
          with (α * ratio * (1 - F32.eps) * (1 - F32.eps) * sumQ v) by ring.
        rewrite (Qcmult_comm (sumQ v)). by apply Qcmult_le_compat_r.
      * replace (ratio * sumQ v * α * (1 + F32.eps) * (1 + F32.eps))
          with (α * ratio * (1 + F32.eps) * (1 + F32.eps) * sumQ v) by ring.
        rewrite (Qcmult_comm (sumQ v)). by apply Qcmult_le_compat_r.
      * intros -> ->. ring.
Qed.

Lemma overflow_only_rounding : F32.rounding F32.overflow_only.
Proof.
  assert (forall q r, F32.overflow_only q = Fin r -> r = q) as Hfin.
  { intros q r. unfold F32.overflow_only, signed_inf.
    repeat case_decide; congruence. }
  assert (forall q, 0 <= q -> q <= Qc_of_Z (2 ^ 24) -> F32.overflow_only q = Fin q)
    as Hrange.
  { intros q H0 Hq. unfold F32.overflow_only. rewrite decide_True; [done|].
    split.
    - apply (Qcle_trans _ 0); [by vm_compute|done].
    - apply (Qcle_trans _ (Qc_of_Z (2 ^ 24))); [done|by vm_compute]. }
  split.
  - intros k Hk. unfold F32.overflow_only. rewrite decide_True; [done|].
    split.
    + apply (Qcle_trans _ (Qc_of_Z (- 2 ^ 24))); [by vm_compute|].
      apply (proj1 (Qc_of_Z_le _ _)). lia.
    + apply (Qcle_trans _ (Qc_of_Z (2 ^ 24))); [|by vm_compute].
      apply (proj1 (Qc_of_Z_le _ _)). lia.
  - intros q r Hq. pose proof (Hfin q r Hq) as ->. done.
  - intros p q r r' Hpq Hp Hq. by rewrite (Hfin p r Hp), (Hfin q r' Hq).
  - intros q H0 Hq. exists q. by apply Hrange.
  - intros q r Hq Hr. rewrite (Hfin q r Hr).
    pose proof min_normal_bounds as [Hmin _]. pose proof eps_bounds as [He _].
    assert (0 <= q) as Hq0 by (apply (Qcle_trans _ F32.min_normal);
                               [by apply Qclt_le_weak|done]).
    revert He. generalize F32.eps. clear -Hq0. intros e He.
    split; Qc_nra.
Qed.

Lemma is_mask_cons m v : m = 0 ∨ m = 1 -> is_mask v -> is_mask (m :: v).
Proof. intros Hm Hv. by constructor. Qed.

(** One input of value 3, two units of weight 1 and bias 0, the second one
    removed: the factor is 2, the output [6, 0], its sum 6 = 2 × 3. *)
Lemma C1_masked_layer_rescaled_witness :
  let w := lift2 [[Qc_of_Z 1; Qc_of_Z 1]] in
  let b := lift [Qc_of_Z 0; Qc_of_Z 0] in
  let prev_out := lift2 [[Qc_of_Z 3]] in
  let v := [Qc_of_Z 1; Qc_of_Z 0] in
  F32.scale F32.overflow_only 2 (lift v) = Fin (Qc_of_Z 2)
  ∧ F32.create_hidden_layer F32.overflow_only w b prev_out 2 (lift v) !! 0%nat =
      Some (lift [Qc_of_Z 6; Qc_of_Z 0])
  ∧ sumQ v * Qc_of_Z 6 = Qc_of_nat 2 * Qc_of_Z 3.
Proof.
  intros w b prev_out v.
  assert (is_mask v) as Hv
    by (apply is_mask_cons; [by right|]; apply is_mask_cons; [by left|]; constructor).
  assert (0 < sumQ v) as Hsum by reflexivity.
  assert ((Z.of_nat 2 <= 2 ^ 24)%Z) as Hn by lia.
  destruct (C1_masked_layer_rescaled F32.overflow_only 2 w b prev_out v
              overflow_only_rounding Hv eq_refl Hn Hsum)
    as (c & (Hscale & Hc & _) & _ & Hunits).
  assert (c = Qc_of_Z 2) as ->.
  { assert (F32.overflow_only (Qc_of_nat 2 / sumQ v) = Fin (Qc_of_Z 2)) as H2
      by (by vm_compute).
    rewrite H2 in Hc. by injection Hc. }
  split; [exact Hscale|].
  destruct (Hunits 0%nat (lift [Qc_of_Z 3; Qc_of_Z 3])) as (hi & Hhi & _ & Heq);
    [by vm_compute|].
  destruct (Heq (Qc_of_Z 3) (Qc_of_Z 6)) as (Hout & _ & _ & _ & _ & _ & Hexact).
  - reflexivity.
  - intros [|[|j]] Hj; [reflexivity|discriminate..].
  - intros [|[|j]] Hj; [discriminate|by exists (Qc_of_Z 3)|discriminate].
  - by vm_compute.
  - by vm_compute.
  - split; [by rewrite Hhi, Hout|]. apply Hexact; by vm_compute.
Defined.

(** C1 (as stated): when all retained units have equal activation, the summed
    post-mask activation is the summed pre-mask activation scaled by exactly
    n/sum(v).  One input of value 3, two units of weights 1 and biases 0 and
    2, the second unit removed: the only retained unit has activation 3, the
    two units have the pre-mask activations 3 and 5 of sum 8, the factor is
    2/1 = 2 and the output is [6, 0], of sum 6 and not 2 × 8 = 16.  Every
    value met is a small integer, which float32 computes exactly. *)
Lemma C1_pre_mask_sum_not_rescaled :
  let W := [[Qc_of_Z 1; Qc_of_Z 1]] in
  let b := [Qc_of_Z 0; Qc_of_Z 2] in
  let x := [Qc_of_Z 3] in
  let v := [Qc_of_Z 1; Qc_of_Z 0] in
  let post := [Qc_of_Z 6; Qc_of_Z 0] in
  0 < sumQ v
  ∧ pre_activation 2 x W b = [Qc_of_Z 3; Qc_of_Z 5]
  ∧ pre_mask_activation 2 x W b = Qc_of_Z 8
  ∧ mIM.create_hidden_layer (lift2 W) (lift b) (lift2 [x]) 2 (lift v) = [lift post]
  ∧ F32.create_hidden_layer F32.overflow_only (lift2 W) (lift b) (lift2 [x]) 2 (lift v)
    = [lift post]
  ∧ sumQ post = Qc_of_Z 6
  ∧ sumQ post ≠ Qc_of_nat 2 / sumQ v * pre_mask_activation 2 x W b.
Proof.
  cbv zeta. repeat split; by vm_compute.
Qed.


(** *** A mask that removes every unit *)

(** C2 (as stated): for a removal vector of sum 0 the layer raises
    InvalidMaskError and never returns NaN or Inf.  For two units, both
    removed, the layer raises nothing and returns NaN for both units. *)
Lemma C2_all_removed_returns_nan :
  let feed_dict : gmap mIM.placeholder mIM.ndarray :=
    {[mIM.det_remove 0 := mIM.array1 [Fin 0; Fin 0]]} in
  let h := mIM.run_hidden_layer feed_dict [[Fin 1; Fin 1]] [Fin 0; Fin 0]
             [[Fin 1]] 2 0 in
  tf_reduce_sum [Fin 0; Fin 0] = Fin 0
  ∧ h = Ok [[NaN; NaN]]
  ∧ h ≠ Raise (Exn "InvalidMaskError").
Proof.
  cbv zeta.
  assert (mIM.run_hidden_layer
            ({[mIM.det_remove 0 := mIM.array1 [Fin 0; Fin 0]]}
               : gmap mIM.placeholder mIM.ndarray)
            [[Fin 1; Fin 1]] [Fin 0; Fin 0] [[Fin 1]] 2 0 = Ok [[NaN; NaN]]) as ->
    by (by vm_compute).
  split; [|by split]. unfold tf_reduce_sum. cbn [foldr fadd]. f_equal.
Qed.

Lemma fmul_zero_inf z : fmul (Fin (z * 0)) PInf = NaN.
Proof.
  cbn [fmul]. unfold signed_inf. by rewrite decide_True by ring.
Qed.

Lemma scale_all_removed n v :
  (0 < n)%nat -> sumQ v = 0 ->
  fdiv (Fin (Qc_of_nat n)) (tf_reduce_sum (lift v)) = PInf.
Proof.
  intros Hn Hsum. pose proof (Qc_of_nat_pos n Hn) as Hpos.
  rewrite reduce_sum_lift, Hsum. unfold fdiv. rewrite decide_True by done.
  unfold signed_inf.
  rewrite decide_False by (intros H; rewrite H in Hpos; by apply (Qclt_not_eq 0 0)).
  by rewrite decide_True.
Qed.

(** With every unit removed, the argument of the ReLU is NaN throughout. *)
Lemma pre_relu_all_removed n X W b :
  length b = n ->
  mul_scalar
    (mul_rows (add_rows (tf_matmul n (lift2 X) (lift2 W)) (lift b))
       (lift (replicate n 0))) PInf =
  (fun _ => replicate n NaN) <$> X.
Proof.
  intros Hb. unfold mul_scalar. rewrite masked_pre_activation_lift.
  rewrite <- !list_fmap_compose. apply list_fmap_ext. intros _ x _. cbn.
  unfold lift. rewrite <- !list_fmap_compose.
  pose proof (pre_activation_length n x W b Hb) as Hlen.
  revert Hlen. generalize (pre_activation n x W b). clear. intros zs.
  revert zs. induction n as [|n IH]; intros [|z zs] Hlen; try discriminate; [done|].
  cbn [replicate zip_with fmap list_fmap]. unfold compose in *.
  rewrite fmul_zero_inf. f_equal. apply IH. by injection Hlen.
Qed.

Lemma relu_all_nan {A} n (X : list A) :
  tf_nn_relu ((fun _ => replicate n NaN) <$> X) = (fun _ => replicate n NaN) <$> X.
Proof.
  unfold tf_nn_relu. rewrite <- list_fmap_compose. apply list_fmap_ext.
  intros _ x _. cbn. by rewrite fmap_replicate.
Qed.

(** C2 (amended): for a 0/1 removal vector of sum 0 (every unit of the layer
    removed), fed with the declared shape, the layer raises nothing: for
    finite weights, biases and inputs the rescale factor is n/0 = +Inf, the
    argument z × 0 × Inf of the ReLU is NaN for every unit, and so is every
    entry of the output that is returned. *)
Theorem C2_all_removed_gives_nan (n index : nat) (X W : list (list Qc))
    (b v : list Qc) (feed_dict : gmap mIM.placeholder mIM.ndarray) :
  (0 < n)%nat -> length b = n -> length v = n -> is_mask v -> sumQ v = 0 ->
  feed_dict !! mIM.det_remove index = Some (mIM.array1 (lift v)) ->
  let scale := fdiv (Fin (Qc_of_nat n)) (tf_reduce_sum (lift v)) in
  scale = PInf
  ∧ mul_scalar
      (mul_rows (add_rows (tf_matmul n (lift2 X) (lift2 W)) (lift b)) (lift v))
      scale = (fun _ => replicate n NaN) <$> X
  ∧ mIM.run_hidden_layer feed_dict (lift2 W) (lift b) (lift2 X) n index =
      Ok ((fun _ => replicate n NaN) <$> X).
Proof.
  intros Hn Hb Hlen Hv Hsum Hfeed scale.
  assert (scale = PInf) as Hscale by by apply scale_all_removed.
  assert (v = replicate n 0) as Hzero
    by (rewrite <- Hlen; by apply sumQ_mask_zero).
  assert (mul_scalar
            (mul_rows (add_rows (tf_matmul n (lift2 X) (lift2 W)) (lift b)) (lift v))
            scale = (fun _ => replicate n NaN) <$> X) as Hpre
    by (rewrite Hscale, Hzero; by apply pre_relu_all_removed).
  split; [done|]. split; [done|].
  unfold mIM.run_hidden_layer. rewrite Hfeed. cbn [mIM.as_vector].
  rewrite decide_True by (unfold lift; by rewrite length_fmap).
  unfold mIM.create_hidden_layer. fold scale. by rewrite Hpre, relu_all_nan.
Qed.

Lemma C2_all_removed_gives_nan_witness :
  mIM.run_hidden_layer
    ({[mIM.det_remove 1 := mIM.array1 (lift [Qc_of_Z 0; Qc_of_Z 0; Qc_of_Z 0])]}
       : gmap mIM.placeholder mIM.ndarray)
    (lift2 [[Qc_of_Z 1; Qc_of_Z 2; Qc_of_Z 3]])
    (lift [Qc_of_Z 1; Qc_of_Z 1; Qc_of_Z 1])
    (lift2 [[Qc_of_Z 5]; [Qc_of_Z (-5)]]) 3 1
  = Ok [[NaN; NaN; NaN]; [NaN; NaN; NaN]].
Proof.
  refine (proj2 (proj2 (C2_all_removed_gives_nan 3 1 [[Qc_of_Z 5]; [Qc_of_Z (-5)]]
            [[Qc_of_Z 1; Qc_of_Z 2; Qc_of_Z 3]] [Qc_of_Z 1; Qc_of_Z 1; Qc_of_Z 1]
            [Qc_of_Z 0; Qc_of_Z 0; Qc_of_Z 0] _ _ _ _ _ _ _))).
  - lia.
  - reflexivity.
  - reflexivity.
  - unfold is_mask. constructor; [by left|]. constructor; [by left|].
    constructor; [by left|]. constructor.
  - apply Qc_is_canon. reflexivity.
  - apply lookup_singleton_eq.
Defined.


(** ** The rank error of trainingGround.py *)

Lemma elem_of_insert_unique x y u :
  y ∈ tG.insert_unique x u <-> y = x ∨ y ∈ u.
Proof.
  induction u as [|z u IH]; cbn [tG.insert_unique].
  - rewrite list_elem_of_singleton, elem_of_nil. tauto.
  - destruct (decide (x < z)); [by rewrite elem_of_cons|].
    destruct (decide (x = z)) as [->|].
    + rewrite elem_of_cons. tauto.
    + rewrite !elem_of_cons, IH. tauto.
Qed.

Lemma insert_unique_sorted x u :
  StronglySorted Qclt u -> StronglySorted Qclt (tG.insert_unique x u).
Proof.
  induction 1 as [|z u Hu IH Hz]; cbn [tG.insert_unique].
  - repeat constructor.
  - destruct (decide (x < z)) as [Hxz|Hxz].
    + constructor; [by constructor|]. constructor; [done|].
      eapply Forall_impl; [exact Hz|]. intros w Hw. by apply (Qclt_trans _ z).
    + destruct (decide (x = z)) as [->|Hne]; [by constructor|].
      constructor; [done|]. apply Forall_forall. intros w Hw.
      apply elem_of_insert_unique in Hw as [->|Hw].
      * apply Qcnot_lt_le in Hxz. by destruct (Qcle_lt_or_eq _ _ Hxz).
      * by apply (proj1 (Forall_forall _ _) Hz).
Qed.

Lemma np_unique_sorted ar : StronglySorted Qclt (tG.np_unique ar).
Proof.
  unfold tG.np_unique. induction ar as [|x ar IH]; cbn [foldr]; [constructor|].
  by apply insert_unique_sorted.
Qed.

Lemma elem_of_np_unique ar x : x ∈ tG.np_unique ar <-> x ∈ ar.
Proof.
  unfold tG.np_unique. induction ar as [|y ar IH]; cbn [foldr]; [done|].
  rewrite elem_of_insert_unique, IH, elem_of_cons. tauto.
Qed.

Lemma sorted_NoDup u : StronglySorted Qclt u -> NoDup u.
Proof.
  induction 1 as [|z u Hu IH Hz]; constructor; [|done].
  intros Hin. apply (Qclt_irrefl z). by apply (proj1 (Forall_forall _ _) Hz).
Qed.

Lemma filter_lt_nil x u :
  Forall (fun w => ¬ w < x) u -> filter (fun y => y < x) u = [].
Proof.
  induction 1 as [|w u Hw Hu IH]; [done|].
  by rewrite filter_cons, decide_False.
Qed.

(** In a strictly sorted list the position of an element is the number of
    elements below it. *)
Lemma index_of_sorted x u :
  StronglySorted Qclt u -> x ∈ u ->
  tG.index_of x u = length (filter (fun y => y < x) u).
Proof.
  induction 1 as [|z u Hu IH Hz]; intros Hx; [by apply elem_of_nil in Hx|].
  cbn [tG.index_of]. rewrite filter_cons.
  destruct (decide (x = z)) as [->|Hne].
  - rewrite decide_False by apply Qclt_irrefl.
    rewrite filter_lt_nil; [done|].
    eapply Forall_impl; [exact Hz|]. intros w Hw Hwz.
    apply (Qclt_irrefl z). by apply (Qclt_trans _ w).
  - apply elem_of_cons in Hx as [?|Hx]; [done|].
    rewrite decide_True by (by apply (proj1 (Forall_forall _ _) Hz)).
    cbn [length]. by rewrite IH.
Qed.

(** The rank [np.unique] assigns is the dense rank. *)
Lemma np_unique_inverse_dense ar :
  tG.np_unique_inverse ar = tG.dense_rank ar <$> ar.
Proof.
  unfold tG.np_unique_inverse. apply list_fmap_ext. intros j x Hx.
  apply list_elem_of_lookup_2 in Hx.
  rewrite index_of_sorted
    by (apply np_unique_sorted || by apply elem_of_np_unique).
  unfold tG.dense_rank. apply Permutation_length, NoDup_Permutation.
  - apply NoDup_filter, sorted_NoDup, np_unique_sorted.
  - apply NoDup_remove_dups.
  - intros y. rewrite elem_of_remove_dups, !list_elem_of_filter.
    by rewrite elem_of_np_unique.
Qed.

Lemma rank_diff_same ar : tG.rank_diff ar ar = 0%Z.
Proof.
  unfold tG.rank_diff. generalize (tG.np_unique_inverse ar). intros l.
  induction l as [|a l IH]; [done|]. cbn [zip_with tG.sum_Z foldr].
  fold (tG.sum_Z (zip_with (fun a b => Z.abs (Z.of_nat a - Z.of_nat b)) l l)).
  rewrite IH. lia.
Qed.


Lemma getitem_Some {A} (l : list A) i a : l !! i = Some a -> getitem l i = Ok a.
Proof. unfold getitem. by intros ->. Qed.

(** The loop over the samples adds up the rank differences of the rows. *)
Lemma sum_rank_diffs_from_spec ybatch pred m : forall k acc,
  (k + m <= length ybatch)%nat -> (k + m <= length pred)%nat ->
  tG.sum_rank_diffs_from (seq k m) ybatch pred acc =
  Ok (acc + Qc_of_Z (tG.sum_Z (zip_with tG.rank_diff
                                 (take m (drop k ybatch)) (take m (drop k pred))))).
Proof.
  induction m as [|m IH]; intros k acc Hy Hp.
  - rewrite !take_0. cbn [seq tG.sum_rank_diffs_from zip_with tG.sum_Z foldr].
    f_equal. change (Qc_of_Z 0) with 0. ring.
  - destruct (lookup_lt_is_Some_2 ybatch k) as [y Hyk]; [lia|].
    destruct (lookup_lt_is_Some_2 pred k) as [p Hpk]; [lia|].
    cbn [seq tG.sum_rank_diffs_from].
    rewrite (getitem_Some _ _ _ Hyk), (getitem_Some _ _ _ Hpk). cbn [mbind result_bind].
    rewrite IH by lia.
    rewrite (drop_S _ _ _ Hyk), (drop_S _ _ _ Hpk).
    rewrite !firstn_cons. cbn [zip_with tG.sum_Z foldr].
    rewrite Qc_of_Z_plus. f_equal. unfold tG.sum_Z. ring.
Qed.

Lemma rank_error_spec ybatch pred :
  length ybatch = 50%nat -> length pred = 50%nat ->
  tG.rank_error ybatch pred =
  Ok (Qc_of_Z (tG.sum_Z (zip_with tG.rank_diff ybatch pred)) / Qc_of_nat 50).
Proof.
  intros Hy Hp. unfold tG.rank_error, tG.sum_rank_diffs, tG.BATCHSIZE.
  rewrite sum_rank_diffs_from_spec by lia. cbn [mbind result_bind drop].
  rewrite <- Hy at 1. rewrite <- Hp at 1. rewrite !firstn_all.
  by rewrite Qcplus_0_l.
Qed.

(** C9 (as stated): the ranks break ties by the order of the original index.
    For the target [1,1,2,3] the code gives both tied values rank 0 (ranks
    0,0,1,2, not 0,1,2,3), so that against the prediction [1,2,3,4] the error
    of the sample is 3, where the ranking of the claim gives 0. *)
Lemma C9_tied_values_share_a_rank :
  let real := Qc_of_Z <$> [1; 1; 2; 3]%Z in
  let pred := Qc_of_Z <$> [1; 2; 3; 4]%Z in
  tG.np_unique_inverse real = [0; 0; 1; 2]%nat
  ∧ tG.stable_ranks real = [0; 1; 2; 3]%nat
  ∧ tG.rank_diff real pred = 3%Z
  ∧ tG.stable_rank_diff real pred = 0%Z
  ∧ tG.rank_diff real pred ≠ tG.stable_rank_diff real pred.
Proof. cbv zeta. repeat split; by vm_compute. Qed.

(** C9 (amended): the rank of a value in a row is its dense rank, the number
    of distinct values of the row that are smaller, so that tied values share
    a rank; the error of a sample is the sum over the positions of the
    absolute differences between the ranks of target and prediction, and the
    error of a batch (of BATCHSIZE = 50 rows) is the sum of the sample errors
    divided by the batch size.  For target [1,2,3,4] and prediction [4,3,2,1]
    the sample error is 8, for identical target and prediction it is 0. *)
Theorem C9_rank_error_of_dense_ranks (ybatch pred : list (list Qc))
    (real p : list Qc) :
  tG.np_unique_inverse real = tG.dense_rank real <$> real
  ∧ tG.rank_diff real p =
      tG.sum_Z (zip_with (fun a b => Z.abs (Z.of_nat a - Z.of_nat b))
                  (tG.dense_rank real <$> real) (tG.dense_rank p <$> p))
  ∧ (forall i j x, real !! i = Some x -> real !! j = Some x ->
       tG.np_unique_inverse real !! i = tG.np_unique_inverse real !! j)
  ∧ tG.rank_diff (Qc_of_Z <$> [1; 2; 3; 4]%Z) (Qc_of_Z <$> [4; 3; 2; 1]%Z) = 8%Z
  ∧ tG.rank_diff real real = 0%Z
  ∧ (length ybatch = 50%nat -> length pred = 50%nat ->
     tG.rank_error ybatch pred =
     Ok (Qc_of_Z (tG.sum_Z (zip_with tG.rank_diff ybatch pred)) / Qc_of_nat 50)).
Proof.
  split; [apply np_unique_inverse_dense|].
  split; [unfold tG.rank_diff; by rewrite !np_unique_inverse_dense|].
  split.
  { intros i j x Hi Hj. rewrite np_unique_inverse_dense, !list_lookup_fmap.
    by rewrite Hi, Hj. }
  split; [by vm_compute|]. split; [apply rank_diff_same|apply rank_error_spec].
Qed.

(** A batch of fifty samples with fully reversed ranks has rank error 8. *)
Lemma C9_rank_error_of_dense_ranks_witness :
  tG.rank_error (replicate 50 (Qc_of_Z <$> [1; 2; 3; 4]%Z))
                (replicate 50 (Qc_of_Z <$> [4; 3; 2; 1]%Z))
  = Ok (Qc_of_Z 400 / Qc_of_nat 50).
Proof.
  destruct (C9_rank_error_of_dense_ranks
              (replicate 50 (Qc_of_Z <$> [1; 2; 3; 4]%Z))
              (replicate 50 (Qc_of_Z <$> [4; 3; 2; 1]%Z)) [] [])
    as (_ & _ & _ & _ & _ & Hbatch).
  rewrite Hbatch by apply length_replicate. do 3 f_equal.
Defined.



(** * Further properties of the code *)

(** ** mixedInputModel.py: the default removal vectors *)

Lemma reduce_sum_ones n : tf_reduce_sum (replicate n (Fin 1)) = Fin (Qc_of_nat n).
Proof.
  unfold tf_reduce_sum. induction n as [|n IH]; cbn [replicate foldr]; [done|].
  rewrite IH. cbn [fadd]. by rewrite Qc_of_nat_S.
Qed.

Lemma fmul_one_r a : fmul a (Fin 1) = a.
Proof.
  destruct a as [q| | |]; cbn [fmul fneg]; try done.
  by rewrite Qcmult_1_r.
Qed.

Lemma zip_with_ones (row : list fval) n :
  (length row <= n)%nat -> zip_with fmul row (replicate n (Fin 1)) = row.
Proof.
  revert n. induction row as [|a row IH]; intros [|n] Hlen; cbn in *; try done; [lia|].
  rewrite fmul_one_r, IH; [done|lia].
Qed.

(** With the all-ones vector the layer is the plain [relu(prev_out·w + b)],
    for entries of any kind. *)
Lemma create_hidden_layer_ones w b prev_out n :
  mIM.create_hidden_layer w b prev_out n (replicate n (Fin 1)) =
  tf_nn_relu (add_rows (tf_matmul n prev_out w) b).
Proof.
  unfold mIM.create_hidden_layer. rewrite reduce_sum_ones.
  destruct n as [|n].
  - unfold tf_nn_relu, mul_scalar, mul_rows, add_rows, tf_matmul.
    rewrite <- !list_fmap_compose. apply list_fmap_ext. by intros _ x _.
  - assert (Qc_of_nat (S n) ≠ 0) as Hne.
    { intros H. pose proof (Qc_of_nat_pos (S n) ltac:(lia)) as Hpos.
      rewrite H in Hpos. by apply (Qclt_not_eq 0 0). }
    rewrite fdiv_Fin by done.
    replace (Qc_of_nat (S n) / Qc_of_nat (S n)) with 1
      by (symmetry; by apply Qcmult_inv_r).
    unfold tf_nn_relu, mul_scalar, mul_rows, add_rows, tf_matmul.
    rewrite <- !list_fmap_compose. apply list_fmap_ext. intros _ x _.
    unfold compose. f_equal.
    rewrite zip_with_ones
      by (rewrite length_zip_with, length_fmap, length_seq; lia).
    rewrite <- (list_fmap_id (zip_with _ _ _)) at 2.
    apply list_fmap_ext. intros _ e _. apply fmul_one_r.
Qed.

Lemma feed_det_remove_default feed_dict :
  mIM.feed_det_remove feed_dict None =
  Ok (<[mIM.det_remove 2 := mIM.np_ones 512]>
        (<[mIM.det_remove 1 := mIM.np_ones 512]>
           (<[mIM.det_remove 0 := mIM.np_ones 512]> feed_dict))).
Proof. reflexivity. Qed.

(** X1: without removal values, [feed_det_remove] never raises: it binds the
    placeholder of each of the three hidden layers to a vector of 512 ones
    and leaves every other entry of the feed dictionary as it was. *)
Theorem X1_feed_det_remove_default (feed_dict : gmap mIM.placeholder mIM.ndarray) :
  exists fd,
    mIM.feed_det_remove feed_dict None = Ok fd
    ∧ (forall i n, mIM.N_DENSE !! i = Some n ->
         fd !! mIM.det_remove i = Some (mIM.array1 (replicate n (Fin 1))))
    ∧ (forall i, (3 <= i)%nat ->
         fd !! mIM.det_remove i = feed_dict !! mIM.det_remove i)
    ∧ fd !! mIM.x_in = feed_dict !! mIM.x_in
    ∧ fd !! mIM.y_ = feed_dict !! mIM.y_
    ∧ fd !! mIM.keep_prob = feed_dict !! mIM.keep_prob.
Proof.
  eexists. split; [apply feed_det_remove_default|].
  split; [|split; [|by rewrite !lookup_insert_ne by done]].
  - intros [|[|[|i]]] n [= <-].
    + by rewrite !lookup_insert_ne by done; rewrite lookup_insert_eq.
    + by rewrite lookup_insert_ne by done; rewrite lookup_insert_eq.
    + by rewrite lookup_insert_eq.
  - intros i Hi. by rewrite !lookup_insert_ne by (intros [=]; lia).
Qed.

(** X2: a hidden layer evaluated under the default feed is not ablated: for
    every layer index [i] with [n = N_DENSE[i]] units the evaluation returns
    [relu(prev_out·w + b)], whatever the entries of the tensors are. *)
Theorem X2_default_feed_is_no_ablation (feed_dict : gmap mIM.placeholder mIM.ndarray)
    (w : list (list fval)) (b : list fval) (prev_out : list (list fval))
    (i n : nat) :
  mIM.N_DENSE !! i = Some n ->
  (fd ← mIM.feed_det_remove feed_dict None;
   mIM.run_hidden_layer fd w b prev_out n i) =
  Ok (tf_nn_relu (add_rows (tf_matmul n prev_out w) b)).
Proof.
  intros Hi. rewrite feed_det_remove_default. cbn [mbind result_bind].
  unfold mIM.run_hidden_layer.
  destruct i as [|[|[|i]]]; cbn in Hi; try done; injection Hi as <-;
    [rewrite !lookup_insert_ne by done; rewrite lookup_insert_eq
    |rewrite lookup_insert_ne by done; rewrite lookup_insert_eq
    |rewrite lookup_insert_eq];
    cbn [mIM.as_vector mIM.np_ones];
    (rewrite decide_True by apply length_replicate);
    by rewrite create_hidden_layer_ones.
Qed.

Lemma X2_default_feed_is_no_ablation_witness :
  (fd ← mIM.feed_det_remove ∅ None;
   mIM.run_hidden_layer fd [] [] [[]] 512 1) = Ok [[]].
Proof.
  rewrite (X2_default_feed_is_no_ablation ∅ [] [] [[]] 1 512 eq_refl).
  reflexivity.
Defined.


(** ** mixedInputModel.py: the units a mask removes *)

(** X3: under a 0/1 removal vector of length n <= 2^24 that keeps at least
    one unit, the float32 layer outputs, for a removed unit, 0 when the
    pre-activation of the unit is finite and NaN when it is not (the product
    x·W + b overflowed, or is NaN): a removed unit is silent only as long as
    its pre-activation is finite. *)
Theorem X3_removed_units_zero_or_nan (rnd : Qc -> fval) (n : nat)
    (w : list (list fval)) (b : list fval) (prev_out : list (list fval))
    (v : list Qc) :
  F32.rounding rnd -> is_mask v -> length v = n -> (Z.of_nat n <= 2 ^ 24)%Z ->
  0 < sumQ v ->
  forall i z, F32.pre_activation rnd w b prev_out n !! i = Some z ->
    exists hi,
      F32.create_hidden_layer rnd w b prev_out n (lift v) !! i = Some hi
      ∧ length hi = (length z `min` n)%nat
      ∧ forall j e, v !! j = Some 0 -> z !! j = Some e ->
          hi !! j = Some (match e with Fin _ => Fin 0 | _ => NaN end).
Proof.
  intros Hr Hv Hlen Hn Hsum i z Hz.
  destruct (F32_scale rnd n v Hr Hv Hlen Hn Hsum) as (c & Hscale & _).
  rewrite (F32_layer_rows rnd w b prev_out n v c Hscale), list_lookup_fmap, Hz.
  cbn [fmap option_fmap option_map]. eexists. split; [done|]. split.
  - by rewrite length_zip_with, Hlen.
  - intros j e Hj He. rewrite lookup_zip_with, He, Hj. cbn [mbind option_bind].
    by rewrite F32_removed_unit.
Qed.

(** An input of 3e38 through weights 2: the pre-activation 6e38 is beyond the
    largest float32, an infinity; the removed second unit outputs NaN. *)
Lemma X3_removed_units_zero_or_nan_witness :
  let w := lift2 [[Qc_of_Z 2; Qc_of_Z 2]] in
  let b := lift [Qc_of_Z 0; Qc_of_Z 0] in
  let prev_out := lift2 [[Qc_of_Z (3 * 10 ^ 38)]] in
  let v := [Qc_of_Z 1; Qc_of_Z 0] in
  F32.pre_activation F32.overflow_only w b prev_out 2 = [[PInf; PInf]]
  ∧ exists hi,
      F32.create_hidden_layer F32.overflow_only w b prev_out 2 (lift v) !! 0%nat
      = Some hi
      ∧ hi !! 1%nat = Some NaN.
Proof.
  intros w b prev_out v.
  assert (F32.pre_activation F32.overflow_only w b prev_out 2 = [[PInf; PInf]])
    as Hpre by (by vm_compute).
  split; [exact Hpre|].
  assert (is_mask v) as Hv
    by (apply is_mask_cons; [by right|]; apply is_mask_cons; [by left|]; constructor).
  assert (0 < sumQ v) as Hsum by reflexivity.
  assert ((Z.of_nat 2 <= 2 ^ 24)%Z) as Hn by lia.
  destruct (X3_removed_units_zero_or_nan F32.overflow_only 2 w b prev_out v
              overflow_only_rounding Hv eq_refl Hn Hsum 0%nat [PInf; PInf])
    as (hi & Hhi & _ & Hrem); [by rewrite Hpre|].
  exists hi. split; [exact Hhi|]. by apply (Hrem 1%nat PInf).
Defined.


(** ** mixedInputModel.py: [create_feed_dict] and [name_det_remove] *)

(** X4: [create_feed_dict] raises exactly when removal vectors are given and
    their number differs from 3, and then it raises [ValueError]; otherwise
    the dictionary it returns binds [x_in] and [keep_prob] to the values
    given, [y_] only when a true output is given, and the removal placeholder
    of each of the three layers to the given vector or, without removal
    vectors, to 512 ones; it holds no other removal placeholder. *)
Theorem X4_create_feed_dict (x_vals : mIM.ndarray) (y_vals : option mIM.ndarray)
    (keep : fval) (removal : option (list mIM.ndarray)) :
  let r := mIM.create_feed_dict x_vals y_vals keep removal in
  ((exists e, r = Raise e) <-> exists vs, removal = Some vs ∧ length vs ≠ 3%nat)
  ∧ (forall e, r = Raise e -> e = ValueError)
  ∧ (forall fd, r = Ok fd ->
       fd !! mIM.x_in = Some x_vals
       ∧ fd !! mIM.keep_prob = Some (mIM.array0 keep)
       ∧ fd !! mIM.y_ = y_vals
       ∧ (forall i, (i < 3)%nat ->
            fd !! mIM.det_remove i =
            match removal with
            | Some vs => vs !! i
            | None => Some (mIM.array1 (replicate 512 (Fin 1)))
            end)
       ∧ (forall i, (3 <= i)%nat -> fd !! mIM.det_remove i = None)).
Proof.
  intros r. unfold r, mIM.create_feed_dict.
  set (f_dict := match y_vals with
                 | Some y => <[mIM.y_ := y]> _
                 | None => _
                 end).
  assert (f_dict !! mIM.x_in = Some x_vals) as Hx.
  { unfold f_dict. destruct y_vals; rewrite ?lookup_insert_ne by done;
      by rewrite lookup_insert_eq. }
  assert (f_dict !! mIM.keep_prob = Some (mIM.array0 keep)) as Hk.
  { unfold f_dict. destruct y_vals; rewrite ?lookup_insert_ne by done;
      by rewrite lookup_insert_eq. }
  assert (f_dict !! mIM.y_ = y_vals) as Hy.
  { unfold f_dict. destruct y_vals; [by rewrite lookup_insert_eq|].
    by rewrite !lookup_insert_ne by done. }
  assert (forall i, f_dict !! mIM.det_remove i = None) as Hd.
  { intros i. unfold f_dict. destruct y_vals; by rewrite !lookup_insert_ne by done. }
  clearbody f_dict.
  destruct removal as [vs|].
  - destruct (decide (length vs = 3%nat)) as [Hlen|Hlen].
    + destruct vs as [|v0 [|v1 [|v2 [|]]]]; try discriminate.
      rewrite feed_det_remove_three. split; [|split].
      * split; [by intros [e ?]|]. by intros (vs & [= <-] & Hne).
      * by intros e.
      * intros fd [= <-].
        rewrite !lookup_insert_ne by done.
        split; [done|]. split; [done|]. split; [done|]. split.
        -- intros [|[|[|i]]] Hi; [| | |lia].
           ++ by rewrite !lookup_insert_ne by done; rewrite lookup_insert_eq.
           ++ by rewrite lookup_insert_ne by done; rewrite lookup_insert_eq.
           ++ by rewrite lookup_insert_eq.
        -- intros i Hi. by rewrite !lookup_insert_ne by (intros [=]; lia).
    + rewrite feed_det_remove_wrong_length by done. split; [|split].
      * split; [by exists vs|by exists ValueError].
      * by intros e [= <-].
      * by intros fd.
  - rewrite feed_det_remove_default. split; [|split].
    + split; [by intros [e ?]|by intros (vs & [=] & _)].
    + by intros e.
    + intros fd [= <-].
      rewrite !lookup_insert_ne by done.
      split; [done|]. split; [done|]. split; [done|]. split.
      * intros [|[|[|i]]] Hi; [| | |lia].
        -- by rewrite !lookup_insert_ne by done; rewrite lookup_insert_eq.
        -- by rewrite lookup_insert_ne by done; rewrite lookup_insert_eq.
        -- by rewrite lookup_insert_eq.
      * intros i Hi. by rewrite !lookup_insert_ne by (intros [=]; lia).
Qed.

(** X5: the removal placeholders of different layers have different names:
    [name_det_remove] is injective, and the three placeholders of the model
    are named remove_0, remove_1 and remove_2. *)
Theorem X5_name_det_remove_injective (i j : nat) :
  (mIM.name_det_remove i = mIM.name_det_remove j <-> i = j)
  ∧ mIM.name_det_remove <$> seq 0 mIM.N_HIDDEN = ["remove_0"; "remove_1"; "remove_2"].
Proof.
  split; [|by vm_compute]. split; [|by intros ->].
  unfold mIM.name_det_remove. intros H%string_app_inj.
  by apply (inj pretty).
Qed.


(** ** trainingGround.py: more on the ranks *)

Lemma index_of_lookup x u : x ∈ u -> u !! tG.index_of x u = Some x.
Proof.
  induction u as [|y u IH]; intros Hx; [by apply elem_of_nil in Hx|].
  cbn [tG.index_of]. destruct (decide (x = y)) as [->|Hne]; [done|].
  apply elem_of_cons in Hx as [?|Hx]; [done|]. by apply IH.
Qed.

(** X6: [np.unique(ar, return_inverse=True)] as the loop uses it: the unique
    values are strictly increasing and are exactly the values of [ar], and
    the inverse indices reconstruct [ar] from them; so every rank is below the
    number of distinct values of the row. *)
Theorem X6_np_unique_reconstructs (ar : list Qc) :
  StronglySorted Qclt (tG.np_unique ar)
  ∧ (forall x, x ∈ tG.np_unique ar <-> x ∈ ar)
  ∧ length (tG.np_unique_inverse ar) = length ar
  ∧ (forall i x, ar !! i = Some x ->
       exists k, tG.np_unique_inverse ar !! i = Some k
                 ∧ tG.np_unique ar !! k = Some x
                 ∧ (k < length (tG.np_unique ar))%nat).
Proof.
  split; [apply np_unique_sorted|]. split; [apply elem_of_np_unique|].
  split; [unfold tG.np_unique_inverse; by rewrite length_fmap|].
  intros i x Hi. exists (tG.index_of x (tG.np_unique ar)).
  assert (tG.np_unique ar !! tG.index_of x (tG.np_unique ar) = Some x) as Hk.
  { apply index_of_lookup, elem_of_np_unique. by eapply list_elem_of_lookup_2. }
  split; [|split; [done|by eapply lookup_lt_Some]].
  unfold tG.np_unique_inverse. by rewrite list_lookup_fmap, Hi.
Qed.

(** Two rows are ordered alike when they have the same length and any two
    positions compare the same way in both. *)
Definition same_order (a b : list Qc) : Prop :=
  length a = length b
  ∧ forall i j x x' y y',
      a !! i = Some x -> a !! j = Some x' ->
      b !! i = Some y -> b !! j = Some y' ->
      (x' < x <-> y' < y).

Lemma filter_length_le {A} (P Q : A -> Prop) `{!forall x, Decision (P x)}
    `{!forall x, Decision (Q x)} (l : list A) :
  (forall x, P x -> Q x) -> (length (filter P l) <= length (filter Q l))%nat.
Proof.
  intros HPQ. induction l as [|x l IH]; [done|].
  rewrite !filter_cons. destruct (decide (P x)) as [HP|HP].
  - rewrite decide_True by auto. cbn [length]. lia.
  - destruct (decide (Q x)); cbn [length]; lia.
Qed.

Lemma filter_length_lt {A} (P Q : A -> Prop) `{!forall x, Decision (P x)}
    `{!forall x, Decision (Q x)} (l : list A) z :
  (forall x, P x -> Q x) -> z ∈ l -> Q z -> ¬ P z ->
  (length (filter P l) < length (filter Q l))%nat.
Proof.
  intros HPQ Hz HQ HP. induction l as [|x l IH]; [by apply elem_of_nil in Hz|].
  rewrite !filter_cons. apply elem_of_cons in Hz as [<-|Hz].
  - rewrite decide_False, decide_True by done. cbn [length].
    pose proof (filter_length_le P Q l HPQ). lia.
  - specialize (IH Hz). destruct (decide (P x)) as [HPx|HPx].
    + rewrite decide_True by auto. cbn [length]. lia.
    + destruct (decide (Q x)); cbn [length]; lia.
Qed.

Lemma length_remove_dups_filter (ar : list Qc) (x : Qc) :
  length (remove_dups (filter (fun y => y < x) ar)) =
  length (filter (fun y => y < x) (tG.np_unique ar)).
Proof.
  apply Permutation_length, NoDup_Permutation.
  - apply NoDup_remove_dups.
  - apply NoDup_filter, sorted_NoDup, np_unique_sorted.
  - intros y. rewrite elem_of_remove_dups, !list_elem_of_filter.
    by rewrite elem_of_np_unique.
Qed.

(** The dense rank is strictly monotone on the values of the row. *)
Lemma dense_rank_lt ar x x' :
  x ∈ ar -> x' ∈ ar ->
  (x' < x <-> (tG.dense_rank ar x' < tG.dense_rank ar x)%nat).
Proof.
  intros Hx Hx'. unfold tG.dense_rank. rewrite !length_remove_dups_filter. split.
  - intros Hlt. apply (filter_length_lt _ _ _ x').
    + intros y Hy. by apply (Qclt_trans _ x').
    + by apply elem_of_np_unique.
    + done.
    + apply Qclt_irrefl.
  - intros Hlt. destruct (Qclt_le_dec x' x) as [|Hle]; [done|]. exfalso.
    assert (length (filter (fun y => (y < x)%Qc) (tG.np_unique ar))
            <= length (filter (fun y => (y < x')%Qc) (tG.np_unique ar)))%nat; [|lia].
    apply filter_length_le. intros y Hy. by apply (Qclt_le_trans _ x).
Qed.

(** Pairs whose components are tied together have as many distinct first as
    distinct second components. *)
Lemma length_remove_dups_pairs (l : list (Qc * Qc)) :
  (forall p q, p ∈ l -> q ∈ l -> (p.1 = q.1 <-> p.2 = q.2)) ->
  length (remove_dups (fst <$> l)) = length (remove_dups (snd <$> l)).
Proof.
  induction l as [|p l IH]; intros Htied; [done|].
  assert (length (remove_dups (l.*1)) = length (remove_dups (l.*2))) as Hl.
  { apply IH. intros q r Hq Hr. apply Htied; by apply list_elem_of_further. }
  cbn [fmap list_fmap remove_dups].
  destruct (decide_rel elem_of p.1 (l.*1)) as [H1|H1],
           (decide_rel elem_of p.2 (l.*2)) as [H2|H2]; cbn [length]; try lia.
  - exfalso. apply H2. apply list_elem_of_fmap in H1 as (q & Hq1 & Hq).
    apply list_elem_of_fmap. exists q. split; [|done].
    apply (Htied p q); [apply list_elem_of_here|by apply list_elem_of_further|done].
  - exfalso. apply H1. apply list_elem_of_fmap in H2 as (q & Hq2 & Hq).
    apply list_elem_of_fmap. exists q. split; [|done].
    apply (Htied p q); [apply list_elem_of_here|by apply list_elem_of_further|done].
Qed.

Lemma filter_zip_fst {A B} (P : A -> Prop) `{!forall x, Decision (P x)}
    (a : list A) (b : list B) :
  length a = length b ->
  filter P a = fst <$> filter (fun p => P p.1) (zip a b).
Proof.
  revert b. induction a as [|x a IH]; intros [|y b] Hlen; try done.
  cbn [zip zip_with]. rewrite !filter_cons. cbn [fst].
  destruct (decide (P x)); cbn [fmap list_fmap]; rewrite (IH b) by (by injection Hlen);
    done.
Qed.

Lemma filter_zip_snd {A B} (P : B -> Prop) `{!forall x, Decision (P x)}
    (a : list A) (b : list B) :
  length a = length b ->
  filter P b = snd <$> filter (fun p => P p.2) (zip a b).
Proof.
  revert b. induction a as [|x a IH]; intros [|y b] Hlen; try done.
  cbn [zip zip_with]. rewrite !filter_cons. cbn [snd].
  destruct (decide (P y)); cbn [fmap list_fmap]; rewrite (IH b) by (by injection Hlen);
    done.
Qed.

Lemma filter_ext_elem {A} (P Q : A -> Prop) `{!forall x, Decision (P x)}
    `{!forall x, Decision (Q x)} (l : list A) :
  (forall x, x ∈ l -> (P x <-> Q x)) -> filter P l = filter Q l.
Proof.
  induction l as [|x l IH]; intros HPQ; [done|].
  rewrite !filter_cons, IH by (intros; apply HPQ; by apply list_elem_of_further).
  destruct (decide (P x)) as [HP|HP].
  - by rewrite decide_True by (by apply HPQ; [apply list_elem_of_here|]).
  - rewrite decide_False; [done|]. intros HQ. apply HP.
    by apply HPQ; [apply list_elem_of_here|].
Qed.

Lemma elem_of_zip_lookup {A B} (a : list A) (b : list B) p :
  p ∈ zip a b -> exists i, a !! i = Some p.1 ∧ b !! i = Some p.2.
Proof.
  intros Hp. apply list_elem_of_lookup in Hp as [i Hi]. exists i.
  apply lookup_zip_with_Some in Hi as (x & y & -> & Hx & Hy). done.
Qed.

Lemma Qc_eq_not_lt (x y : Qc) : x = y <-> ¬ x < y ∧ ¬ y < x.
Proof.
  split.
  - intros ->. split; apply Qclt_irrefl.
  - intros [H1 H2]. apply Qcle_antisym; by apply Qcnot_lt_le.
Qed.

(** Rows ordered alike have the same dense ranks. *)
Lemma same_order_dense_rank a b i x y :
  same_order a b -> a !! i = Some x -> b !! i = Some y ->
  tG.dense_rank a x = tG.dense_rank b y.
Proof.
  intros [Hlen Hord] Hx Hy. unfold tG.dense_rank.
  rewrite (filter_zip_fst _ a b Hlen), (filter_zip_snd _ a b Hlen).
  assert (filter (fun p : Qc * Qc => p.1 < x) (zip a b) =
          filter (fun p : Qc * Qc => p.2 < y) (zip a b)) as ->.
  { apply filter_ext_elem. intros p Hp.
    apply elem_of_zip_lookup in Hp as (j & Hj1 & Hj2).
    by apply (Hord i j). }
  apply length_remove_dups_pairs. intros p q Hp Hq.
  apply list_elem_of_filter in Hp as [_ Hp]. apply list_elem_of_filter in Hq as [_ Hq].
  apply elem_of_zip_lookup in Hp as (j & Hj1 & Hj2).
  apply elem_of_zip_lookup in Hq as (k & Hk1 & Hk2).
  rewrite !Qc_eq_not_lt.
  rewrite (Hord k j _ _ _ _ Hk1 Hj1 Hk2 Hj2), (Hord j k _ _ _ _ Hj1 Hk1 Hj2 Hk2).
  done.
Qed.

Lemma same_order_ranks a b :
  same_order a b <->
  length a = length b ∧ tG.np_unique_inverse a = tG.np_unique_inverse b.
Proof.
  rewrite !np_unique_inverse_dense. split.
  - intros Hab. split; [apply Hab|].
    apply list_eq. intros i. rewrite !list_lookup_fmap.
    destruct (a !! i) as [x|] eqn:Hx, (b !! i) as [y|] eqn:Hy; cbn.
    + f_equal. by apply (same_order_dense_rank a b i).
    + apply lookup_lt_Some in Hx. apply lookup_ge_None in Hy.
      destruct Hab as [Hlen _]. lia.
    + apply lookup_lt_Some in Hy. apply lookup_ge_None in Hx.
      destruct Hab as [Hlen _]. lia.
    + done.
  - intros [Hlen Hranks]. split; [done|]. intros i j x x' y y' Hi Hj Hi' Hj'.
    assert (tG.dense_rank a x = tG.dense_rank b y) as Hxy.
    { apply (f_equal (fun l => l !! i)) in Hranks.
      rewrite !list_lookup_fmap, Hi, Hi' in Hranks. by injection Hranks. }
    assert (tG.dense_rank a x' = tG.dense_rank b y') as Hxy'.
    { apply (f_equal (fun l => l !! j)) in Hranks.
      rewrite !list_lookup_fmap, Hj, Hj' in Hranks. by injection Hranks. }
    rewrite (dense_rank_lt a x x'), (dense_rank_lt b y y')
      by (by eapply list_elem_of_lookup_2).
    by rewrite Hxy, Hxy'.
Qed.

Lemma sum_abs_diff_nonneg (l k : list nat) :
  (0 <= tG.sum_Z (zip_with (fun a b => Z.abs (Z.of_nat a - Z.of_nat b)) l k))%Z.
Proof.
  revert k. induction l as [|a l IH]; intros [|b k]; cbn [zip_with tG.sum_Z foldr];
    try done.
  specialize (IH k). unfold tG.sum_Z in IH. lia.
Qed.

Lemma sum_abs_diff_zero (l k : list nat) :
  length l = length k ->
  (tG.sum_Z (zip_with (fun a b => Z.abs (Z.of_nat a - Z.of_nat b)) l k) = 0%Z
   <-> l = k).
Proof.
  revert k. induction l as [|a l IH]; intros [|b k] Hlen; try done.
  cbn [zip_with tG.sum_Z foldr].
  pose proof (sum_abs_diff_nonneg l k) as Hnn. unfold tG.sum_Z in Hnn.
  specialize (IH k ltac:(by injection Hlen)). unfold tG.sum_Z in IH. split.
  - intros Hsum. f_equal; [lia|]. apply IH. lia.
  - intros [= -> ->]. rewrite (proj2 IH eq_refl). lia.
Qed.

Lemma sum_abs_diff_sym (l k : list nat) :
  tG.sum_Z (zip_with (fun a b => Z.abs (Z.of_nat a - Z.of_nat b)) l k) =
  tG.sum_Z (zip_with (fun a b => Z.abs (Z.of_nat a - Z.of_nat b)) k l).
Proof.
  revert k. induction l as [|a l IH]; intros [|b k]; cbn [zip_with tG.sum_Z foldr];
    try done.
  specialize (IH k). unfold tG.sum_Z in IH. lia.
Qed.

(** X7: for a target row and a predicted row of the same length, the rank
    difference of the sample is symmetric and never negative, and it is 0
    exactly when the prediction orders the options as the target does, ties
    included: any two positions compare the same way in both rows. *)
Theorem X7_rank_diff_zero_iff_same_order (real pred : list Qc) :
  length real = length pred ->
  tG.rank_diff real pred = tG.rank_diff pred real
  ∧ (0 <= tG.rank_diff real pred)%Z
  ∧ (tG.rank_diff real pred = 0%Z <->
     forall i j x x' y y',
       real !! i = Some x -> real !! j = Some x' ->
       pred !! i = Some y -> pred !! j = Some y' ->
       (x' < x <-> y' < y)).
Proof.
  intros Hlen. unfold tG.rank_diff. split; [apply sum_abs_diff_sym|].
  split; [apply sum_abs_diff_nonneg|].
  rewrite sum_abs_diff_zero
    by (unfold tG.np_unique_inverse; by rewrite !length_fmap).
  pose proof (same_order_ranks real pred) as Hiff. unfold same_order in Hiff.
  tauto.
Qed.

(** The target [1,1,2,3] and the prediction [5,5,7,9] are ordered alike: the
    rank difference is 0; against [1,2,3,4] it is 3 from either side. *)
Lemma X7_rank_diff_zero_iff_same_order_witness :
  let real := Qc_of_Z <$> [1; 1; 2; 3]%Z in
  let pred := Qc_of_Z <$> [1; 2; 3; 4]%Z in
  let alike := Qc_of_Z <$> [5; 5; 7; 9]%Z in
  tG.rank_diff real pred = tG.rank_diff pred real
  ∧ (forall i j x x' y y',
       real !! i = Some x -> real !! j = Some x' ->
       alike !! i = Some y -> alike !! j = Some y' ->
       (x' < x <-> y' < y)).
Proof.
  intros real pred alike. split.
  - by destruct (X7_rank_diff_zero_iff_same_order real pred eq_refl) as [Hsym _].
  - destruct (X7_rank_diff_zero_iff_same_order real alike eq_refl)
      as (_ & _ & Hzero).
    apply Hzero. by vm_compute.
Defined.

Lemma strictly_increasing_same_order (f : Qc -> Qc) (a : list Qc) :
  (forall x y, x < y -> f x < f y) -> same_order a (f <$> a).
Proof.
  intros Hf. split; [by rewrite length_fmap|].
  intros i j x x' y y' Hi Hj. rewrite !list_lookup_fmap, Hi, Hj.
  intros [= <-] [= <-]. split; [apply Hf|].
  intros Hlt. destruct (Qclt_le_dec x' x) as [|Hle]; [done|]. exfalso.
  apply Qcle_lt_or_eq in Hle as [Hle| ->].
  - apply (Qclt_irrefl (f x)). apply (Qclt_trans _ (f x')); [by apply Hf|done].
  - by apply (Qclt_irrefl (f x')).
Qed.

(** X8: the rank difference depends only on the order of the values: applying
    a strictly increasing function to the target values, and another one to
    the predicted values (a change of units or the standardization of the
    targets, say), leaves it unchanged. *)
Theorem X8_rank_diff_order_invariant (f g : Qc -> Qc) (real pred : list Qc) :
  (forall x y, x < y -> f x < f y) ->
  (forall x y, x < y -> g x < g y) ->
  tG.rank_diff (f <$> real) (g <$> pred) = tG.rank_diff real pred.
Proof.
  intros Hf Hg. unfold tG.rank_diff.
  destruct (proj1 (same_order_ranks _ _) (strictly_increasing_same_order f real Hf))
    as [_ <-].
  destruct (proj1 (same_order_ranks _ _) (strictly_increasing_same_order g pred Hg))
    as [_ <-].
  done.
Qed.

(** Targets doubled and predictions tripled: the rank difference of
    [1,1,2,3] against [1,2,3,4] stays 3. *)
Lemma X8_rank_diff_order_invariant_witness :
  tG.rank_diff ((fun x => Qc_of_Z 2 * x) <$> (Qc_of_Z <$> [1; 1; 2; 3]%Z))
               ((fun x => Qc_of_Z 3 * x) <$> (Qc_of_Z <$> [1; 2; 3; 4]%Z)) = 3%Z.
Proof.
  rewrite (X8_rank_diff_order_invariant (fun x => Qc_of_Z 2 * x)
             (fun x => Qc_of_Z 3 * x)).
  - by vm_compute.
  - intros x y Hxy. rewrite !(Qcmult_comm (Qc_of_Z 2)).
    by apply Qcmult_lt_compat_r.
  - intros x y Hxy. rewrite !(Qcmult_comm (Qc_of_Z 3)).
    by apply Qcmult_lt_compat_r.
Defined.


(** *** The rank error is bounded *)

Lemma Qc_of_Z_lt a b : (a < b)%Z <-> Qc_of_Z a < Qc_of_Z b.
Proof.
  unfold Qc_of_Z, Qclt. cbn [this Q2Qc]. rewrite !Qred_correct.
  unfold Qlt. cbn. lia.
Qed.

(** The ranks of a row, read as values, are ordered as the row is. *)
Lemma same_order_own_ranks (a : list Qc) :
  same_order a (Qc_of_nat <$> tG.np_unique_inverse a).
Proof.
  rewrite np_unique_inverse_dense. split; [by rewrite !length_fmap|].
  intros i j x x' y y' Hi Hj. rewrite !list_lookup_fmap, Hi, Hj.
  intros [= <-] [= <-]. unfold Qc_of_nat. rewrite <- Qc_of_Z_lt, <- Nat2Z.inj_lt.
  apply dense_rank_lt; by eapply list_elem_of_lookup_2.
Qed.

(** The vectors of four ranks that [np.unique] can return. *)
Definition is_rank_vector (r : list nat) : bool :=
  bool_decide (tG.np_unique_inverse (Qc_of_nat <$> r) = r).

Definition sum_abs_diff (r s : list nat) : Z :=
  tG.sum_Z (zip_with (fun a b => Z.abs (Z.of_nat a - Z.of_nat b)) r s).

Definition forall_lt4 (P : nat -> bool) : bool := P 0%nat && P 1%nat && P 2%nat && P 3%nat.

Definition forall_vectors4 (P : list nat -> bool) : bool :=
  forall_lt4 (fun r0 => forall_lt4 (fun r1 => forall_lt4 (fun r2 =>
    forall_lt4 (fun r3 => P [r0; r1; r2; r3])))).

Lemma forall_lt4_spec P r : forall_lt4 P = true -> (r < 4)%nat -> P r = true.
Proof.
  unfold forall_lt4. rewrite !andb_true_iff. intros [[[H0 H1] H2] H3] Hr.
  destruct r as [|[|[|[|r]]]]; [done..|lia].
Qed.

Lemma forall_vectors4_spec P r :
  forall_vectors4 P = true -> length r = 4%nat -> Forall (fun k => (k < 4)%nat) r ->
  P r = true.
Proof.
  intros HP Hlen Hr. destruct r as [|r0 [|r1 [|r2 [|r3 [|]]]]]; try discriminate.
  apply Forall_cons in Hr as [H0 Hr]. apply Forall_cons in Hr as [H1 Hr].
  apply Forall_cons in Hr as [H2 Hr]. apply Forall_cons in Hr as [H3 _].
  unfold forall_vectors4 in HP.
  apply (forall_lt4_spec _ r0) in HP; [|done].
  apply (forall_lt4_spec _ r1) in HP; [|done].
  apply (forall_lt4_spec _ r2) in HP; [|done].
  by apply (forall_lt4_spec _ r3) in HP.
Qed.

(** Checked over all pairs of rank vectors of four options. *)
Lemma rank_vectors_differ_by_8 :
  forall_vectors4 (fun r =>
    negb (is_rank_vector r)
    || forall_vectors4 (fun s =>
         negb (is_rank_vector s) || bool_decide (sum_abs_diff r s <= 8)%Z)) = true.
Proof. vm_compute. reflexivity. Qed.

Lemma np_unique_length_le ar : (length (tG.np_unique ar) <= length ar)%nat.
Proof.
  unfold tG.np_unique. induction ar as [|x ar IH]; cbn [foldr length]; [done|].
  generalize dependent (foldr tG.insert_unique [] ar). intros u Hu.
  assert (length (tG.insert_unique x u) <= S (length u))%nat; [|lia].
  clear. induction u as [|y u IH]; cbn [tG.insert_unique length]; [done|].
  destruct (decide (x < y)); [cbn [length]; lia|].
  destruct (decide (x = y)); cbn [length]; lia.
Qed.

Lemma np_unique_inverse_bound ar :
  Forall (fun k => (k < length ar)%nat) (tG.np_unique_inverse ar).
Proof.
  apply Forall_forall. intros k Hk.
  apply list_elem_of_lookup in Hk as [i Hi].
  unfold tG.np_unique_inverse in Hi. rewrite list_lookup_fmap in Hi.
  destruct (ar !! i) as [x|] eqn:Hx; [|done]. injection Hi as <-.
  pose proof (np_unique_length_le ar).
  assert (tG.index_of x (tG.np_unique ar) < length (tG.np_unique ar))%nat; [|lia].
  eapply lookup_lt_Some, index_of_lookup, elem_of_np_unique.
  by eapply list_elem_of_lookup_2.
Qed.

Lemma np_unique_inverse_is_rank_vector ar :
  is_rank_vector (tG.np_unique_inverse ar) = true.
Proof.
  unfold is_rank_vector. apply bool_decide_eq_true_2. symmetry.
  apply same_order_ranks, same_order_own_ranks.
Qed.

Lemma rank_diff_le_8 (real pred : list Qc) :
  length real = 4%nat -> length pred = 4%nat ->
  (tG.rank_diff real pred <= 8)%Z.
Proof.
  intros Hr Hp. unfold tG.rank_diff.
  pose proof rank_vectors_differ_by_8 as Hall.
  apply (forall_vectors4_spec _ (tG.np_unique_inverse real)) in Hall.
  - cbn beta in Hall.
    rewrite np_unique_inverse_is_rank_vector in Hall. cbn [negb orb] in Hall.
    apply (forall_vectors4_spec _ (tG.np_unique_inverse pred)) in Hall.
    + cbn beta in Hall.
      rewrite np_unique_inverse_is_rank_vector in Hall. cbn [negb orb] in Hall.
      by apply bool_decide_eq_true_1 in Hall.
    + unfold tG.np_unique_inverse. by rewrite length_fmap.
    + rewrite <- Hp. apply np_unique_inverse_bound.
  - unfold tG.np_unique_inverse. by rewrite length_fmap.
  - rewrite <- Hr. apply np_unique_inverse_bound.
Qed.

Lemma sum_rank_diff_bounds (ybatch pred : list (list Qc)) :
  Forall (fun row => length row = 4%nat) ybatch ->
  Forall (fun row => length row = 4%nat) pred ->
  (0 <= tG.sum_Z (zip_with tG.rank_diff ybatch pred)
   <= 8 * Z.of_nat (length ybatch))%Z.
Proof.
  intros Hy. revert pred. induction Hy as [|row ybatch Hrow Hy IH]; intros pred Hp.
  - cbn. lia.
  - destruct Hp as [|p pred Hprow Hp]; [cbn; lia|].
    cbn [zip_with tG.sum_Z foldr length].
    specialize (IH pred Hp). unfold tG.sum_Z in IH.
    pose proof (rank_diff_le_8 row p Hrow Hprow).
    pose proof (sum_abs_diff_nonneg (tG.np_unique_inverse row) (tG.np_unique_inverse p)).
    unfold tG.rank_diff in *. lia.
Qed.

(** X9: for a batch of 50 target rows and 50 predicted rows of four options
    each, the rank error is computed (nothing is raised) and lies between 0
    and 8; no sample has a rank difference above 8. *)
Theorem X9_rank_error_bounds (ybatch pred : list (list Qc)) :
  length ybatch = 50%nat -> length pred = 50%nat ->
  Forall (fun row => length row = 4%nat) ybatch ->
  Forall (fun row => length row = 4%nat) pred ->
  (exists re, tG.rank_error ybatch pred = Ok re ∧ 0 <= re ∧ re <= Qc_of_Z 8)
  ∧ Forall (fun d => (0 <= d <= 8)%Z) (zip_with tG.rank_diff ybatch pred).
Proof.
  intros Hly Hlp Hy Hp. split.
  - eexists. split; [by apply rank_error_spec|].
    pose proof (sum_rank_diff_bounds ybatch pred Hy Hp) as [Hlo Hhi].
    rewrite Hly in Hhi.
    assert (0 < Qc_of_nat 50) as H50 by (apply Qc_of_nat_pos; lia).
    split.
    + apply Qcdiv_nonneg; [|done].
      change 0 with (Qc_of_Z 0). apply (proj1 (Qc_of_Z_le _ _)). exact Hlo.
    + apply (Qcmult_lt_0_le_reg_r _ _ _ H50).
      rewrite (Qcmult_comm (_ / _)), Qcmult_div_r
        by (intros H; rewrite H in H50; by apply (Qclt_not_eq 0 0)).
      replace (Qc_of_Z 8 * Qc_of_nat 50) with (Qc_of_Z 400)
        by (apply Qc_is_canon; reflexivity).
      apply (proj1 (Qc_of_Z_le _ _)). lia.
  - apply Forall_forall. intros d Hd.
    apply list_elem_of_lookup in Hd as [i Hi].
    apply lookup_zip_with_Some in Hi as (row & p & -> & Hrow & Hprow).
    split.
    + apply sum_abs_diff_nonneg.
    + apply rank_diff_le_8.
      * by apply (proj1 (Forall_forall _ _) Hy row), (list_elem_of_lookup_2 _ i).
      * by apply (proj1 (Forall_forall _ _) Hp p), (list_elem_of_lookup_2 _ i).
Qed.

(** Fifty samples with fully reversed ranks reach the bound. *)
Lemma X9_rank_error_bounds_witness :
  exists re,
    tG.rank_error (replicate 50 (Qc_of_Z <$> [1; 2; 3; 4]%Z))
                  (replicate 50 (Qc_of_Z <$> [4; 3; 2; 1]%Z)) = Ok re
    ∧ 0 <= re ∧ re <= Qc_of_Z 8.
Proof.
  apply (X9_rank_error_bounds (replicate 50 (Qc_of_Z <$> [1; 2; 3; 4]%Z))
           (replicate 50 (Qc_of_Z <$> [4; 3; 2; 1]%Z)));
    try apply length_replicate; by apply Forall_replicate.
Defined.


(** *** Batches with too few or too many rows *)

Lemma sum_rank_diffs_from_short ybatch pred m : forall k acc,
  (k <= length ybatch `min` length pred < k + m)%nat ->
  tG.sum_rank_diffs_from (seq k m) ybatch pred acc = Raise IndexError.
Proof.
  induction m as [|m IH]; intros k acc Hk; [lia|].
  cbn [seq tG.sum_rank_diffs_from]. unfold getitem.
  destruct (ybatch !! k) as [y|] eqn:Hy; [|reflexivity]. cbn [mbind result_bind].
  destruct (pred !! k) as [p|] eqn:Hp; [|reflexivity]. cbn [mbind result_bind].
  apply lookup_lt_Some in Hy. apply lookup_lt_Some in Hp.
  apply IH. lia.
Qed.

(** X10: the rank error reads the rows 0..49 of both arrays: when the
    targets or the predictions have fewer than 50 rows it raises
    [IndexError], and rows from the 50th on are never read.  (For arrays of
    four columns, the shape of [y_] and of [m_out].) *)
Theorem X10_rank_error_rows (ybatch pred : list (list Qc)) :
  Forall (fun row => length row = 4%nat) ybatch ->
  Forall (fun row => length row = 4%nat) pred ->
  ((length ybatch < 50)%nat ∨ (length pred < 50)%nat ->
   tG.rank_error ybatch pred = Raise IndexError)
  ∧ ((50 <= length ybatch)%nat -> (50 <= length pred)%nat ->
     tG.rank_error ybatch pred =
       Ok (Qc_of_Z (tG.sum_Z (zip_with tG.rank_diff (take 50 ybatch) (take 50 pred)))
           / Qc_of_nat 50)
     ∧ tG.rank_error ybatch pred = tG.rank_error (take 50 ybatch) (take 50 pred)).
Proof.
  intros _ _. split.
  - intros Hshort. unfold tG.rank_error, tG.sum_rank_diffs, tG.BATCHSIZE.
    rewrite sum_rank_diffs_from_short by lia. done.
  - intros Hy Hp.
    assert (tG.rank_error ybatch pred =
            Ok (Qc_of_Z (tG.sum_Z (zip_with tG.rank_diff (take 50 ybatch)
                                     (take 50 pred))) / Qc_of_nat 50)) as Hre.
    { unfold tG.rank_error, tG.sum_rank_diffs, tG.BATCHSIZE.
      rewrite sum_rank_diffs_from_spec by lia. cbn [mbind result_bind drop].
      by rewrite Qcplus_0_l. }
    split; [done|]. rewrite Hre. symmetry. apply rank_error_spec.
    + rewrite length_take. lia.
    + rewrite length_take. lia.
Qed.

(** A batch of 49 rows raises; a 51st row changes nothing. *)
Lemma X10_rank_error_rows_witness :
  let row := Qc_of_Z <$> [1; 2; 3; 4]%Z in
  let other := Qc_of_Z <$> [4; 3; 2; 1]%Z in
  tG.rank_error (replicate 49 row) (replicate 49 row) = Raise IndexError
  ∧ tG.rank_error (replicate 50 row ++ [other]) (replicate 50 row ++ [row]) =
    tG.rank_error (replicate 50 row) (replicate 50 row).
Proof.
  intros row other. split.
  - destruct (X10_rank_error_rows (replicate 49 row) (replicate 49 row))
      as [Hshort _]; [by apply Forall_replicate..|].
    apply Hshort. left. rewrite length_replicate. lia.
  - destruct (X10_rank_error_rows (replicate 50 row ++ [other])
                (replicate 50 row ++ [row])) as [_ Hlong].
    + apply Forall_app. split; [by apply Forall_replicate|by constructor].
    + apply Forall_app. split; [by apply Forall_replicate|by constructor].
    + destruct Hlong as [_ ->].
      * rewrite length_app, length_replicate. cbn. lia.
      * rewrite length_app, length_replicate. cbn. lia.
      * by rewrite !take_app_length' by (by rewrite length_replicate).
Defined.


(** ** mixedInputModel.py: the placeholders behind the output *)

Module Graph.

(** A tensor of the graph, kept as the placeholders it is computed from, in
    the order in which the construction of the graph meets them. *)
Definition tensor : Type := list mIM.placeholder.

(** [create_hidden_layer(name_sfx, prev_out, n_units, index)]: the units [h]
    are computed from [prev_out] and [det_remove[index]]. *)
Definition create_hidden_layer (prev_out : tensor) (index : nat) : tensor :=
  prev_out ++ [mIM.det_remove index].

(** [tf.nn.dropout(h, keep_prob)]. *)
Definition tf_nn_dropout (h : tensor) : tensor := h ++ [mIM.keep_prob].

(** [create_dense_layers(prev_out)]: the units of the last dense layer. *)
Definition create_dense_layers (prev_out : tensor) : tensor :=
  if decide (mIM.N_HIDDEN < 2)%nat then create_hidden_layer prev_out 0
  else
    let drop := foldl (fun drop l => tf_nn_dropout (create_hidden_layer drop l))
                  prev_out (seq 0 (mIM.N_HIDDEN - 1)) in
    create_hidden_layer drop (mIM.N_HIDDEN - 1).

(** [create_output(prev_out)]: [tf.add(tf.matmul(prev_out, w), b)]. *)
Definition create_output (prev_out : tensor) : tensor := prev_out.

(** The network: the convolution layer is computed from [x_in]. *)
Definition h_conv1_flat : tensor := [mIM.x_in].
Definition h_last : tensor := create_dense_layers h_conv1_flat.
Definition h_drop_last : tensor := tf_nn_dropout h_last.
Definition m_out : tensor := create_output h_drop_last.

(** [t.eval(feed_dict=...)] and [op.run(feed_dict=...)] in a session: every
    placeholder the tensor is computed from has to be fed,
    [InvalidArgumentError] otherwise (no placeholder of the model has a
    default).  The values fed are taken to have the declared shapes. *)
Definition fed (feed_dict : gmap mIM.placeholder mIM.ndarray) (t : tensor) : Prop :=
  Forall (fun p => is_Some (feed_dict !! p)) t.

Definition session_run (t : tensor) (feed_dict : gmap mIM.placeholder mIM.ndarray)
    : result unit :=
  if decide (fed feed_dict t) then Ok tt else Raise InvalidArgumentError.

End Graph.

(** ** trainingGround.py: the training loop *)

Module tGmain.

(** [mIM.KEEP_TRAIN = 0.5]. *)
Definition KEEP_TRAIN : fval := Fin (Q2Qc (1 # 2)).

(** The literals of the loop: [range(100000)], a checkpoint every 5000 steps
    and a line of output every 200 steps. *)
Definition N_STEPS : nat := 1000 * 100.
Definition SAVE_EVERY : nat := 50 * 100.
Definition PRINT_EVERY : nat := 200.

(** The loss [cur_l] evaluated in iteration [i]; its value depends on the
    batch and on the weights and is kept symbolic. *)
Inductive loss :=
| sq_loss_at (i : nat).

(** What the loop does to the session, the saver and the console; an
    evaluation is recorded when it has returned. *)
Inductive event :=
| saver_save (global_step : nat) (write_meta_graph : bool)
| print_saved
| training_batch (n : nat)
| sq_loss_eval (keep_prob : fval)
| m_out_eval (keep_prob : fval)
| print_step (i : nat) (cur_l : loss) (rank_loss : Qc)
| t_step_run (keep_prob : fval).

Record state := {
  train_losses : list loss;
  rank_errors : list Qc;
  trail : list event
}.

Definition initial_state : state :=
  {| train_losses := []; rank_errors := []; trail := [] |}.

Definition log (es : list event) (st : state) : state :=
  {| train_losses := train_losses st;
     rank_errors := rank_errors st;
     trail := trail st ++ es |}.

Section Loop.

(** [batch_data[0]], [batch_data[1]] and the value of [m_out] in iteration
    [i]. *)
Variable xbatch_at : nat -> mIM.ndarray.
Variables ybatch_at pred_at : nat -> list (list Qc).

(** [sq_loss] and [t_step] are built by [core.get_loss(y_, m_out)] and
    [core.create_train_step(total_loss)]; the module [core] is not among the
    sources, so the placeholders they are computed from are left open. *)
Variables sq_loss t_step : Graph.tensor.

(** [{mIM.x_in: xbatch, mIM.y_: ybatch, mIM.keep_prob: keep}]. *)
Definition feed (i : nat) (keep : fval) : gmap mIM.placeholder mIM.ndarray :=
  <[mIM.keep_prob := mIM.array0 keep]>
    (<[mIM.y_ := mIM.array2 (lift2 (ybatch_at i))]>
       (<[mIM.x_in := xbatch_at i]> ∅)).

(** The body of [for i in range(100000)]:
    <<
    if i == 0: saver.save(sess, "mixedInputModel", global_step=i)
    if i != 0 and i % 5000 == 0:
        saver.save(sess, "mixedInputModel", global_step=i, write_meta_graph=False)
    batch_data = trainingData.training_batch(BATCHSIZE)
    cur_l = mIM.sq_loss.eval(feed_dict={mIM.x_in: xbatch, mIM.y_: ybatch, mIM.keep_prob: 1.0})
    pred = mIM.m_out.eval(feed_dict={mIM.x_in: xbatch, mIM.y_: ybatch, mIM.keep_prob: 1.0})
    >>
    then the rank error, the two logs, a line of output every 200 steps and
    <<
    mIM.t_step.run(feed_dict={mIM.x_in: xbatch, mIM.y_: ybatch, mIM.keep_prob: mIM.KEEP_TRAIN})
    >>
    The calls of the saver and of the data set return; an evaluation returns
    or raises as [Graph.session_run] tells. *)
Definition body (i : nat) (st : state) : result unit * state :=
  let st := if decide (i = 0%nat)
            then log [saver_save i true; print_saved] st else st in
  let st := if decide (i ≠ 0%nat ∧ (i mod SAVE_EVERY = 0)%nat)
            then log [saver_save i false; print_saved] st else st in
  let st := log [training_batch tG.BATCHSIZE] st in
  match Graph.session_run sq_loss (feed i (Fin 1)) with
  | Raise e => (Raise e, st)
  | Ok _ =>
      let cur_l := sq_loss_at i in
      let st := log [sq_loss_eval (Fin 1)] st in
      match Graph.session_run Graph.m_out (feed i (Fin 1)) with
      | Raise e => (Raise e, st)
      | Ok _ =>
          let st := log [m_out_eval (Fin 1)] st in
          match tG.rank_error (ybatch_at i) (pred_at i) with
          | Raise e => (Raise e, st)
          | Ok re =>
              let st := {| train_losses := train_losses st ++ [cur_l];
                           rank_errors := rank_errors st ++ [re];
                           trail := trail st |} in
              let st := if decide (i mod PRINT_EVERY = 0)%nat
                        then log [print_step i cur_l re] st else st in
              match Graph.session_run t_step (feed i KEEP_TRAIN) with
              | Raise e => (Raise e, st)
              | Ok _ => (Ok tt, log [t_step_run KEEP_TRAIN] st)
              end
          end
      end
  end.

Fixpoint for_range (ixs : list nat) (st : state) : result unit * state :=
  match ixs with
  | [] => (Ok tt, st)
  | i :: ixs' =>
      match body i st with
      | (Ok _, st') => for_range ixs' st'
      | (Raise e, st') => (Raise e, st')
      end
  end.

(** [for i in range(n): <body>], from empty logs. *)
Definition training_loop (n : nat) : result unit * state :=
  for_range (seq 0 n) initial_state.

Definition main : result unit * state := training_loop N_STEPS.

End Loop.

(** The checkpoints written, each with its step and whether the graph
    definition was written with it. *)
Definition checkpoints (es : list event) : list (nat * bool) :=
  omap (fun e => match e with saver_save g b => Some (g, b) | _ => None end) es.

Definition is_t_step (e : event) : bool :=
  match e with t_step_run _ => true | _ => false end.

(** The number of training steps in a sequence of events. *)
Definition train_steps (es : list event) : nat := length (filter is_t_step es).

End tGmain.

(** The output of the model is computed from the input, the keep probability
    and the removal vectors of the three hidden layers. *)
Lemma Graph_m_out :
  Graph.m_out =
  [mIM.x_in; mIM.det_remove 0; mIM.keep_prob; mIM.det_remove 1; mIM.keep_prob;
   mIM.det_remove 2; mIM.keep_prob].
Proof. reflexivity. Qed.

(** The feed dictionary of the loop leaves the removal vectors out. *)
Lemma tG_feed_det_remove xbatch_at ybatch_at i keep index :
  tGmain.feed xbatch_at ybatch_at i keep !! mIM.det_remove index = None.
Proof. unfold tGmain.feed. by rewrite !lookup_insert_ne by done. Qed.

Lemma tG_m_out_not_fed xbatch_at ybatch_at i keep :
  Graph.session_run Graph.m_out (tGmain.feed xbatch_at ybatch_at i keep) =
  Raise InvalidArgumentError.
Proof.
  unfold Graph.session_run. rewrite decide_False; [done|].
  rewrite Graph_m_out. unfold Graph.fed. intros H. apply Forall_cons in H as [_ H].
  apply Forall_cons in H as [[a Ha] _]. by rewrite tG_feed_det_remove in Ha.
Qed.

(** The first iteration: the checkpoint of step 0 and the batch, then one of
    the two evaluations raises. *)
Lemma tG_first_iteration xbatch_at ybatch_at pred_at sq_loss t_step :
  let fed := bool_decide (Graph.fed (tGmain.feed xbatch_at ybatch_at 0 (Fin 1))
                            sq_loss) in
  tGmain.body xbatch_at ybatch_at pred_at sq_loss t_step 0 tGmain.initial_state =
  (Raise InvalidArgumentError,
   {| tGmain.train_losses := [];
      tGmain.rank_errors := [];
      tGmain.trail :=
        [tGmain.saver_save 0 true; tGmain.print_saved; tGmain.training_batch 50]
        ++ (if fed then [tGmain.sq_loss_eval (Fin 1)] else []) |}).
Proof.
  intros fed. unfold fed, tGmain.body. rewrite tG_m_out_not_fed.
  destruct (decide (0%nat = 0%nat)) as [_|?]; [|done].
  destruct (decide (0%nat ≠ 0%nat ∧ (0 mod tGmain.SAVE_EVERY = 0)%nat))
    as [[? _]|_]; [done|].
  unfold Graph.session_run.
  destruct (decide (Graph.fed _ sq_loss)) as [Hfed|Hfed].
  - by rewrite bool_decide_eq_true_2.
  - by rewrite bool_decide_eq_false_2.
Qed.

Lemma tG_training_loop_raises xbatch_at ybatch_at pred_at sq_loss t_step n :
  let fed := bool_decide (Graph.fed (tGmain.feed xbatch_at ybatch_at 0 (Fin 1))
                            sq_loss) in
  (0 < n)%nat ->
  tGmain.training_loop xbatch_at ybatch_at pred_at sq_loss t_step n =
  (Raise InvalidArgumentError,
   {| tGmain.train_losses := [];
      tGmain.rank_errors := [];
      tGmain.trail :=
        [tGmain.saver_save 0 true; tGmain.print_saved; tGmain.training_batch 50]
        ++ (if fed then [tGmain.sq_loss_eval (Fin 1)] else []) |}).
Proof.
  intros fed Hn. destruct n as [|n]; [lia|].
  unfold tGmain.training_loop. cbn [seq tGmain.for_range].
  by rewrite tG_first_iteration.
Qed.

(** The default removal vectors complete a dictionary that feeds [x_in] and
    [keep_prob]. *)
Lemma Graph_default_feed (m : gmap mIM.placeholder mIM.ndarray) :
  is_Some (m !! mIM.x_in) -> is_Some (m !! mIM.keep_prob) ->
  Graph.fed (<[mIM.det_remove 2 := mIM.np_ones 512]>
               (<[mIM.det_remove 1 := mIM.np_ones 512]>
                  (<[mIM.det_remove 0 := mIM.np_ones 512]> m))) Graph.m_out.
Proof.
  intros Hx Hk. rewrite Graph_m_out. unfold Graph.fed.
  repeat (apply Forall_cons; split); try done;
    try (by rewrite !lookup_insert_ne by done); eexists.
  - by rewrite !lookup_insert_ne by done; rewrite lookup_insert_eq.
  - by rewrite lookup_insert_ne by done; rewrite lookup_insert_eq.
  - by rewrite lookup_insert_eq.
Qed.

Lemma N_STEPS_pos : (0 < tGmain.N_STEPS)%nat.
Proof. unfold tGmain.N_STEPS. lia. Qed.

(** X11: the training loop of trainingGround.py does not get through its
    first iteration.  It feeds [x_in], [y_] and [keep_prob] only, while the
    output [m_out] is computed from the removal vectors of the three hidden
    layers as well: the evaluation of [m_out] raises [InvalidArgumentError]
    (unless the evaluation of the loss before it has raised it already).
    For every positive number of steps the loop raises this error in
    iteration 0, after the checkpoint of step 0 and the draw of the first
    batch: no loss and no rank error is logged and no training step is made.
    A dictionary made by [create_feed_dict] without removal vectors, as in
    the test loop of mixedInputModel.py, feeds all that [m_out] needs. *)
Theorem X11_training_loop_raises (xbatch_at : nat -> mIM.ndarray)
    (ybatch_at pred_at : nat -> list (list Qc)) (sq_loss t_step : Graph.tensor)
    (n : nat) :
  (0 < n)%nat ->
  let run := tGmain.training_loop xbatch_at ybatch_at pred_at sq_loss t_step n in
  (forall i keep,
     Graph.session_run Graph.m_out (tGmain.feed xbatch_at ybatch_at i keep) =
     Raise InvalidArgumentError)
  ∧ run.1 = Raise InvalidArgumentError
  ∧ tGmain.train_losses run.2 = []
  ∧ tGmain.rank_errors run.2 = []
  ∧ tGmain.train_steps (tGmain.trail run.2) = 0%nat
  ∧ (exists evals,
       tGmain.trail run.2 =
       [tGmain.saver_save 0 true; tGmain.print_saved; tGmain.training_batch 50]
       ++ evals
       ∧ (evals = [] ∨ evals = [tGmain.sq_loss_eval (Fin 1)]))
  ∧ (forall x_vals y_vals keep fd,
       mIM.create_feed_dict x_vals y_vals keep None = Ok fd ->
       Graph.session_run Graph.m_out fd = Ok tt).
Proof.
  intros Hn run. split; [intros i keep; apply tG_m_out_not_fed|].
  unfold run. rewrite tG_training_loop_raises by done. cbn [fst snd tGmain.train_losses
    tGmain.rank_errors tGmain.trail].
  do 3 (split; [done|]). split; [by case_bool_decide|]. split.
  - eexists. split; [done|]. case_bool_decide; [by right|by left].
  - intros x_vals y_vals keep fd. unfold mIM.create_feed_dict.
    rewrite feed_det_remove_default. intros [= <-].
    unfold Graph.session_run. rewrite decide_True; [done|].
    apply Graph_default_feed; destruct y_vals as [y|]; eexists.
    + by rewrite !lookup_insert_ne by done; rewrite lookup_insert_eq.
    + by rewrite lookup_insert_ne by done; rewrite lookup_insert_eq.
    + by rewrite lookup_insert_ne by done; rewrite lookup_insert_eq.
    + by rewrite lookup_insert_eq.
Qed.

(** The 100000 steps of the script, for a loss and a training step computed
    from [y_] and the output. *)
Lemma X11_training_loop_raises_witness :
  let xbatch_at := fun _ : nat => mIM.array4 [] in
  let ybatch_at := fun _ : nat => replicate 50 (Qc_of_Z <$> [1; 2; 3; 4]%Z) in
  let pred_at := fun _ : nat => replicate 50 (Qc_of_Z <$> [4; 3; 2; 1]%Z) in
  let sq_loss := mIM.y_ :: Graph.m_out in
  (tGmain.main xbatch_at ybatch_at pred_at sq_loss sq_loss).1 =
  Raise InvalidArgumentError.
Proof.
  intros xbatch_at ybatch_at pred_at sq_loss.
  destruct (X11_training_loop_raises xbatch_at ybatch_at pred_at sq_loss sq_loss
              tGmain.N_STEPS N_STEPS_pos) as (_ & Hrun & _).
  exact Hrun.
Defined.

(** X12: the only checkpoint the training loop writes is the one of step 0,
    with the graph definition, before any training step: the loop raises in
    its first iteration, so no checkpoint is written at the steps 5000,
    10000, ... *)
Theorem X12_only_checkpoint_is_step_0 (xbatch_at : nat -> mIM.ndarray)
    (ybatch_at pred_at : nat -> list (list Qc)) (sq_loss t_step : Graph.tensor)
    (n : nat) :
  let es := tGmain.trail
              (tGmain.training_loop xbatch_at ybatch_at pred_at sq_loss t_step n).2 in
  tGmain.checkpoints es = (if decide (n = 0%nat) then [] else [(0%nat, true)])
  ∧ (forall g, tGmain.saver_save g false ∉ es)
  ∧ (forall k g b, es !! k = Some (tGmain.saver_save g b) ->
       k = 0%nat ∧ g = 0%nat ∧ b = true ∧ tGmain.train_steps es = 0%nat)
  ∧ tGmain.checkpoints
      (tGmain.trail (tGmain.main xbatch_at ybatch_at pred_at sq_loss t_step).2)
    = [(0%nat, true)].
Proof.
  intros es.
  assert (tGmain.checkpoints
            (tGmain.trail (tGmain.main xbatch_at ybatch_at pred_at sq_loss t_step).2)
          = [(0%nat, true)]) as Hmain.
  { unfold tGmain.main. rewrite tG_training_loop_raises by apply N_STEPS_pos.
    cbn [snd tGmain.trail]. by case_bool_decide. }
  destruct n as [|n].
  - unfold es.
    change (tGmain.training_loop xbatch_at ybatch_at pred_at sq_loss t_step 0)
      with (@Ok unit tt, tGmain.initial_state).
    cbn [snd tGmain.trail tGmain.initial_state].
    split; [done|]. split; [intros g; apply not_elem_of_nil|].
    split; [by intros k g b|exact Hmain].
  - unfold es. rewrite tG_training_loop_raises by lia. cbn [snd tGmain.trail].
    rewrite decide_False by done.
    split; [by case_bool_decide|]. split; [|split; [|exact Hmain]].
    + intros g. case_bool_decide; cbn [app];
        rewrite !elem_of_cons, ?elem_of_nil; intuition discriminate.
    + intros k g b. case_bool_decide; cbn [app];
        (destruct k as [|k]; [by intros [= <- <-]|]);
        do 4 (destruct k as [|k]; [done|]); done.
Qed.


(** ** The retrain drivers: the evaluation log *)

(** The multiples of [s] below [n]: there are [ceil(n/s)] of them. *)
Lemma ceil_div_step s n :
  (0 < s)%nat ->
  ((S n + s - 1) / s = (n + s - 1) / s + (if decide (n mod s = 0) then 1 else 0))%nat
  ∧ (n mod s = 0 -> (n + s - 1) / s * s = n)%nat.
Proof.
  intros Hs.
  pose proof (Nat.div_mod_eq n s) as Hn.
  pose proof (Nat.mod_upper_bound n s ltac:(lia)) as Hr.
  set (q := (n / s)%nat) in *. set (r := (n mod s)%nat) in *.
  destruct (decide (r = 0%nat)) as [Hr0|Hr0].
  - assert ((n + s - 1) / s = q)%nat as ->
      by (symmetry; apply (Nat.div_unique _ _ _ (s - 1)); nia).
    assert ((S n + s - 1) / s = S q)%nat as ->
      by (symmetry; apply (Nat.div_unique _ _ _ 0); nia).
    split; [lia|nia].
  - assert ((n + s - 1) / s = S q)%nat as ->
      by (symmetry; apply (Nat.div_unique _ _ _ (r - 1)); nia).
    assert ((S n + s - 1) / s = S q)%nat as ->
      by (symmetry; apply (Nat.div_unique _ _ _ r); nia).
    split; [lia|done].
Qed.

Lemma multiples_below s n :
  (0 < s)%nat ->
  filter (fun g => g mod s = 0)%nat (seq 0 n) =
  (fun k => k * s)%nat <$> seq 0 ((n + s - 1) / s).
Proof.
  intros Hs. induction n as [|n IH].
  - by rewrite Nat.div_small by lia.
  - destruct (ceil_div_step s n Hs) as [Hstep Hmult].
    rewrite seq_S, filter_app, IH, Hstep. cbn [Nat.add seq app].
    rewrite filter_cons, filter_nil.
    destruct (decide (n mod s = 0)%nat) as [Hn|Hn].
    + rewrite seq_app, fmap_app. cbn [seq fmap list_fmap Nat.add].
      by rewrite Hmult.
    + by rewrite Nat.add_0_r, app_nil_r.
Qed.

Lemma eval_steps_multiples n :
  eval_steps 0 n = (fun k => k * 50)%nat <$> seq 0 ((n + 49) / 50).
Proof.
  unfold eval_steps, EVAL_TEST_EVERY. rewrite multiples_below by lia.
  by replace (n + 50 - 1)%nat with (n + 49)%nat by lia.
Qed.

Lemma finalize_events_logs sp st :
  create_test_rank_errors (test_errors st) ∈ finalize_events sp st true
  ∧ create_test_eval (test_steps st) ∈ finalize_events sp st true.
Proof.
  unfold finalize_events. rewrite !elem_of_app, !elem_of_cons. tauto.
Qed.

(** X13: a run of [retrain] that writes its error file logs one evaluation
    per multiple of 50 below the number of training steps: with [total] steps
    the file holds the steps 0, 50, 100, ..., ceil(total/50) of them, and as
    many rank errors, the k-th one measured at the k-th of those steps. *)
Theorem X13_evaluation_log (data_size : dataset -> nat) (save_path : string)
    (dl : droplist) (swap : bool) (tag : string) (w : world) :
  save_path +:+ "/losses.hdf5" ∉ files w ->
  let total := (data_size trainingData_1 / 32 + data_size trainingData_2 / 32)%nat in
  let steps := (fun k => k * 50)%nat <$> seq 0 ((total + 49) / 50) in
  let zf := new_events (Zf.retrain data_size save_path dl) w in
  let ce := new_events (Ce.retrain data_size save_path dl (Ce.shuffled swap) tag) w in
  length steps = ((total + 49) / 50)%nat
  ∧ (logged_steps zf = steps
     ∧ create_test_eval steps ∈ zf
     ∧ create_test_rank_errors (rank_error_at <$> steps) ∈ zf)
  ∧ (logged_steps ce = steps
     ∧ create_test_eval steps ∈ ce
     ∧ create_test_rank_errors (rank_error_at <$> steps) ∈ ce).
Proof.
  intros Hfresh total steps zf ce.
  assert (forall size_1 size_2 d1 d2 f,
            (size_1 / 32 + size_2 / 32)%nat = total ->
            let st := retrain_loops size_1 size_2 d1 d2 f dl in
            create_test_eval steps ∈ finalize_events save_path st true
            ∧ create_test_rank_errors (rank_error_at <$> steps)
              ∈ finalize_events save_path st true) as Hlogs.
  { intros size_1 size_2 d1 d2 f Htotal st.
    assert (test_steps st = steps ∧ test_errors st = rank_error_at <$> steps)
      as [Hsteps Herrors].
    { unfold st. rewrite retrain_loops_spec. cbn [test_errors test_steps].
      unfold BATCHSIZE. by rewrite Htotal, eval_steps_multiples. }
    destruct (finalize_events_logs save_path st) as [Herr Hev].
    by rewrite Hsteps in Hev; rewrite Herrors in Herr. }
  split; [unfold steps; by rewrite length_fmap, length_seq|]. split.
  - unfold zf. rewrite Zf_retrain_logged_steps, eval_steps_multiples.
    split; [done|].
    rewrite Zf_retrain_new_events, bool_decide_eq_true_2 by done.
    rewrite !elem_of_app. split; right; right; by apply Hlogs.
  - assert ((data_size (if swap then trainingData_2 else trainingData_1) / 32
             + data_size (if swap then trainingData_1 else trainingData_2) / 32)%nat
            = total) as Htotal by (unfold total; destruct swap; lia).
    unfold ce. rewrite Ce_retrain_logged_steps. unfold BATCHSIZE.
    rewrite Htotal, eval_steps_multiples. split; [done|].
    rewrite Ce_retrain_new_events, bool_decide_eq_true_2 by done.
    rewrite !elem_of_app. split; right; right; right; by apply Hlogs.
Qed.

(** Datasets of 3200 and 1664 samples: 100 + 52 = 152 training steps, and
    evaluations at the steps 0, 50, 100 and 150. *)
Lemma X13_evaluation_log_witness :
  logged_steps
    (new_events (Zf.retrain (sizes 3200 1664) "out" (create_det_drop_list 0 Zf.fish_like))
       empty_world) = [0; 50; 100; 150]%nat.
Proof.
  destruct (X13_evaluation_log (sizes 3200 1664) "out"
              (create_det_drop_list 0 Zf.fish_like) false "_t_" empty_world)
    as (_ & [Hzf _] & _); [by apply not_elem_of_empty|].
  rewrite Hzf. by vm_compute.
Defined.

(** ** ce_retrain.py: the order list of [retrain] *)

(** [l[i]] for a Python integer [i]: a negative index counts from the end of
    the list; [IndexError] outside [-len(l) <= i < len(l)]. *)
Definition py_getitem {A} (l : list A) (i : Z) : result A :=
  let len := Z.of_nat (length l) in
  if decide (0 <= i)%Z then getitem l (Z.to_nat i)
  else if decide (- len <= i)%Z then getitem l (Z.to_nat (len + i))
  else Raise IndexError.

Module CeZ.

Section Driver.

Variable data_size : dataset -> nat.

(** [retrain(m, save_path, droplist, td_ix, filter_fun)] for an order list
    [td_ix] of any Python integers; [Ce.retrain] is its restriction to the
    lists without negative entries. *)
Definition retrain (save_path : string) (dl : droplist) (td_ix : list Z)
    (tag : string) : M unit :=
  emit [get_filtered_train tag];;
  let train_func := filtered_train tag in
  match getitem td_ix 0 ≫= py_getitem Ce.train_list,
        getitem td_ix 1 ≫= py_getitem Ce.train_list with
  | Ok d1, Ok d2 =>
      let st := retrain_loops (data_size d1) (data_size d2) d1 d2 train_func dl in
      emit (events st);;
      save_results save_path st
  | Raise e, _ | Ok _, Raise e => raise e
  end.

End Driver.

End CeZ.

Lemma py_getitem_nat {A} (l : list A) (i : nat) :
  py_getitem l (Z.of_nat i) = getitem l i.
Proof.
  unfold py_getitem. rewrite decide_True by lia. by rewrite Nat2Z.id.
Qed.

(** The two datasets under the four indices that are in range. *)
Lemma py_getitem_train_list (a : Z) :
  py_getitem Ce.train_list a =
  if decide (a = 0 ∨ a = -2)%Z then Ok trainingData_1
  else if decide (a = 1 ∨ a = -1)%Z then Ok trainingData_2
  else Raise IndexError.
Proof.
  unfold py_getitem, getitem. cbn [Ce.train_list length].
  destruct (decide (0 <= a)%Z) as [H0|H0].
  - destruct (decide (a = 0)%Z) as [->|Ha0];
      [by rewrite decide_True by (by left)|].
    destruct (decide (a = 1)%Z) as [->|Ha1].
    + rewrite decide_False by lia. by rewrite decide_True by (by left).
    + rewrite !decide_False by lia.
      assert (exists k, Z.to_nat a = S (S k)) as [k ->] by (exists (Z.to_nat a - 2)%nat; lia).
      done.
  - destruct (decide (- Z.of_nat 2 <= a)%Z) as [H2|H2].
    + assert (a = -2 ∨ a = -1)%Z as [->| ->] by lia.
      * by rewrite decide_True by (by right).
      * rewrite decide_False by lia. by rewrite decide_True by (by right).
    + by rewrite !decide_False by lia.
Qed.

Lemma py_getitem_train_list_Ok (a : Z) :
  (exists d, py_getitem Ce.train_list a = Ok d) <-> (-2 <= a < 2)%Z.
Proof.
  rewrite py_getitem_train_list. split.
  - intros [d Hd]. repeat case_decide; try discriminate; lia.
  - intros Ha. repeat case_decide; try (by eexists); lia.
Qed.

Lemma py_getitem_train_list_Raise (a : Z) e :
  py_getitem Ce.train_list a = Raise e -> e = IndexError.
Proof.
  rewrite py_getitem_train_list. repeat case_decide; congruence.
Qed.

(** X14: [retrain] of the C. elegans driver raises [IndexError] exactly when
    its order list [td_ix] has no two leading entries in the range
    [-2 <= a < 2] of the indices of [train_list]; it then has only fetched
    the filtered training function: no batch is drawn, no training step is
    made and nothing is written.  With two entries in range it trains on
    [train_list[a]] and then on [train_list[b]], where the indices 0 and -2
    stand for the first dataset and 1 and -1 for the second one, also when
    the two are the same dataset.  On a list without negative entries the
    run is that of [Ce.retrain]. *)
Theorem X14_ce_retrain_order_list (data_size : dataset -> nat) (save_path : string)
    (dl : droplist) (td_ix : list Z) (tag : string) (w : world) :
  let run := CeZ.retrain data_size save_path dl td_ix tag in
  let valid := exists a b, td_ix !! 0%nat = Some a ∧ td_ix !! 1%nat = Some b
                           ∧ (-2 <= a < 2)%Z ∧ (-2 <= b < 2)%Z in
  let dataset_at := fun a : Z =>
    if decide (a = 0 ∨ a = -2)%Z then trainingData_1 else trainingData_2 in
  ((run w).1 = Raise IndexError <-> ¬ valid)
  ∧ (¬ valid ->
     run w = (Raise IndexError,
              {| files := files w; trace := trace w ++ [get_filtered_train tag] |})
     ∧ training_steps (new_events run w) = 0%nat)
  ∧ (forall a b,
       td_ix !! 0%nat = Some a -> td_ix !! 1%nat = Some b ->
       (-2 <= a < 2)%Z -> (-2 <= b < 2)%Z ->
       let d1 := dataset_at a in
       let d2 := dataset_at b in
       let st := retrain_loops (data_size d1) (data_size d2) d1 d2
                   (filtered_train tag) dl in
       let fresh := bool_decide (save_path +:+ "/losses.hdf5" ∉ files w) in
       py_getitem Ce.train_list a = Ok d1
       ∧ py_getitem Ce.train_list b = Ok d2
       ∧ run w =
         (if fresh then Ok tt else Raise FileExistsError,
          {| files := if fresh then {[save_path +:+ "/losses.hdf5"]} ∪ files w
                      else files w;
             trace := trace w ++ [get_filtered_train tag] ++ events st
                      ++ finalize_events save_path st fresh |}))
  ∧ (forall ixs : list nat,
       CeZ.retrain data_size save_path dl (Z.of_nat <$> ixs) tag =
       Ce.retrain data_size save_path dl ixs tag).
Proof.
  intros run valid dataset_at.
  assert (forall a, (-2 <= a < 2)%Z -> py_getitem Ce.train_list a = Ok (dataset_at a))
    as Hat.
  { intros a Ha. rewrite py_getitem_train_list. unfold dataset_at.
    repeat case_decide; try done; lia. }
  assert (forall a b,
       td_ix !! 0%nat = Some a -> td_ix !! 1%nat = Some b ->
       (-2 <= a < 2)%Z -> (-2 <= b < 2)%Z ->
       let d1 := dataset_at a in
       let d2 := dataset_at b in
       let st := retrain_loops (data_size d1) (data_size d2) d1 d2
                   (filtered_train tag) dl in
       let fresh := bool_decide (save_path +:+ "/losses.hdf5" ∉ files w) in
       run w =
       (if fresh then Ok tt else Raise FileExistsError,
        {| files := if fresh then {[save_path +:+ "/losses.hdf5"]} ∪ files w
                    else files w;
           trace := trace w ++ [get_filtered_train tag] ++ events st
                    ++ finalize_events save_path st fresh |})) as Hvalid.
  { intros a b Ha Hb Hra Hrb d1 d2 st fresh. unfold run, CeZ.retrain.
    run_step. unfold getitem. rewrite Ha, Hb. cbn [mbind result_bind].
    rewrite !Hat by done. run_step. rewrite save_results_spec. cbn [files trace].
    fold d1 d2 st fresh. destruct fresh; by rewrite <- !app_assoc. }
  assert (¬ valid ->
     run w = (Raise IndexError,
              {| files := files w; trace := trace w ++ [get_filtered_train tag] |}))
    as Hinvalid.
  { intros Hn. unfold run, CeZ.retrain. run_step. unfold getitem.
    destruct (td_ix !! 0%nat) as [a|] eqn:Ha; cbn [mbind result_bind]; [|done].
    destruct (py_getitem Ce.train_list a) as [d1|e1] eqn:H1;
      [|by apply py_getitem_train_list_Raise in H1 as ->].
    destruct (td_ix !! 1%nat) as [b|] eqn:Hb; cbn [mbind result_bind]; [|done].
    destruct (py_getitem Ce.train_list b) as [d2|e2] eqn:H2;
      [|by apply py_getitem_train_list_Raise in H2 as ->].
    exfalso. apply Hn. exists a, b.
    split; [done|]. split; [done|].
    split; apply py_getitem_train_list_Ok; by eexists. }
  split; [|split; [|split]].
  - split.
    + intros Hraise (a & b & Ha & Hb & Hra & Hrb).
      rewrite (Hvalid a b Ha Hb Hra Hrb) in Hraise. cbn [fst] in Hraise.
      by case_bool_decide.
    + intros Hn. by rewrite Hinvalid.
  - intros Hn. split; [by apply Hinvalid|].
    erewrite new_events_intro by (rewrite Hinvalid by done; reflexivity). done.
  - intros a b Ha Hb Hra Hrb d1 d2 st fresh.
    split; [by apply Hat|]. split; [by apply Hat|]. by apply Hvalid.
  - intros ixs. unfold CeZ.retrain, Ce.retrain.
    assert (forall i, getitem (Z.of_nat <$> ixs) i ≫= py_getitem Ce.train_list
                      = getitem ixs i ≫= getitem Ce.train_list) as Hget.
    { intros i. unfold getitem at 1 3. rewrite list_lookup_fmap.
      destruct (ixs !! i) as [a|]; cbn [fmap option_fmap option_map mbind result_bind];
        [apply py_getitem_nat|done]. }
    by rewrite !Hget.
Qed.

(** The order list [-1, -2] trains on the second dataset and then on the
    first one; [-3, 0] raises [IndexError]. *)
Lemma X14_ce_retrain_order_list_witness :
  (CeZ.retrain (sizes 64 32) "out" (create_det_drop_list 0 Ce.ce_like)
     [-3; 0]%Z "_t_" empty_world).1 = Raise IndexError
  ∧ py_getitem Ce.train_list (-1) = Ok trainingData_2
  ∧ py_getitem Ce.train_list (-2) = Ok trainingData_1
  ∧ (CeZ.retrain (sizes 64 32) "out" (create_det_drop_list 0 Ce.ce_like)
       [-1; -2]%Z "_t_" empty_world).1 = Ok tt.
Proof.
  destruct (X14_ce_retrain_order_list (sizes 64 32) "out"
              (create_det_drop_list 0 Ce.ce_like) [-3; 0]%Z "_t_" empty_world)
    as ([_ Hraise] & _).
  destruct (X14_ce_retrain_order_list (sizes 64 32) "out"
              (create_det_drop_list 0 Ce.ce_like) [-1; -2]%Z "_t_" empty_world)
    as (_ & _ & Hrun & _).
  destruct (Hrun (-1)%Z (-2)%Z eq_refl eq_refl ltac:(lia) ltac:(lia))
    as (H1 & H2 & Hw).
  split; [|split; [exact H1|split; [exact H2|]]].
  - apply Hraise. intros (a & b & [= <-] & _ & Ha & _). lia.
  - rewrite Hw. cbn [fst]. by rewrite bool_decide_eq_true_2 by apply not_elem_of_empty.
Defined.


(** ** The drivers on a directory tree *)

(** *** Paths that cannot coincide *)

Lemma list_ascii_app s t :
  String.list_ascii_of_string (s +:+ t) =
  String.list_ascii_of_string s ++ String.list_ascii_of_string t.
Proof. induction s as [|c s IH]; [done|]. simpl. by rewrite IH. Qed.

Lemma string_app_inj_r s s' t : s +:+ t = s' +:+ t -> s = s'.
Proof.
  intros H. apply (f_equal String.list_ascii_of_string) in H.
  rewrite !list_ascii_app in H. apply app_inv_tail in H.
  rewrite <- (String.string_of_list_ascii_of_string s), H.
  apply String.string_of_list_ascii_of_string.
Qed.

(** Two paths whose last characters differ are different: the equation is
    read from its end. *)
Ltac suffix_clash H :=
  apply (f_equal (fun s => reverse (String.list_ascii_of_string s))) in H;
  rewrite ?list_ascii_app, ?reverse_app in H;
  cbn in H; discriminate H.

Ltac paths_differ :=
  let H := fresh in
  intros H;
  first [ by apply string_app_inj_r in H
        | by apply string_app_inj_r, string_app_inj_r in H
        | by apply string_app_inj in H
        | by apply string_app_neq in H
        | suffix_clash H ].

(** The output paths of a model of the zebrafish driver. *)
Definition Zf_outputs (p : string) : list string :=
  [Zf.mpath p +:+ "/fl_retrain";
   (Zf.mpath p +:+ "/fl_retrain") +:+ "/losses.hdf5";
   Zf.mpath p +:+ "/nfl_retrain";
   (Zf.mpath p +:+ "/nfl_retrain") +:+ "/losses.hdf5"].

(** The output paths of a model of the C. elegans driver. *)
Definition Ce_outputs (p : string) : list string :=
  [Ce.mpath p +:+ "/cel_tbranch_retrain";
   (Ce.mpath p +:+ "/cel_tbranch_retrain") +:+ "/losses.hdf5";
   Ce.mpath p +:+ "/cel_nontbranch_retrain";
   (Ce.mpath p +:+ "/cel_nontbranch_retrain") +:+ "/losses.hdf5"].

(** A directory tree holds an error file only in a folder that exists. *)
Definition no_orphan_losses (fs : gset string) : Prop :=
  forall folder, folder +:+ "/losses.hdf5" ∈ fs -> folder ∈ fs.

Lemma training_steps_loops size_1 size_2 d1 d2 f dl :
  training_steps (events (retrain_loops size_1 size_2 d1 d2 f dl)) =
  (size_1 / 32 + size_2 / 32)%nat.
Proof.
  rewrite retrain_loops_spec. cbn [events].
  by rewrite training_steps_app, !training_steps_phase.
Qed.

Section ZfTree.

Context (data_size : dataset -> nat) (i : nat) (p : string).

Let mp := Zf.mpath p.
Let fl := mp +:+ "/fl_retrain".
Let nfl := mp +:+ "/nfl_retrain".
Let like := create_det_drop_list i Zf.fish_like.
Let unlike := create_det_drop_list i Zf.fish_unlike.
Let run (dl : droplist) : run_state :=
  retrain_loops (data_size trainingData_1) (data_size trainingData_2)
    trainingData_1 trainingData_2 m_train dl.

(** The events of an iteration that makes both runs. *)
Definition Zf_both_runs_events : list event :=
  [ModelData mp; path_exists fl false; mkdir fl; new_model; model_load mp]
  ++ events (run like) ++ finalize_events fl (run like) true
  ++ [path_exists nfl false; mkdir nfl; model_clear; model_load mp]
  ++ events (run unlike) ++ finalize_events nfl (run unlike) true.

Lemma Zf_iteration_fresh w :
  fl ∉ files w -> fl +:+ "/losses.hdf5" ∉ files w ->
  nfl ∉ files w -> nfl +:+ "/losses.hdf5" ∉ files w ->
  Zf.model_iteration data_size i p w =
  (Ok tt,
   {| files := {[nfl +:+ "/losses.hdf5"]} ∪ ({[nfl]} ∪
                 ({[fl +:+ "/losses.hdf5"]} ∪ ({[fl]} ∪ files w)));
      trace := trace w ++ Zf_both_runs_events |}).
Proof.
  intros Hfl Hfll Hnfl Hnfll.
  assert (nfl ≠ fl) as H1 by (unfold nfl, fl; paths_differ).
  assert (nfl ≠ fl +:+ "/losses.hdf5") as H2 by (unfold nfl, fl; paths_differ).
  assert (nfl +:+ "/losses.hdf5" ≠ fl) as H3 by (unfold nfl, fl; paths_differ).
  assert (nfl +:+ "/losses.hdf5" ≠ fl +:+ "/losses.hdf5") as H4
    by (unfold nfl, fl; paths_differ).
  assert (nfl +:+ "/losses.hdf5" ≠ nfl) as H5 by paths_differ.
  assert (fl +:+ "/losses.hdf5" ≠ fl) as H6 by paths_differ.
  unfold Zf.model_iteration, Zf_both_runs_events. fold mp fl nfl like unlike.
  do 2 run_step. rewrite bool_decide_eq_false_2 by done. do 2 run_step.
  rewrite bind_run, Zf_retrain_spec. cbn [files trace]. fold (run like).
  rewrite bool_decide_eq_true_2 by set_solver.
  run_step. rewrite bool_decide_eq_false_2 by set_solver. do 2 run_step.
  rewrite Zf_retrain_spec. cbn [files trace]. fold (run unlike).
  rewrite bool_decide_eq_true_2 by set_solver.
  by rewrite <- !app_assoc.
Qed.

Lemma Zf_both_runs_training_steps :
  let total := (data_size trainingData_1 / 32 + data_size trainingData_2 / 32)%nat in
  training_steps Zf_both_runs_events = (2 * total)%nat
  ∧ training_steps_of m_train like Zf_both_runs_events = total
  ∧ training_steps_of m_train unlike Zf_both_runs_events = total.
Proof.
  intros total. unfold Zf_both_runs_events.
  rewrite !training_steps_app, !training_steps_of_app.
  rewrite !training_steps_finalize, !training_steps_of_finalize.
  unfold run. rewrite !training_steps_loops, !training_steps_of_loops_same.
  rewrite (training_steps_of_loops_other m_train like)
    by (intros [= H]; by apply (fish_like_unlike i)).
  rewrite (training_steps_of_loops_other m_train unlike)
    by (intros [= H]; by apply (fish_like_unlike i)).
  unfold BATCHSIZE. fold total.
  repeat match goal with
  | |- context [training_steps (?e :: ?es)] =>
      change (training_steps (e :: es)) with 0%nat
  | |- context [training_steps_of ?f ?dl (?e :: ?es)] =>
      change (training_steps_of f dl (e :: es)) with 0%nat
  end.
  lia.
Qed.

Lemma Zf_iteration_tree w :
  no_orphan_losses (files w) ->
  (Zf.model_iteration data_size i p w).1 = Ok tt
  ∧ no_orphan_losses (files (Zf.model_iteration data_size i p w).2).
Proof.
  intros Hw.
  assert (forall folder, folder +:+ "/losses.hdf5" ≠ fl) as Hfl'
    by (intros folder; unfold fl; paths_differ).
  assert (forall folder, folder +:+ "/losses.hdf5" ≠ nfl) as Hnfl'
    by (intros folder; unfold nfl; paths_differ).
  destruct (decide (fl ∈ files w)) as [Hfl|Hfl].
  { by rewrite Zf_iteration_fl_exists. }
  assert (fl +:+ "/losses.hdf5" ∉ files w) as Hfll by (intros ?; by apply Hfl, Hw).
  destruct (decide (nfl ∈ files w)) as [Hnfl|Hnfl].
  - rewrite Zf_iteration_nfl_exists by done.
    rewrite bool_decide_eq_true_2 by done. cbn [fst snd files]. split; [done|].
    intros folder. rewrite !elem_of_union, !elem_of_singleton.
    intros [Heq|[Heq|Hin]].
    + apply string_app_inj_r in Heq as ->. tauto.
    + by apply Hfl' in Heq.
    + right. right. by apply Hw.
  - assert (nfl +:+ "/losses.hdf5" ∉ files w) as Hnfll
      by (intros ?; by apply Hnfl, Hw).
    rewrite Zf_iteration_fresh by done. cbn [fst snd files]. split; [done|].
    intros folder. rewrite !elem_of_union, !elem_of_singleton.
    intros [Heq|[Heq|[Heq|[Heq|Hin]]]].
    + apply string_app_inj_r in Heq as ->. tauto.
    + by apply Hnfl' in Heq.
    + apply string_app_inj_r in Heq as ->. tauto.
    + by apply Hfl' in Heq.
    + do 4 right. by apply Hw.
Qed.

End ZfTree.

Section CeTree.

Context (data_size : dataset -> nat) (swap : bool) (i : nat) (p : string).

Let mp := Ce.mpath p.
Let tb := mp +:+ "/cel_tbranch_retrain".
Let ntb := mp +:+ "/cel_nontbranch_retrain".
Let cel := create_det_drop_list i Ce.ce_like.
Let d1 := if swap then trainingData_2 else trainingData_1.
Let d2 := if swap then trainingData_1 else trainingData_2.
Let run (tag : string) : run_state :=
  retrain_loops (data_size d1) (data_size d2) d1 d2 (filtered_train tag) cel.

(** The events of an iteration that makes both runs. *)
Definition Ce_both_runs_events : list event :=
  [random_shuffle (Ce.shuffled swap); ModelData mp;
   path_exists tb false; mkdir tb; new_model; model_load mp;
   get_filtered_train "_t_"]
  ++ events (run "_t_") ++ finalize_events tb (run "_t_") true
  ++ [path_exists ntb false; mkdir ntb; model_clear; new_model; model_load mp;
      get_filtered_train "_m_"]
  ++ events (run "_m_") ++ finalize_events ntb (run "_m_") true
  ++ [model_clear].

Lemma Ce_iteration_fresh w :
  tb ∉ files w -> tb +:+ "/losses.hdf5" ∉ files w ->
  ntb ∉ files w -> ntb +:+ "/losses.hdf5" ∉ files w ->
  Ce.model_iteration data_size swap i p w =
  (Ok tt,
   {| files := {[ntb +:+ "/losses.hdf5"]} ∪ ({[ntb]} ∪
                 ({[tb +:+ "/losses.hdf5"]} ∪ ({[tb]} ∪ files w)));
      trace := trace w ++ Ce_both_runs_events |}).
Proof.
  intros Htb Htbl Hntb Hntbl.
  assert (ntb ≠ tb) as H1 by (unfold ntb, tb; paths_differ).
  assert (ntb ≠ tb +:+ "/losses.hdf5") as H2 by (unfold ntb, tb; paths_differ).
  assert (ntb +:+ "/losses.hdf5" ≠ tb) as H3 by (unfold ntb, tb; paths_differ).
  assert (ntb +:+ "/losses.hdf5" ≠ tb +:+ "/losses.hdf5") as H4
    by (unfold ntb, tb; paths_differ).
  assert (ntb +:+ "/losses.hdf5" ≠ ntb) as H5 by paths_differ.
  assert (tb +:+ "/losses.hdf5" ≠ tb) as H6 by paths_differ.
  unfold Ce.model_iteration, Ce_both_runs_events. fold mp tb ntb cel.
  do 3 run_step. rewrite bool_decide_eq_false_2 by done.
  rewrite bind_run. do 2 run_step.
  rewrite bind_run, Ce_retrain_spec. cbn [files trace]. fold d1 d2 (run "_t_").
  rewrite bool_decide_eq_true_2 by set_solver.
  cbn beta iota. rewrite ret_run. cbn beta iota.
  run_step. rewrite bool_decide_eq_false_2 by set_solver. do 3 run_step.
  rewrite bind_run, Ce_retrain_spec. cbn [files trace]. fold d1 d2 (run "_m_").
  rewrite bool_decide_eq_true_2 by set_solver.
  rewrite emit_run. cbn [files trace]. by rewrite <- !app_assoc.
Qed.

Lemma Ce_both_runs_training_steps :
  let total := (data_size trainingData_1 / 32 + data_size trainingData_2 / 32)%nat in
  training_steps Ce_both_runs_events = (2 * total)%nat
  ∧ training_steps_of (filtered_train "_t_") cel Ce_both_runs_events = total
  ∧ training_steps_of (filtered_train "_m_") cel Ce_both_runs_events = total.
Proof.
  intros total. unfold Ce_both_runs_events.
  rewrite !training_steps_app, !training_steps_of_app.
  rewrite !training_steps_finalize, !training_steps_of_finalize.
  unfold run. rewrite !training_steps_loops, !training_steps_of_loops_same.
  rewrite (training_steps_of_loops_other (filtered_train "_t_") cel) by (by intros [=]).
  rewrite (training_steps_of_loops_other (filtered_train "_m_") cel) by (by intros [=]).
  unfold BATCHSIZE.
  assert ((data_size d1 / 32 + data_size d2 / 32)%nat = total) as ->
    by (unfold d1, d2, total; destruct swap; lia).
  repeat match goal with
  | |- context [training_steps (?e :: ?es)] =>
      change (training_steps (e :: es)) with 0%nat
  | |- context [training_steps_of ?f ?dl (?e :: ?es)] =>
      change (training_steps_of f dl (e :: es)) with 0%nat
  end.
  lia.
Qed.

Lemma Ce_iteration_tree w :
  no_orphan_losses (files w) ->
  (Ce.model_iteration data_size swap i p w).1 = Ok tt
  ∧ no_orphan_losses (files (Ce.model_iteration data_size swap i p w).2).
Proof.
  intros Hw.
  assert (forall folder, folder +:+ "/losses.hdf5" ≠ tb) as Htb'
    by (intros folder; unfold tb; paths_differ).
  assert (forall folder, folder +:+ "/losses.hdf5" ≠ ntb) as Hntb'
    by (intros folder; unfold ntb; paths_differ).
  destruct (decide (tb ∈ files w)) as [Htb|Htb],
           (decide (ntb ∈ files w)) as [Hntb|Hntb].
  - by rewrite Ce_iteration_both_exist.
  - assert (ntb +:+ "/losses.hdf5" ∉ files w) as Hntbl
      by (intros ?; by apply Hntb, Hw).
    rewrite Ce_iteration_tbranch_exists by done.
    rewrite bool_decide_eq_true_2 by done. cbn [fst snd files]. split; [done|].
    intros folder. rewrite !elem_of_union, !elem_of_singleton.
    intros [Heq|[Heq|Hin]].
    + apply string_app_inj_r in Heq as ->. tauto.
    + by apply Hntb' in Heq.
    + right. right. by apply Hw.
  - assert (tb +:+ "/losses.hdf5" ∉ files w) as Htbl
      by (intros ?; by apply Htb, Hw).
    rewrite Ce_iteration_nontbranch_exists by done.
    rewrite bool_decide_eq_true_2 by done. cbn [fst snd files]. split; [done|].
    intros folder. rewrite !elem_of_union, !elem_of_singleton.
    intros [Heq|[Heq|Hin]].
    + apply string_app_inj_r in Heq as ->. tauto.
    + by apply Htb' in Heq.
    + right. right. by apply Hw.
  - assert (tb +:+ "/losses.hdf5" ∉ files w) as Htbl
      by (intros ?; by apply Htb, Hw).
    assert (ntb +:+ "/losses.hdf5" ∉ files w) as Hntbl
      by (intros ?; by apply Hntb, Hw).
    rewrite Ce_iteration_fresh by done. cbn [fst snd files]. split; [done|].
    intros folder. rewrite !elem_of_union, !elem_of_singleton.
    intros [Heq|[Heq|[Heq|[Heq|Hin]]]].
    + apply string_app_inj_r in Heq as ->. tauto.
    + by apply Hntb' in Heq.
    + apply string_app_inj_r in Heq as ->. tauto.
    + by apply Htb' in Heq.
    + do 4 right. by apply Hw.
Qed.

End CeTree.

(** A loop whose bodies return and keep an invariant of the world returns
    and keeps it. *)
Lemma for_enumerate_invariant body (I : world -> Prop) paths :
  (forall i p w, I w -> (body i p w).1 = Ok tt ∧ I (body i p w).2) ->
  forall i w, I w ->
  (for_enumerate body i paths w).1 = Ok tt ∧ I (for_enumerate body i paths w).2.
Proof.
  intros Hbody. induction paths as [|p paths IH]; intros i w Hw; [done|].
  rewrite for_enumerate_cons. destruct (Hbody i p w Hw) as [HOk Hw'].
  destruct (body i p w) as [[[]|e] w']; [|done]. by apply IH.
Qed.

(** X15: a zebrafish model without output folders (and without stray error
    files) gets both runs in one iteration: the fish-like ablation and then
    the fish-unlike ablation are each retrained for the full number of steps,
    both folders and both error files are created and the iteration
    returns. *)
Theorem X15_zf_fresh_model (data_size : dataset -> nat) (i : nat) (p : string)
    (w : world) :
  let fl := Zf.mpath p +:+ "/fl_retrain" in
  let nfl := Zf.mpath p +:+ "/nfl_retrain" in
  let total := (data_size trainingData_1 / 32 + data_size trainingData_2 / 32)%nat in
  let new := new_events (Zf.model_iteration data_size i p) w in
  fl ∉ files w -> fl +:+ "/losses.hdf5" ∉ files w ->
  nfl ∉ files w -> nfl +:+ "/losses.hdf5" ∉ files w ->
  Zf.model_iteration data_size i p w =
    (Ok tt,
     {| files := {[nfl +:+ "/losses.hdf5"]} ∪ ({[nfl]} ∪
                   ({[fl +:+ "/losses.hdf5"]} ∪ ({[fl]} ∪ files w)));
        trace := trace w ++ Zf_both_runs_events data_size i p |})
  ∧ training_steps new = (2 * total)%nat
  ∧ training_steps_of m_train (create_det_drop_list i Zf.fish_like) new = total
  ∧ training_steps_of m_train (create_det_drop_list i Zf.fish_unlike) new = total.
Proof.
  intros fl nfl total new Hfl Hfll Hnfl Hnfll.
  assert (Zf.model_iteration data_size i p w =
    (Ok tt,
     {| files := {[nfl +:+ "/losses.hdf5"]} ∪ ({[nfl]} ∪
                   ({[fl +:+ "/losses.hdf5"]} ∪ ({[fl]} ∪ files w)));
        trace := trace w ++ Zf_both_runs_events data_size i p |})) as Hrun
    by (by apply Zf_iteration_fresh).
  split; [done|]. unfold new.
  erewrite new_events_intro by (rewrite Hrun; reflexivity).
  apply Zf_both_runs_training_steps.
Qed.

Lemma X15_zf_fresh_model_witness :
  let run := Zf.model_iteration (sizes 64 32) 0 "a_3m512_0/" empty_world in
  run.1 = Ok tt
  ∧ training_steps (new_events (Zf.model_iteration (sizes 64 32) 0 "a_3m512_0/")
                      empty_world) = 6%nat.
Proof.
  intros run.
  destruct (X15_zf_fresh_model (sizes 64 32) 0 "a_3m512_0/" empty_world)
    as (Hrun & Hsteps & _); try (by apply not_elem_of_empty).
  split; [unfold run; by rewrite Hrun|exact Hsteps].
Defined.

(** X16: a C. elegans model without output folders (and without stray error
    files) gets both runs in one iteration, under the same removal list and
    the same dataset order: the temperature-branch run and then the
    shared-branch run are each made for the full number of steps, both folders
    and both error files are created and the iteration returns. *)
Theorem X16_ce_fresh_model (data_size : dataset -> nat) (swap : bool) (i : nat)
    (p : string) (w : world) :
  let tb := Ce.mpath p +:+ "/cel_tbranch_retrain" in
  let ntb := Ce.mpath p +:+ "/cel_nontbranch_retrain" in
  let cel := create_det_drop_list i Ce.ce_like in
  let total := (data_size trainingData_1 / 32 + data_size trainingData_2 / 32)%nat in
  let new := new_events (Ce.model_iteration data_size swap i p) w in
  tb ∉ files w -> tb +:+ "/losses.hdf5" ∉ files w ->
  ntb ∉ files w -> ntb +:+ "/losses.hdf5" ∉ files w ->
  Ce.model_iteration data_size swap i p w =
    (Ok tt,
     {| files := {[ntb +:+ "/losses.hdf5"]} ∪ ({[ntb]} ∪
                   ({[tb +:+ "/losses.hdf5"]} ∪ ({[tb]} ∪ files w)));
        trace := trace w ++ Ce_both_runs_events data_size swap i p |})
  ∧ training_steps new = (2 * total)%nat
  ∧ training_steps_of (filtered_train "_t_") cel new = total
  ∧ training_steps_of (filtered_train "_m_") cel new = total.
Proof.
  intros tb ntb cel total new Htb Htbl Hntb Hntbl.
  assert (Ce.model_iteration data_size swap i p w =
    (Ok tt,
     {| files := {[ntb +:+ "/losses.hdf5"]} ∪ ({[ntb]} ∪
                   ({[tb +:+ "/losses.hdf5"]} ∪ ({[tb]} ∪ files w)));
        trace := trace w ++ Ce_both_runs_events data_size swap i p |})) as Hrun
    by (by apply Ce_iteration_fresh).
  split; [done|]. unfold new.
  erewrite new_events_intro by (rewrite Hrun; reflexivity).
  apply Ce_both_runs_training_steps.
Qed.

Lemma X16_ce_fresh_model_witness :
  let run := Ce.model_iteration (sizes 64 32) true 0 "a_3m512_0/" empty_world in
  run.1 = Ok tt
  ∧ training_steps (new_events (Ce.model_iteration (sizes 64 32) true 0 "a_3m512_0/")
                      empty_world) = 6%nat.
Proof.
  intros run.
  destruct (X16_ce_fresh_model (sizes 64 32) true 0 "a_3m512_0/" empty_world)
    as (Hrun & Hsteps & _); try (by apply not_elem_of_empty).
  split; [unfold run; by rewrite Hrun|exact Hsteps].
Defined.

(** X17: on a directory tree that holds an error file only in folders that
    exist, neither driver raises: the loop over the models returns for every
    list of models, whatever folders exist already, and it leaves such a tree
    behind. *)
Theorem X17_drivers_return_on_a_tree (data_size : dataset -> nat)
    (swaps : nat -> bool) (paths : list string) (w : world) :
  no_orphan_losses (files w) ->
  ((Zf.main data_size paths w).1 = Ok tt
   ∧ no_orphan_losses (files (Zf.main data_size paths w).2))
  ∧ ((Ce.main data_size swaps paths w).1 = Ok tt
     ∧ no_orphan_losses (files (Ce.main data_size swaps paths w).2)).
Proof.
  intros Hw. split.
  - unfold Zf.main.
    apply (for_enumerate_invariant _ (fun w => no_orphan_losses (files w)));
      [|done].
    intros i p w'. apply Zf_iteration_tree.
  - unfold Ce.main.
    apply (for_enumerate_invariant _ (fun w => no_orphan_losses (files w)));
      [|done].
    intros i p w'. apply Ce_iteration_tree.
Qed.

(** A tree in which one model has its fish-like folder and another has
    nothing. *)
Lemma X17_drivers_return_on_a_tree_witness :
  let w := {| files := {[Zf.mpath "a_3m512_0/" +:+ "/fl_retrain"]}; trace := [] |} in
  (Zf.main (sizes 64 32) ["a_3m512_0/"; "b_3m512_1/"] w).1 = Ok tt
  ∧ (Ce.main (sizes 64 32) Nat.even ["a_3m512_0/"; "b_3m512_1/"] w).1 = Ok tt.
Proof.
  intros w.
  assert (no_orphan_losses (files w)) as Hw.
  { intros folder. unfold w. cbn [files]. rewrite !elem_of_singleton.
    paths_differ. }
  destruct (X17_drivers_return_on_a_tree (sizes 64 32) Nat.even
              ["a_3m512_0/"; "b_3m512_1/"] w Hw) as [[Hzf _] [Hce _]].
  by split.
Defined.


(** *** A first run over all models *)

Lemma Zf_outputs_disjoint p q x :
  Zf.mpath p ≠ Zf.mpath q -> x ∈ Zf_outputs q -> x ∉ Zf_outputs p.
Proof.
  intros Hpq Hq Hp. unfold Zf_outputs in *.
  generalize dependent (Zf.mpath p). generalize dependent (Zf.mpath q).
  intros mq Hq mp Hpq Hp.
  repeat (apply elem_of_cons in Hq as [->|Hq]);
    [| | | |by apply elem_of_nil in Hq];
    repeat (apply elem_of_cons in Hp as [Hp|Hp]);
    try (by apply elem_of_nil in Hp);
    first [ apply string_app_inj_r in Hp; by subst
          | do 2 apply string_app_inj_r in Hp; by subst
          | suffix_clash Hp ].
Qed.

Lemma Ce_outputs_disjoint p q x :
  Ce.mpath p ≠ Ce.mpath q -> x ∈ Ce_outputs q -> x ∉ Ce_outputs p.
Proof.
  intros Hpq Hq Hp. unfold Ce_outputs in *.
  generalize dependent (Ce.mpath p). generalize dependent (Ce.mpath q).
  intros mq Hq mp Hpq Hp.
  repeat (apply elem_of_cons in Hq as [->|Hq]);
    [| | | |by apply elem_of_nil in Hq];
    repeat (apply elem_of_cons in Hp as [Hp|Hp]);
    try (by apply elem_of_nil in Hp);
    first [ apply string_app_inj_r in Hp; by subst
          | do 2 apply string_app_inj_r in Hp; by subst
          | suffix_clash Hp ].
Qed.

Lemma training_steps_flat_map_const {A} (f : A -> list event) (l : list A) n :
  (forall a, training_steps (f a) = n) ->
  training_steps (flat_map f l) = (length l * n)%nat.
Proof.
  intros Hf. induction l as [|a l IH]; [done|].
  cbn [flat_map length]. rewrite training_steps_app, Hf, IH. lia.
Qed.

Lemma length_enumerate_from {A} i (l : list A) :
  length (enumerate_from i l) = length l.
Proof. revert i. induction l as [|a l IH]; intros i; cbn; [done|]. by rewrite IH. Qed.

Lemma Zf_first_run data_size paths : forall i w,
  NoDup (Zf.mpath <$> paths) ->
  (forall p x, p ∈ paths -> x ∈ Zf_outputs p -> x ∉ files w) ->
  for_enumerate (Zf.model_iteration data_size) i paths w =
  (Ok tt,
   {| files := list_to_set (flat_map Zf_outputs paths) ∪ files w;
      trace := trace w
               ++ flat_map (fun ip => Zf_both_runs_events data_size ip.1 ip.2)
                    (enumerate_from i paths) |}).
Proof.
  induction paths as [|p paths IH]; intros i w Hdup Hfresh.
  - cbn. destruct w as [fs tr]. cbn. f_equal. f_equal.
    + by rewrite (left_id_L ∅ (∪)).
    + by rewrite app_nil_r.
  - cbn [fmap list_fmap] in Hdup. apply NoDup_cons in Hdup as [Hp Hdup].
    rewrite for_enumerate_cons.
    rewrite Zf_iteration_fresh
      by (apply (Hfresh p); [apply list_elem_of_here|];
          unfold Zf_outputs; rewrite !elem_of_cons; tauto).
    rewrite IH; [|done|].
    + cbn [files trace flat_map enumerate_from fst snd]. f_equal. f_equal.
      * rewrite list_to_set_app_L. unfold Zf_outputs at 2.
        cbn [list_to_set]. apply set_eq. intros x.
        rewrite !elem_of_union, !elem_of_singleton, elem_of_empty. tauto.
      * by rewrite <- app_assoc.
    + intros q x Hq Hx. cbn [files].
      assert (x ∉ Zf_outputs p) as Hxp.
      { apply (Zf_outputs_disjoint p q); [|done]. intros Heq. apply Hp.
        rewrite Heq. apply list_elem_of_fmap. by exists q. }
      assert (x ∉ files w) as Hxw
        by (apply (Hfresh q); [by apply list_elem_of_further|done]).
      unfold Zf_outputs in Hxp. rewrite !not_elem_of_cons in Hxp.
      rewrite !not_elem_of_union, !not_elem_of_singleton. tauto.
Qed.

Lemma Ce_first_run data_size swaps paths : forall i w,
  NoDup (Ce.mpath <$> paths) ->
  (forall p x, p ∈ paths -> x ∈ Ce_outputs p -> x ∉ files w) ->
  for_enumerate (fun i p => Ce.model_iteration data_size (swaps i) i p) i paths w =
  (Ok tt,
   {| files := list_to_set (flat_map Ce_outputs paths) ∪ files w;
      trace := trace w
               ++ flat_map (fun ip => Ce_both_runs_events data_size
                                        (swaps ip.1) ip.1 ip.2)
                    (enumerate_from i paths) |}).
Proof.
  induction paths as [|p paths IH]; intros i w Hdup Hfresh.
  - cbn. destruct w as [fs tr]. cbn. f_equal. f_equal.
    + by rewrite (left_id_L ∅ (∪)).
    + by rewrite app_nil_r.
  - cbn [fmap list_fmap] in Hdup. apply NoDup_cons in Hdup as [Hp Hdup].
    rewrite for_enumerate_cons.
    rewrite Ce_iteration_fresh
      by (apply (Hfresh p); [apply list_elem_of_here|];
          unfold Ce_outputs; rewrite !elem_of_cons; tauto).
    rewrite IH; [|done|].
    + cbn [files trace flat_map enumerate_from fst snd]. f_equal. f_equal.
      * rewrite list_to_set_app_L. unfold Ce_outputs at 2.
        cbn [list_to_set]. apply set_eq. intros x.
        rewrite !elem_of_union, !elem_of_singleton, elem_of_empty. tauto.
      * by rewrite <- app_assoc.
    + intros q x Hq Hx. cbn [files].
      assert (x ∉ Ce_outputs p) as Hxp.
      { apply (Ce_outputs_disjoint p q); [|done]. intros Heq. apply Hp.
        rewrite Heq. apply list_elem_of_fmap. by exists q. }
      assert (x ∉ files w) as Hxw
        by (apply (Hfresh q); [by apply list_elem_of_further|done]).
      unfold Ce_outputs in Hxp. rewrite !not_elem_of_cons in Hxp.
      rewrite !not_elem_of_union, !not_elem_of_singleton. tauto.
Qed.

(** X18: a first run of the zebrafish driver over models with distinct
    directories, none of which has an output path yet, returns after it has
    retrained every model under both ablations: with [total] steps per run it
    makes 2 × total training steps per model, one model after the other in
    the order of the list, and it leaves the two folders and the two error
    files of every model behind. *)
Theorem X18_zf_first_run (data_size : dataset -> nat) (paths : list string)
    (w : world) :
  NoDup (Zf.mpath <$> paths) ->
  (forall p x, p ∈ paths -> x ∈ Zf_outputs p -> x ∉ files w) ->
  let total := (data_size trainingData_1 / 32 + data_size trainingData_2 / 32)%nat in
  let run := Zf.main data_size paths w in
  run.1 = Ok tt
  ∧ new_events (Zf.main data_size paths) w =
      flat_map (fun ip => Zf_both_runs_events data_size ip.1 ip.2)
        (enumerate_from 0 paths)
  ∧ training_steps (new_events (Zf.main data_size paths) w) =
      (length paths * (2 * total))%nat
  ∧ files run.2 = list_to_set (flat_map Zf_outputs paths) ∪ files w
  ∧ (forall p x, p ∈ paths -> x ∈ Zf_outputs p -> x ∈ files run.2).
Proof.
  intros Hdup Hfresh total run.
  pose proof (Zf_first_run data_size paths 0 w Hdup Hfresh) as Hrun.
  fold (Zf.main data_size paths) in Hrun. fold run in Hrun.
  assert (new_events (Zf.main data_size paths) w =
          flat_map (fun ip => Zf_both_runs_events data_size ip.1 ip.2)
            (enumerate_from 0 paths)) as Hnew.
  { apply new_events_intro. fold run. by rewrite Hrun. }
  split; [by rewrite Hrun|]. split; [done|]. split; [|split].
  - rewrite Hnew.
    rewrite (training_steps_flat_map_const _ _ (2 * total)), length_enumerate_from;
      [done|].
    intros [i p]. cbn [fst snd].
    by destruct (Zf_both_runs_training_steps data_size i p) as [Hboth _].
  - by rewrite Hrun.
  - intros p x Hp Hx. rewrite Hrun. cbn [snd files].
    apply elem_of_union_l, elem_of_list_to_set, list_elem_of_In, in_flat_map.
    exists p. by rewrite <- !list_elem_of_In.
Qed.

Lemma X18_zf_first_run_witness :
  let paths := ["a_3m512_0/"; "b_3m512_1/"] in
  (Zf.main (sizes 64 32) paths empty_world).1 = Ok tt
  ∧ training_steps (new_events (Zf.main (sizes 64 32) paths) empty_world) = 12%nat.
Proof.
  intros paths.
  destruct (X18_zf_first_run (sizes 64 32) paths empty_world)
    as (HOk & _ & Hsteps & _).
  - unfold paths. cbn [fmap list_fmap]. apply NoDup_cons. split.
    + rewrite list_elem_of_singleton. intros H. by vm_compute in H.
    + apply NoDup_singleton.
  - intros p x _ _. apply not_elem_of_empty.
  - split; [exact HOk|exact Hsteps].
Defined.

(** X19: a first run of the C. elegans driver over models with distinct
    directories, none of which has an output path yet, returns after it has
    made the temperature-branch run and the shared-branch run of every model,
    2 × total training steps per model, whatever the shuffles give; it leaves
    the two folders and the two error files of every model behind. *)
Theorem X19_ce_first_run (data_size : dataset -> nat) (swaps : nat -> bool)
    (paths : list string) (w : world) :
  NoDup (Ce.mpath <$> paths) ->
  (forall p x, p ∈ paths -> x ∈ Ce_outputs p -> x ∉ files w) ->
  let total := (data_size trainingData_1 / 32 + data_size trainingData_2 / 32)%nat in
  let run := Ce.main data_size swaps paths w in
  run.1 = Ok tt
  ∧ new_events (Ce.main data_size swaps paths) w =
      flat_map (fun ip => Ce_both_runs_events data_size (swaps ip.1) ip.1 ip.2)
        (enumerate_from 0 paths)
  ∧ training_steps (new_events (Ce.main data_size swaps paths) w) =
      (length paths * (2 * total))%nat
  ∧ files run.2 = list_to_set (flat_map Ce_outputs paths) ∪ files w
  ∧ (forall p x, p ∈ paths -> x ∈ Ce_outputs p -> x ∈ files run.2).
Proof.
  intros Hdup Hfresh total run.
  pose proof (Ce_first_run data_size swaps paths 0 w Hdup Hfresh) as Hrun.
  fold (Ce.main data_size swaps paths) in Hrun. fold run in Hrun.
  assert (new_events (Ce.main data_size swaps paths) w =
          flat_map (fun ip => Ce_both_runs_events data_size (swaps ip.1) ip.1 ip.2)
            (enumerate_from 0 paths)) as Hnew.
  { apply new_events_intro. fold run. by rewrite Hrun. }
  split; [by rewrite Hrun|]. split; [done|]. split; [|split].
  - rewrite Hnew.
    rewrite (training_steps_flat_map_const _ _ (2 * total)), length_enumerate_from;
      [done|].
    intros [i p]. cbn [fst snd].
    by destruct (Ce_both_runs_training_steps data_size (swaps i) i p) as [Hboth _].
  - by rewrite Hrun.
  - intros p x Hp Hx. rewrite Hrun. cbn [snd files].
    apply elem_of_union_l, elem_of_list_to_set, list_elem_of_In, in_flat_map.
    exists p. by rewrite <- !list_elem_of_In.
Qed.

Lemma X19_ce_first_run_witness :
  let paths := ["a_3m512_0/"; "b_3m512_1/"] in
  (Ce.main (sizes 64 32) Nat.even paths empty_world).1 = Ok tt
  ∧ training_steps (new_events (Ce.main (sizes 64 32) Nat.even paths) empty_world)
    = 12%nat.
Proof.
  intros paths.
  destruct (X19_ce_first_run (sizes 64 32) Nat.even paths empty_world)
    as (HOk & _ & Hsteps & _).
  - unfold paths. cbn [fmap list_fmap]. apply NoDup_cons. split.
    + rewrite list_elem_of_singleton. intros H. by vm_compute in H.
    + apply NoDup_singleton.
  - intros p x _ _. apply not_elem_of_empty.
  - split; [exact HOk|exact Hsteps].
Defined.


(** *** A run whose error file exists already *)

(** X20: when the error file of a run exists already, [retrain] fails only
    at its end: it makes all its training steps and saves the checkpoint at
    the final step, and then raises [FileExistsError] at the creation of the
    error file; the evaluation log of the run is not written and no path is
    created. *)
Theorem X20_existing_error_file (data_size : dataset -> nat) (save_path : string)
    (dl : droplist) (swap : bool) (tag : string) (w : world) :
  save_path +:+ "/losses.hdf5" ∈ files w ->
  let total := (data_size trainingData_1 / 32 + data_size trainingData_2 / 32)%nat in
  let last_events := [save_state (save_path +:+ "/retrain.ckpt") total; print_saved] in
  let zf := Zf.retrain data_size save_path dl in
  let ce := Ce.retrain data_size save_path dl (Ce.shuffled swap) tag in
  ((zf w).1 = Raise FileExistsError
   ∧ files (zf w).2 = files w
   ∧ training_steps (new_events zf w) = total
   ∧ exists es, new_events zf w = es ++ last_events ∧ training_steps es = total)
  ∧ ((ce w).1 = Raise FileExistsError
     ∧ files (ce w).2 = files w
     ∧ training_steps (new_events ce w) = total
     ∧ exists es, new_events ce w = es ++ last_events ∧ training_steps es = total).
Proof.
  intros Hexists total last_events zf ce. split.
  - unfold zf. rewrite Zf_retrain_training_steps.
    erewrite new_events_intro by (rewrite Zf_retrain_spec; reflexivity).
    rewrite Zf_retrain_spec, bool_decide_eq_false_2 by (by intros ?).
    cbn [fst snd files]. do 3 (split; [done|]).
    eexists. unfold finalize_events. rewrite app_nil_r, retrain_loops_global_step.
    split; [reflexivity|]. apply training_steps_loops.
  - assert ((data_size (if swap then trainingData_2 else trainingData_1) / 32
             + data_size (if swap then trainingData_1 else trainingData_2) / 32)%nat
            = total) as Htotal by (unfold total; destruct swap; lia).
    unfold ce. rewrite Ce_retrain_training_steps.
    erewrite new_events_intro by (rewrite Ce_retrain_spec; reflexivity).
    rewrite Ce_retrain_spec, bool_decide_eq_false_2 by (by intros ?).
    cbn [fst snd files]. do 3 (split; [done|]).
    eexists. unfold finalize_events.
    rewrite app_nil_r, retrain_loops_global_step. unfold BATCHSIZE.
    rewrite Htotal, !app_assoc.
    split; [reflexivity|].
    rewrite training_steps_app, training_steps_loops. by rewrite Htotal.
Qed.

Lemma X20_existing_error_file_witness :
  let w := {| files := {["out/losses.hdf5"]}; trace := [] |} in
  let zf := Zf.retrain (sizes 320 160) "out" (create_det_drop_list 0 Zf.fish_like) in
  (zf w).1 = Raise FileExistsError ∧ training_steps (new_events zf w) = 15%nat.
Proof.
  intros w zf.
  destruct (X20_existing_error_file (sizes 320 160) "out"
              (create_det_drop_list 0 Zf.fish_like) false "_t_" w)
    as [(Hraise & _ & Hsteps & _) _].
  - cbn [files w]. by apply elem_of_singleton.
  - split; [exact Hraise|exact Hsteps].
Defined.

(** ** The model directories of the drivers *)

(** [pat in s] on strings. *)
Fixpoint contains (pat s : string) : bool :=
  String.prefix pat s
  || match s with
     | EmptyString => false
     | String _ s' => contains pat s'
     end.

(** [paths_512 = [f+'/' for f in os.listdir(base_path) if "_3m512_" in f]],
    for the listing [os.listdir(base_path)] returns. *)
Definition paths_512 (listing : list string) : list string :=
  (fun f => f +:+ "/") <$> filter (fun f => contains "_3m512_" f = true) listing.

Lemma prefix_app pat s :
  String.prefix pat s = true <-> exists post, s = pat +:+ post.
Proof.
  revert s. induction pat as [|c pat IH]; intros s.
  - split; [by exists s|by destruct s].
  - destruct s as [|c' s]; cbn [String.prefix].
    + split; [done|by intros [post [=]]].
    + destruct (Ascii.ascii_dec c c') as [->|Hne].
      * rewrite IH. split; intros [post Hpost]; exists post.
        -- simpl. by rewrite Hpost.
        -- simpl in Hpost. by injection Hpost.
      * split; [done|]. intros [post Hpost]. simpl in Hpost.
        injection Hpost as -> _. done.
Qed.

Lemma contains_nil pat : contains pat "" = String.prefix pat "".
Proof. cbn [contains]. apply orb_false_r. Qed.

Lemma contains_cons pat c s :
  contains pat (String c s) = String.prefix pat (String c s) || contains pat s.
Proof. reflexivity. Qed.

Lemma contains_app pat s :
  contains pat s = true <-> exists pre post, s = pre +:+ pat +:+ post.
Proof.
  split.
  - induction s as [|c s IH].
    + rewrite contains_nil. intros [post Hpost]%prefix_app. by exists "", post.
    + rewrite contains_cons. intros [[post Hpost]%prefix_app|Hin]%orb_true_iff.
      * by exists "", post.
      * destruct (IH Hin) as (pre & post & ->). by exists (String c pre), post.
  - intros (pre & post & ->). induction pre as [|c pre IH].
    + assert (String.prefix pat (pat +:+ post) = true) as Hpre
        by (apply prefix_app; by exists post).
      change ("" +:+ pat +:+ post) with (pat +:+ post).
      destruct (pat +:+ post) as [|c s].
      * by rewrite contains_nil.
      * by rewrite contains_cons, Hpre.
    + change (String c pre +:+ pat +:+ post) with (String c (pre +:+ pat +:+ post)).
      rewrite contains_cons, IH. apply orb_true_r.
Qed.

Lemma drop_last_slash f : drop_last (f +:+ "/") = f.
Proof.
  induction f as [|c f IH]; [done|]. simpl. simpl in IH. rewrite IH.
  by destruct f.
Qed.

Example paths_512_of_a_listing :
  paths_512 ["a_3m512_0"; "notes.txt"; "b_3m512_1"; "c_3m1024_0"] =
  ["a_3m512_0/"; "b_3m512_1/"].
Proof. by vm_compute. Qed.

(** X21: the model directories: [paths_512] holds exactly the entries of
    the directory listing whose name contains "_3m512_", each with a slash
    appended and in the order of the listing; [mpath] takes that slash off
    again, so the path of a model is the base path followed by the name of its
    entry, and different entries of the listing give different model paths. *)
Theorem X21_model_directories (listing : list string) (f : string) :
  (forall p, p ∈ paths_512 listing <->
     exists g, g ∈ listing ∧ (exists pre post, g = pre +:+ "_3m512_" +:+ post)
               ∧ p = g +:+ "/")
  ∧ drop_last (f +:+ "/") = f
  ∧ Zf.mpath (f +:+ "/") = "./model_data/Adam_1e-4/sepInput_mixTrain/" +:+ f
  ∧ Ce.mpath (f +:+ "/") = "./model_data/CE_Adam_1e-4/" +:+ f
  ∧ (NoDup listing ->
     NoDup (Zf.mpath <$> paths_512 listing) ∧ NoDup (Ce.mpath <$> paths_512 listing)).
Proof.
  split; [|split; [apply drop_last_slash|split; [|split]]].
  - intros p. unfold paths_512. rewrite list_elem_of_fmap. split.
    + intros (g & -> & Hg). apply list_elem_of_filter in Hg as [Hin Hg].
      exists g. by rewrite <- contains_app.
    + intros (g & Hg & Hin & ->). exists g. split; [done|].
      apply list_elem_of_filter. by rewrite contains_app.
  - unfold Zf.mpath. by rewrite drop_last_slash.
  - unfold Ce.mpath. by rewrite drop_last_slash.
  - intros Hdup. unfold paths_512. rewrite <- !list_fmap_compose. split.
    + apply NoDup_fmap_2; [|by apply NoDup_filter].
      intros g h Hgh. unfold compose, Zf.mpath in Hgh.
      rewrite !drop_last_slash in Hgh. by apply string_app_inj in Hgh.
    + apply NoDup_fmap_2; [|by apply NoDup_filter].
      intros g h Hgh. unfold compose, Ce.mpath in Hgh.
      rewrite !drop_last_slash in Hgh. by apply string_app_inj in Hgh.
Qed.


(** ** The removal lists the drivers use *)

(** A computation only adds events that satisfy [P] to the trace. *)
Definition emits_only (P : event -> Prop) {A} (m : M A) : Prop :=
  forall w, exists es, trace (m w).2 = trace w ++ es ∧ Forall P es.

Section EmitsOnly.

Context (P : event -> Prop).

Lemma emits_ret {A} (a : A) : emits_only P (mret a).
Proof. intros w. exists []. by rewrite app_nil_r. Qed.

Lemma emits_raise {A} e : emits_only P (@raise A e).
Proof. intros w. exists []. by rewrite app_nil_r. Qed.

Lemma emits_emit es : Forall P es -> emits_only P (emit es).
Proof. intros Hes w. by exists es. Qed.

Lemma emits_exists p : (forall b, P (path_exists p b)) -> emits_only P (os_path_exists p).
Proof. intros Hp w. eexists. split; [reflexivity|]. by constructor. Qed.

Lemma emits_create_new p e : P e -> emits_only P (create_new p e).
Proof.
  intros He w. unfold create_new. destruct (decide (p ∈ files w)).
  - exists []. by rewrite app_nil_r.
  - exists [e]. split; [done|]. by constructor.
Qed.

Lemma emits_bind {A B} (m : M A) (k : A -> M B) :
  emits_only P m -> (forall a, emits_only P (k a)) -> emits_only P (m ≫= k).
Proof.
  intros Hm Hk w. rewrite bind_run. destruct (Hm w) as (es & Hes & HP).
  destruct (m w) as [[a|e] w']; cbn [snd] in Hes.
  - destruct (Hk a w') as (es' & Hes' & HP'). exists (es ++ es').
    rewrite Hes', Hes, app_assoc. split; [done|]. by apply Forall_app.
  - by exists es.
Qed.

Lemma emits_if {A} (b : bool) (m1 m2 : M A) :
  emits_only P m1 -> emits_only P m2 -> emits_only P (if b then m1 else m2).
Proof. by destruct b. Qed.

Lemma emits_for_enumerate body paths : forall i,
  (forall j p, (i <= j < i + length paths)%nat -> emits_only P (body j p)) ->
  emits_only P (for_enumerate body i paths).
Proof.
  induction paths as [|p paths IH]; intros i Hbody; cbn [for_enumerate].
  - apply emits_ret.
  - apply emits_bind.
    + apply Hbody. cbn [length]. lia.
    + intros _. apply IH. intros j q Hj. apply Hbody. cbn [length]. lia.
Qed.

Lemma emits_new_events {A} (m : M A) w :
  emits_only P m -> Forall P (new_events m w).
Proof.
  intros Hm. destruct (Hm w) as (es & Hes & HP).
  by erewrite new_events_intro.
Qed.

Lemma Forall_loops size_1 size_2 d1 d2 f dl :
  (forall d g, Forall P (step_events d f dl g)) ->
  Forall P (events (retrain_loops size_1 size_2 d1 d2 f dl)).
Proof.
  intros Hstep. rewrite retrain_loops_spec. cbn [events]. unfold phase_events.
  apply Forall_app. split; apply Forall_flat_map, Forall_forall; intros g _;
    apply Hstep.
Qed.

End EmitsOnly.

(** A property of every event of an explicit list. *)
Ltac each_event :=
  repeat match goal with
         | |- Forall _ (_ :: _) => constructor
         | |- Forall _ [] => constructor
         end.

(** One step through a computation built from the operations above. *)
Ltac emits_step :=
  first [ apply emits_emit; each_event; done
        | by apply emits_exists
        | by apply emits_create_new
        | apply emits_ret
        | apply emits_raise
        | apply emits_if
        | apply emits_bind; [|intros ?] ].

(** What the zebrafish driver trains and predicts with: the unfiltered
    training function under the fish-like or the fish-unlike removal list of
    one of the [n] models. *)
Definition Zf_uses (n : nat) (e : event) : Prop :=
  match e with
  | train f dl =>
      f = m_train
      ∧ exists i, (i < n)%nat
                  ∧ (dl = create_det_drop_list i Zf.fish_like
                     ∨ dl = create_det_drop_list i Zf.fish_unlike)
  | predict dl =>
      exists i, (i < n)%nat
                ∧ (dl = create_det_drop_list i Zf.fish_like
                   ∨ dl = create_det_drop_list i Zf.fish_unlike)
  | get_filtered_train _ => False
  | _ => True
  end.

(** What the C. elegans driver trains and predicts with: a training function
    filtered for "_t_" or for "_m_", under the [ce_like] removal list of one
    of the [n] models. *)
Definition Ce_uses (n : nat) (e : event) : Prop :=
  match e with
  | train f dl =>
      (f = filtered_train "_t_" ∨ f = filtered_train "_m_")
      ∧ exists i, (i < n)%nat ∧ dl = create_det_drop_list i Ce.ce_like
  | predict dl =>
      exists i, (i < n)%nat ∧ dl = create_det_drop_list i Ce.ce_like
  | get_filtered_train tag => tag = "_t_" ∨ tag = "_m_"
  | _ => True
  end.

Lemma emits_save_results P sp st :
  (forall g, P (save_state (sp +:+ "/retrain.ckpt") g)) -> P print_saved ->
  P (h5py_File (sp +:+ "/losses.hdf5") "x") ->
  (forall data, P (create_test_rank_errors data)) ->
  (forall data, P (create_test_eval data)) -> P h5py_close ->
  emits_only P (save_results sp st).
Proof.
  intros. unfold save_results, h5py_File_x. repeat emits_step.
Qed.

Lemma Zf_iteration_uses data_size n i p :
  (i < n)%nat -> emits_only (Zf_uses n) (Zf.model_iteration data_size i p).
Proof.
  intros Hi.
  assert (forall dl,
    dl = create_det_drop_list i Zf.fish_like
    ∨ dl = create_det_drop_list i Zf.fish_unlike ->
    forall sp, emits_only (Zf_uses n) (Zf.retrain data_size sp dl)) as Hretrain.
  { intros dl Hdl sp. unfold Zf.retrain. apply emits_bind; [|intros _].
    - apply emits_emit, Forall_loops. intros d g.
      unfold step_events, evaluation, training.
      destruct Hdl as [-> | ->];
        destruct (decide (g mod EVAL_TEST_EVERY = 0)%nat);
        cbn [app]; each_event; unfold Zf_uses; eauto 10.
    - by apply emits_save_results. }
  unfold Zf.model_iteration, os_mkdir.
  repeat first [ apply Hretrain; by auto | emits_step ].
Qed.

Lemma Ce_retrain_uses data_size n i sp td_ix tag :
  (i < n)%nat -> tag = "_t_" ∨ tag = "_m_" ->
  emits_only (Ce_uses n)
    (Ce.retrain data_size sp (create_det_drop_list i Ce.ce_like) td_ix tag).
Proof.
  intros Hi Htag. unfold Ce.retrain. apply emits_bind; [|intros _].
  { apply emits_emit. by each_event. }
  destruct (getitem td_ix 0 ≫= getitem Ce.train_list) as [d1|e1];
    [destruct (getitem td_ix 1 ≫= getitem Ce.train_list) as [d2|e2]|];
    [|apply emits_raise..].
  apply emits_bind; [|intros _].
  - apply emits_emit, Forall_loops. intros d g.
    unfold step_events, evaluation, training.
    destruct (decide (g mod EVAL_TEST_EVERY = 0)%nat);
      cbn [app]; each_event; unfold Ce_uses; destruct Htag as [-> | ->]; eauto 10.
  - by apply emits_save_results.
Qed.

Lemma Ce_iteration_uses data_size n swap i p :
  (i < n)%nat -> emits_only (Ce_uses n) (Ce.model_iteration data_size swap i p).
Proof.
  intros Hi. unfold Ce.model_iteration, os_mkdir.
  repeat first [ apply Ce_retrain_uses; by auto | emits_step ].
Qed.

Lemma ce_like_unlike i j :
  create_det_drop_list i Ce.ce_like ≠ create_det_drop_list j Ce.ce_unlike.
Proof. by intros [=]. Qed.

(** X22: whatever exists on disk and however a run ends, every training step
    and every prediction of the zebrafish driver uses the unfiltered training
    function and the fish-like or fish-unlike removal list of a model of the
    list; every one of the C. elegans driver uses a training function filtered
    for "_t_" or "_m_" and the removal list made from [ce_like]: the list
    [ce_unlike] is never used. *)
Theorem X22_removal_lists_used (data_size : dataset -> nat) (swaps : nat -> bool)
    (paths : list string) (w : world) :
  Forall (Zf_uses (length paths)) (new_events (Zf.main data_size paths) w)
  ∧ Forall (Ce_uses (length paths)) (new_events (Ce.main data_size swaps paths) w)
  ∧ (forall f i,
       (train f (create_det_drop_list i Ce.ce_unlike)
          ∉ new_events (Ce.main data_size swaps paths) w)
       ∧ (predict (create_det_drop_list i Ce.ce_unlike)
            ∉ new_events (Ce.main data_size swaps paths) w)).
Proof.
  assert (Forall (Ce_uses (length paths))
            (new_events (Ce.main data_size swaps paths) w)) as Hce.
  { apply emits_new_events. unfold Ce.main. apply emits_for_enumerate.
    intros j p Hj. apply Ce_iteration_uses. lia. }
  split; [|split; [done|]].
  - apply emits_new_events. unfold Zf.main. apply emits_for_enumerate.
    intros j p Hj. apply Zf_iteration_uses. lia.
  - intros f i. rewrite Forall_forall in Hce. split; intros Hin.
    + destruct (Hce _ Hin) as (_ & j & _ & Heq).
      by apply (ce_like_unlike j i).
    + destruct (Hce _ Hin) as (j & _ & Heq).
      by apply (ce_like_unlike j i).
Qed.


(** ** ce_retrain.py: the models that are cleared *)

(** The number of occurrences of an event. *)
Definition count_event (e : event) (es : list event) : nat :=
  length (filter (fun x => x = e) es).

Lemma count_event_app e es1 es2 :
  count_event e (es1 ++ es2) = (count_event e es1 + count_event e es2)%nat.
Proof. unfold count_event. by rewrite filter_app, length_app. Qed.

Lemma count_event_absent e es : Forall (fun x => x ≠ e) es -> count_event e es = 0%nat.
Proof.
  unfold count_event. induction 1 as [|x es Hx Hes IH]; [done|].
  by rewrite filter_cons, decide_False.
Qed.

Lemma count_model_events_loops size_1 size_2 d1 d2 f dl :
  count_event new_model (events (retrain_loops size_1 size_2 d1 d2 f dl)) = 0%nat
  ∧ count_event model_clear (events (retrain_loops size_1 size_2 d1 d2 f dl)) = 0%nat.
Proof.
  split; apply count_event_absent, Forall_loops; intros d g;
    unfold step_events, evaluation, training;
    destruct (decide (g mod EVAL_TEST_EVERY = 0)%nat); cbn [app]; each_event; done.
Qed.

Lemma count_model_events_finalize sp st fresh :
  count_event new_model (finalize_events sp st fresh) = 0%nat
  ∧ count_event model_clear (finalize_events sp st fresh) = 0%nat.
Proof.
  split; apply count_event_absent; unfold finalize_events;
    destruct fresh; cbn [app]; each_event; done.
Qed.

(** X23: in an iteration of the C. elegans driver on a directory tree (an
    error file only in folders that exist, so that the iteration returns),
    every model that is created is cleared again, except on one path: when the
    temperature-branch run is made and the shared-branch folder exists
    already, the iteration ends with the model of the first run not
    cleared. *)
Theorem X23_ce_models_cleared (data_size : dataset -> nat) (swap : bool) (i : nat)
    (p : string) (w : world) :
  no_orphan_losses (files w) ->
  let tb := Ce.mpath p +:+ "/cel_tbranch_retrain" in
  let ntb := Ce.mpath p +:+ "/cel_nontbranch_retrain" in
  let new := new_events (Ce.model_iteration data_size swap i p) w in
  (Ce.model_iteration data_size swap i p w).1 = Ok tt
  ∧ count_event new_model new =
      ((if decide (tb ∈ files w) then 0 else 1)
       + (if decide (ntb ∈ files w) then 0 else 1))%nat
  ∧ count_event new_model new =
      (count_event model_clear new
       + (if decide (tb ∉ files w ∧ ntb ∈ files w) then 1 else 0))%nat.
Proof.
  intros Hw tb ntb new.
  split; [by apply Ce_iteration_tree|].
  assert (forall size_1 size_2 d1 d2 f dl,
            count_event new_model (events (retrain_loops size_1 size_2 d1 d2 f dl))
            = 0%nat) as Hnew by (intros; apply count_model_events_loops).
  assert (forall size_1 size_2 d1 d2 f dl,
            count_event model_clear (events (retrain_loops size_1 size_2 d1 d2 f dl))
            = 0%nat) as Hclear by (intros; apply count_model_events_loops).
  assert (forall sp st fresh, count_event new_model (finalize_events sp st fresh)
                              = 0%nat) as Hnew'
    by (intros; apply count_model_events_finalize).
  assert (forall sp st fresh, count_event model_clear (finalize_events sp st fresh)
                              = 0%nat) as Hclear'
    by (intros; apply count_model_events_finalize).
  unfold new.
  destruct (decide (tb ∈ files w)) as [Htb|Htb],
           (decide (ntb ∈ files w)) as [Hntb|Hntb].
  - erewrite new_events_intro
      by (rewrite Ce_iteration_both_exist by done; reflexivity).
    rewrite decide_False by tauto. by split.
  - assert (ntb +:+ "/losses.hdf5" ∉ files w) as Hntbl
      by (intros ?; by apply Hntb, Hw).
    erewrite new_events_intro
      by (rewrite Ce_iteration_tbranch_exists by done; reflexivity).
    rewrite bool_decide_eq_true_2, decide_False by tauto.
    rewrite !count_event_app, Hnew, Hclear, Hnew', Hclear'. by split.
  - assert (tb +:+ "/losses.hdf5" ∉ files w) as Htbl
      by (intros ?; by apply Htb, Hw).
    erewrite new_events_intro
      by (rewrite Ce_iteration_nontbranch_exists by done; reflexivity).
    rewrite bool_decide_eq_true_2, decide_True by tauto.
    rewrite !count_event_app, Hnew, Hclear, Hnew', Hclear'. by split.
  - assert (tb +:+ "/losses.hdf5" ∉ files w) as Htbl
      by (intros ?; by apply Htb, Hw).
    assert (ntb +:+ "/losses.hdf5" ∉ files w) as Hntbl
      by (intros ?; by apply Hntb, Hw).
    erewrite new_events_intro
      by (rewrite Ce_iteration_fresh by done; reflexivity).
    rewrite decide_False by tauto. unfold Ce_both_runs_events.
    rewrite !count_event_app, !Hnew, !Hclear, !Hnew', !Hclear'. by split.
Qed.

(** The temperature-branch run is made and the shared-branch folder exists:
    one model is created and none is cleared. *)
Lemma X23_ce_models_cleared_witness :
  let p := "a_3m512_0/" in
  let w := {| files := {[Ce.mpath p +:+ "/cel_nontbranch_retrain"]}; trace := [] |} in
  let new := new_events (Ce.model_iteration (sizes 64 32) true 0 p) w in
  count_event new_model new = 1%nat ∧ count_event model_clear new = 0%nat.
Proof.
  intros p w new.
  assert (no_orphan_losses (files w)) as Hw.
  { intros folder. unfold w. cbn [files]. rewrite !elem_of_singleton.
    paths_differ. }
  destruct (X23_ce_models_cleared (sizes 64 32) true 0 p w Hw) as (_ & Hnew & Hbal).
  fold new in Hnew, Hbal.
  assert (Ce.mpath p +:+ "/cel_nontbranch_retrain" ∈ files w) as Hntb
    by (cbn [files w]; by apply elem_of_singleton).
  assert (Ce.mpath p +:+ "/cel_tbranch_retrain" ∉ files w) as Htb
    by (cbn [files w]; apply not_elem_of_singleton; by intros ?%string_app_inj).
  rewrite decide_False, decide_True in Hnew by assumption.
  rewrite decide_True in Hbal by (split; assumption).
  split; [exact Hnew|]. rewrite Hnew in Hbal. lia.
Defined.
